(** * Catalog export: signer, paginator and flattener of [main.py]

    A shallow embedding of the export script.  Python values decoded from
    JSON are an inductive type, a [str] is a Rocq [string] holding its UTF-8
    bytes, exceptions are an error type, and the functions that touch the
    clock, the network or the output file run in a state-and-error monad
    over an explicit [world].  Library functions the script calls
    ([hmac], [base64], [urlparse], [urlencode], [json.dumps], [csv]) are
    written out as executable functions and checked on known values.

    Calls to [print] and the creation of the output directory are left out:
    they never change what is fetched or written. *)

From Stdlib Require Import ZArith NArith Ascii String DecimalString.
From Stdlib Require Import DecimalFacts DecimalPos DecimalN DecimalZ.
From stdpp Require Import base tactics option list gmap sets strings sorting.

#[local] Set Warnings "-clear-no-such-hyp".

Local Open Scope Z_scope.

(** ** Byte strings *)

Definition bytes := list Z.

(** [s.encode("utf-8")]: the bytes of a string. *)
Definition encode_utf8 (s : string) : bytes :=
  map (fun c => Z.of_N (N_of_ascii c)) (list_ascii_of_string s).

Definition ascii_of_Z (n : Z) : ascii := ascii_of_N (Z.to_N n).

(** [b.decode("ascii")] on bytes that are known to be ASCII. *)
Definition decode_ascii (b : bytes) : string :=
  string_of_list_ascii (map ascii_of_Z b).

(** ** SHA-256 (FIPS 180-4), on 32-bit words held in [Z] *)

Module Sha256.

Definition modulus : Z := 4294967296.
Definition wrap (x : Z) : Z := x mod modulus.
Definition add32 (x y : Z) : Z := wrap (x + y).

Definition rotr (n x : Z) : Z :=
  Z.lor (Z.shiftr x n) (wrap (Z.shiftl x (32 - n))).
Definition shr (n x : Z) : Z := Z.shiftr x n.
Definition not32 (x : Z) : Z := Z.lxor x (modulus - 1).

Definition ch (x y z : Z) : Z := Z.lxor (Z.land x y) (Z.land (not32 x) z).
Definition maj (x y z : Z) : Z :=
  Z.lxor (Z.lxor (Z.land x y) (Z.land x z)) (Z.land y z).
Definition big_sigma0 (x : Z) : Z :=
  Z.lxor (Z.lxor (rotr 2 x) (rotr 13 x)) (rotr 22 x).
Definition big_sigma1 (x : Z) : Z :=
  Z.lxor (Z.lxor (rotr 6 x) (rotr 11 x)) (rotr 25 x).
Definition small_sigma0 (x : Z) : Z :=
  Z.lxor (Z.lxor (rotr 7 x) (rotr 18 x)) (shr 3 x).
Definition small_sigma1 (x : Z) : Z :=
  Z.lxor (Z.lxor (rotr 17 x) (rotr 19 x)) (shr 10 x).

(** Round constants: the fractional parts of the cube roots of the first
    sixty-four primes. *)
Definition round_constants : list Z :=
  [ 1116352408; 1899447441; 3049323471; 3921009573; 961987163; 1508970993;
    2453635748; 2870763221; 3624381080; 310598401; 607225278; 1426881987;
    1925078388; 2162078206; 2614888103; 3248222580; 3835390401; 4022224774;
    264347078; 604807628; 770255983; 1249150122; 1555081692; 1996064986;
    2554220882; 2821834349; 2952996808; 3210313671; 3336571891; 3584528711;
    113926993; 338241895; 666307205; 773529912; 1294757372; 1396182291;
    1695183700; 1986661051; 2177026350; 2456956037; 2730485921; 2820302411;
    3259730800; 3345764771; 3516065817; 3600352804; 4094571909; 275423344;
    430227734; 506948616; 659060556; 883997877; 958139571; 1322822218;
    1537002063; 1747873779; 1955562222; 2024104815; 2227730452; 2361852424;
    2428436474; 2756734187; 3204031479; 3329325298 ].

Definition initial_hash : list Z :=
  [ 1779033703; 3144134277; 1013904242; 2773480762;
    1359893119; 2600822924; 528734635; 1541459225 ].

(** Big-endian bytes of a word of [n] bytes. *)
Fixpoint be_bytes (n : nat) (x : Z) : bytes :=
  match n with
  | O => []
  | S m => (Z.shiftr x (8 * Z.of_nat m)) mod 256 :: be_bytes m x
  end.

Definition pad (msg : bytes) : bytes :=
  let len := Z.of_nat (length msg) in
  msg ++ 128 :: repeat 0 (Z.to_nat ((55 - len) mod 64)) ++ be_bytes 8 (8 * len).

Fixpoint words_of (fuel : nat) (b : bytes) : list Z :=
  match fuel, b with
  | S f, b0 :: b1 :: b2 :: b3 :: rest =>
      (Z.shiftl b0 24 + Z.shiftl b1 16 + Z.shiftl b2 8 + b3) :: words_of f rest
  | _, _ => []
  end.

Fixpoint blocks_of (fuel : nat) (ws : list Z) : list (list Z) :=
  match fuel, ws with
  | S f, _ :: _ => take 16 ws :: blocks_of f (drop 16 ws)
  | _, _ => []
  end.

(** The message schedule, newest word first while it is built. *)
Fixpoint extend (n : nat) (rev_w : list Z) : list Z :=
  match n with
  | O => rev_w
  | S m =>
      let at_back k := nth k rev_w 0 in
      let next :=
        add32 (add32 (small_sigma1 (at_back 1%nat)) (at_back 6%nat))
              (add32 (small_sigma0 (at_back 14%nat)) (at_back 15%nat)) in
      extend m (next :: rev_w)
  end.

Definition schedule (block : list Z) : list Z :=
  rev (extend 48 (rev block)).

Record regs := Regs { ra : Z; rb : Z; rc : Z; rd : Z;
                      re : Z; rf : Z; rg : Z; rh : Z }.

Definition round (r : regs) (kw : Z * Z) : regs :=
  let t1 := add32 (add32 (add32 (rh r) (big_sigma1 (re r)))
                         (add32 (ch (re r) (rf r) (rg r)) (fst kw))) (snd kw) in
  let t2 := add32 (big_sigma0 (ra r)) (maj (ra r) (rb r) (rc r)) in
  Regs (add32 t1 t2) (ra r) (rb r) (rc r) (add32 (rd r) t1) (re r) (rf r) (rg r).

Definition regs_of (h : list Z) : regs :=
  Regs (nth 0 h 0) (nth 1 h 0) (nth 2 h 0) (nth 3 h 0)
       (nth 4 h 0) (nth 5 h 0) (nth 6 h 0) (nth 7 h 0).

Definition compress (h : list Z) (block : list Z) : list Z :=
  let r := fold_left round (combine round_constants (schedule block)) (regs_of h) in
  zip_with add32 h [ra r; rb r; rc r; rd r; re r; rf r; rg r; rh r].

Definition digest (msg : bytes) : bytes :=
  let padded := pad msg in
  let ws := words_of (length padded) padded in
  let h := fold_left compress (blocks_of (length ws) ws) initial_hash in
  concat (map (be_bytes 4) h).

End Sha256.

(** ** HMAC (RFC 2104) with SHA-256: [hmac.new(key, msg, hashlib.sha256).digest()] *)

Definition hmac_sha256 (key msg : bytes) : bytes :=
  let k0 := if Nat.ltb 64 (length key) then Sha256.digest key else key in
  let block := k0 ++ repeat 0 (64 - length k0) in
  let inner := map (Z.lxor 54) block in
  let outer := map (Z.lxor 92) block in
  Sha256.digest (outer ++ Sha256.digest (inner ++ msg)).

(** ** Base64 (RFC 4648), the standard alphabet with padding: [base64.b64encode] *)

Definition b64_alphabet : string :=
  "ABCDEFGHIJKLMNOPQRSTUVWXYZabcdefghijklmnopqrstuvwxyz0123456789+/".

Definition b64_char (i : Z) : ascii :=
  match String.get (Z.to_nat i) b64_alphabet with
  | Some c => c
  | None => "="%char
  end.

Fixpoint b64_groups (fuel : nat) (b : bytes) : list ascii :=
  match fuel, b with
  | S f, x :: y :: z :: rest =>
      let n := Z.shiftl x 16 + Z.shiftl y 8 + z in
      b64_char (Z.shiftr n 18) :: b64_char (Z.shiftr n 12 mod 64)
        :: b64_char (Z.shiftr n 6 mod 64) :: b64_char (n mod 64)
        :: b64_groups f rest
  | _, [x; y] =>
      let n := Z.shiftl x 16 + Z.shiftl y 8 in
      [b64_char (Z.shiftr n 18); b64_char (Z.shiftr n 12 mod 64);
       b64_char (Z.shiftr n 6 mod 64); "="%char]
  | _, [x] =>
      let n := Z.shiftl x 16 in
      [b64_char (Z.shiftr n 18); b64_char (Z.shiftr n 12 mod 64);
       "="%char; "="%char]
  | _, _ => []
  end.

Definition b64encode (b : bytes) : bytes :=
  encode_utf8 (string_of_list_ascii (b64_groups (length b) b)).

Example sha256_abc :
  Sha256.digest (encode_utf8 "abc") =
  [186; 120; 22; 191; 143; 1; 207; 234; 65; 65; 64; 222; 93; 174; 34; 35;
   176; 3; 97; 163; 150; 23; 122; 156; 180; 16; 255; 97; 242; 0; 21; 173].
Proof. vm_compute. reflexivity. Qed.

(** RFC 4231, test case 2. *)
Example hmac_rfc4231_case2 :
  decode_ascii (b64encode (hmac_sha256 (encode_utf8 "Jefe")
                             (encode_utf8 "what do ya want for nothing?"))) =
  "W9zBRr9gdU5qBCQmCJV1x1oAPwidJzmDnexYuWTsOEM=".
Proof. vm_compute. reflexivity. Qed.

Example hmac_long_key :
  decode_ascii (b64encode (hmac_sha256 (repeat 107 100) (repeat 109 200))) =
  "prym9EghZ+7/rcBEmjRsIf/o+WF37O7K6xgrYQ9hKMg=".
Proof. vm_compute. reflexivity. Qed.

(** ** Characters and small string functions *)

Definition LF : string := String "010"%char "".
Definition DQUOTE : ascii := "034"%char.

Definition code (c : ascii) : N := N_of_ascii c.

Definition in_range (lo hi : N) (c : ascii) : bool :=
  (N.leb lo (code c) && N.leb (code c) hi)%bool.

Definition is_digit (c : ascii) : bool := in_range 48 57 c.
Definition is_upper (c : ascii) : bool := in_range 65 90 c.
Definition is_lower (c : ascii) : bool := in_range 97 122 c.
Definition is_alpha (c : ascii) : bool := (is_upper c || is_lower c)%bool.

Definition to_lower (c : ascii) : ascii :=
  if is_upper c then ascii_of_N (code c + 32) else c.

Fixpoint string_map (f : ascii -> ascii) (s : string) : string :=
  match s with
  | EmptyString => EmptyString
  | String c s' => String (f c) (string_map f s')
  end.

Fixpoint string_forall (p : ascii -> bool) (s : string) : bool :=
  match s with
  | EmptyString => true
  | String c s' => (p c && string_forall p s')%bool
  end.

Fixpoint string_filter (p : ascii -> bool) (s : string) : string :=
  match s with
  | EmptyString => EmptyString
  | String c s' => if p c then String c (string_filter p s') else string_filter p s'
  end.

Definition contains (c : ascii) (s : string) : bool :=
  negb (string_forall (fun x => negb (Ascii.eqb x c)) s).

(** [s.partition(c)]: the text before the first [c] and the text after it. *)
Fixpoint split_first (c : ascii) (s : string) : option (string * string) :=
  match s with
  | EmptyString => None
  | String x s' =>
      if Ascii.eqb x c then Some (EmptyString, s')
      else match split_first c s' with
           | Some (a, b) => Some (String x a, b)
           | None => None
           end
  end.

(** The longest prefix without a character satisfying [stop], and the rest. *)
Fixpoint span_until (stop : ascii -> bool) (s : string) : string * string :=
  match s with
  | EmptyString => (EmptyString, EmptyString)
  | String x s' =>
      if stop x then (EmptyString, s)
      else let '(a, b) := span_until stop s' in (String x a, b)
  end.

(** [", ".join(items)] and the like. *)
Fixpoint join (sep : string) (items : list string) : string :=
  match items with
  | [] => ""
  | [x] => x
  | x :: rest => x +:+ sep +:+ join sep rest
  end.

(** [s.startswith(p)] *)
Definition startswith (p s : string) : bool := String.prefix p s.

(** Whitespace removed by [str.strip()] from ASCII text. *)
Definition is_py_space (c : ascii) : bool :=
  (in_range 9 13 c || in_range 28 32 c)%bool.

Fixpoint lstrip_with (p : ascii -> bool) (s : string) : string :=
  match s with
  | EmptyString => EmptyString
  | String c s' => if p c then lstrip_with p s' else s
  end.

Fixpoint rstrip_with (p : ascii -> bool) (s : string) : string :=
  match s with
  | EmptyString => EmptyString
  | String c s' =>
      match rstrip_with p s' with
      | EmptyString => if p c then EmptyString else String c EmptyString
      | r => String c r
      end
  end.

Definition strip (s : string) : string :=
  rstrip_with is_py_space (lstrip_with is_py_space s).

(** [int.__repr__] *)
Definition int_repr (n : Z) : string := NilZero.string_of_int (Z.to_int n).

Example int_repr_samples :
  (int_repr 0, int_repr 500, int_repr (-42)) = ("0", "500", "-42").
Proof. reflexivity. Qed.

(** ** Python values as the JSON decoder builds them *)

(** A float is carried as the text [repr] prints for it.  The script never
    computes with a float: it only prints it, through [str] or
    [json.dumps], and both print the [repr].  That [float(repr(x))] gives
    [x] back is Python's guarantee and lies outside this model. *)
Inductive pyfloat :=
| FNan
| FInf (negative : bool)
| FFin (repr : string).

Unset Elimination Schemes.
Inductive pyval :=
| PNone
| PBool (b : bool)
| PInt (n : Z)
| PFloat (f : pyfloat)
| PStr (s : string)
| PList (items : list pyval)
| PDict (entries : list (string * pyval)).
Set Elimination Schemes.

(** The induction principle that reaches inside lists and dictionaries. *)
Section pyval_induction.
Variable P : pyval -> Prop.
Hypothesis HNone : P PNone.
Hypothesis HBool : forall b, P (PBool b).
Hypothesis HInt : forall n, P (PInt n).
Hypothesis HFloat : forall f, P (PFloat f).
Hypothesis HStr : forall s, P (PStr s).
Hypothesis HList : forall items, Forall P items -> P (PList items).
Hypothesis HDict :
  forall entries, Forall (fun kv => P (snd kv)) entries -> P (PDict entries).

Fixpoint pyval_deep_ind (v : pyval) : P v :=
  match v with
  | PNone => HNone
  | PBool b => HBool b
  | PInt n => HInt n
  | PFloat f => HFloat f
  | PStr s => HStr s
  | PList items =>
      HList items
        ((fix go (l : list pyval) : Forall P l :=
            match l with
            | [] => @List.Forall_nil _ P
            | x :: l' => @List.Forall_cons _ P x _ (pyval_deep_ind x) (go l')
            end) items)
  | PDict entries =>
      HDict entries
        ((fix go (l : list (string * pyval)) : Forall (fun kv => P (snd kv)) l :=
            match l with
            | [] => List.Forall_nil _
            | kv :: l' =>
                @List.Forall_cons _ (fun kv => P (snd kv)) kv _ (pyval_deep_ind (snd kv)) (go l')
            end) entries)
  end.
End pyval_induction.

(** The mantissa of a float text is zero: every digit before the exponent
    is [0]. *)
Definition float_text_is_zero (t : string) : bool :=
  let mantissa := fst (span_until (fun c => (Ascii.eqb c "e" || Ascii.eqb c "E")%bool) t) in
  string_forall (fun c => negb (is_digit c) || Ascii.eqb c "0")%bool mantissa.

(** [bool(v)] *)
Definition truthy (v : pyval) : bool :=
  match v with
  | PNone => false
  | PBool b => b
  | PInt n => negb (n =? 0)
  | PFloat FNan => true
  | PFloat (FInf _) => true
  | PFloat (FFin t) => negb (float_text_is_zero t)
  | PStr s => negb (String.eqb s "")
  | PList items => match items with [] => false | _ => true end
  | PDict entries => match entries with [] => false | _ => true end
  end.

(** [a or b] *)
Definition py_or (a b : pyval) : pyval := if truthy a then a else b.

(** [v == s] for a string [s]. *)
Definition equals_str (v : pyval) (s : string) : bool :=
  match v with
  | PStr t => String.eqb t s
  | _ => false
  end.

(** [isinstance(v, (dict, list))] *)
Definition is_compound (v : pyval) : bool :=
  match v with
  | PList _ | PDict _ => true
  | _ => false
  end.

(** Lookup in a dictionary held as its items, in insertion order. *)
Fixpoint lookup_key (k : string) (entries : list (string * pyval)) : option pyval :=
  match entries with
  | [] => None
  | (k', v) :: rest => if String.eqb k' k then Some v else lookup_key k rest
  end.

(** ** Exceptions and outcomes *)

Inductive exn :=
| RuntimeError (msg : string)
| AttributeError
| TypeError
| ValueError
| HTTPError (status : Z)
| JSONDecodeError
| ConnectionError.

Inductive outcome (A : Type) :=
| Ok (a : A)
| Raise (e : exn)
| OutOfFuel.
Arguments Ok {A} a.
Arguments Raise {A} e.
Arguments OutOfFuel {A}.

(** [v.get(k, default)]: only a dictionary has [get]. *)
Definition py_get (v : pyval) (k : string) (fallback : pyval) : outcome pyval :=
  match v with
  | PDict entries => Ok (default fallback (lookup_key k entries))
  | _ => Raise AttributeError
  end.

(** ** [urllib.parse] *)

Record parse_result := ParseResult {
  url_scheme : string;
  url_netloc : string;
  url_path : string;
  url_params : string;
  url_query : string;
  url_fragment : string
}.

Definition is_c0_or_space (c : ascii) : bool := N.leb (code c) 32.

Definition is_unsafe_url_byte (c : ascii) : bool :=
  (Ascii.eqb c "009" || Ascii.eqb c "013" || Ascii.eqb c "010")%bool.

Definition is_scheme_char (c : ascii) : bool :=
  (is_alpha c || is_digit c || Ascii.eqb c "+" || Ascii.eqb c "-" || Ascii.eqb c ".")%bool.

Definition is_netloc_end (c : ascii) : bool :=
  (Ascii.eqb c "/" || Ascii.eqb c "?" || Ascii.eqb c "#")%bool.

Definition uses_params : list string :=
  [""; "ftp"; "hdl"; "prospero"; "http"; "imap"; "https"; "shttp"; "rtsp";
   "rtspu"; "sip"; "sips"; "mms"; "sftp"; "tel"].

(** The scheme is split off when the text before the first colon is not
    empty, starts with an ASCII letter and holds scheme characters only. *)
Definition split_scheme (url : string) : string * string :=
  match split_first ":" url with
  | Some (String c pre, post) =>
      if (is_alpha c && string_forall is_scheme_char (String c pre))%bool
      then (string_map to_lower (String c pre), post)
      else ("", url)
  | _ => ("", url)
  end.

Definition split_netloc (url : string) : string * string :=
  match url with
  | String a (String b rest) =>
      if (Ascii.eqb a "/" && Ascii.eqb b "/")%bool
      then span_until is_netloc_end rest
      else ("", url)
  | _ => ("", url)
  end.

Definition split_or_all (c : ascii) (s : string) : string * string :=
  match split_first c s with
  | Some ab => ab
  | None => (s, "")
  end.

(** [_splitparams]: cut at the first semicolon of the last path segment. *)
Fixpoint splitparams (s : string) : string * string :=
  match s with
  | EmptyString => ("", "")
  | String c s' =>
      if (Ascii.eqb c ";" && negb (contains "/" s'))%bool then ("", s')
      else let '(a, b) := splitparams s' in (String c a, b)
  end.

(** [urlparse(url)].  The library also rejects some hosts with ValueError
    (unbalanced or ill-formed brackets, characters unsafe under NFKC);
    those checks read the netloc only and are left out. *)
Definition urlparse (url : string) : parse_result :=
  let url := lstrip_with is_c0_or_space url in
  let url := string_filter (fun c => negb (is_unsafe_url_byte c)) url in
  let '(scheme, url) := split_scheme url in
  let '(netloc, url) := split_netloc url in
  let '(url, fragment) := split_or_all "#" url in
  let '(url, query) := split_or_all "?" url in
  let '(url, params) :=
    if (bool_decide (scheme ∈ uses_params) && contains ";" url)%bool
    then splitparams url else (url, "") in
  ParseResult scheme netloc url params query fragment.

Example urlparse_export :
  urlparse "https://live.luigisbox.com/v1/content_export;p=1?size=500#frag" =
  ParseResult "https" "live.luigisbox.com" "/v1/content_export" "p=1" "size=500" "frag".
Proof. vm_compute. reflexivity. Qed.

Example urlparse_params_last_segment :
  urlparse "//host/a/b;c/d;e?x" = ParseResult "" "host" "/a/b;c/d" "e" "x" "".
Proof. vm_compute. reflexivity. Qed.

Example urlparse_colon_in_query :
  urlparse "abc?x:y" = ParseResult "" "" "abc" "" "x:y" "".
Proof. vm_compute. reflexivity. Qed.

Definition hex_upper (n : N) : ascii :=
  if N.ltb n 10 then ascii_of_N (48 + n) else ascii_of_N (55 + n).

Definition is_always_safe (c : ascii) : bool :=
  (is_alpha c || is_digit c || Ascii.eqb c "_" || Ascii.eqb c "."
   || Ascii.eqb c "-" || Ascii.eqb c "~")%bool.

(** [quote_plus(s)] *)
Fixpoint quote_plus (s : string) : string :=
  match s with
  | EmptyString => EmptyString
  | String c s' =>
      if is_always_safe c then String c (quote_plus s')
      else if Ascii.eqb c " " then String "+" (quote_plus s')
      else String "%" (String (hex_upper (N.div (code c) 16))
                         (String (hex_upper (N.modulo (code c) 16)) (quote_plus s')))
  end.

(** [urlencode(params)] for a dictionary of strings, in insertion order. *)
Definition urlencode (params : list (string * string)) : string :=
  join "&" (map (fun kv => quote_plus (fst kv) +:+ "=" +:+ quote_plus (snd kv)) params).

(** ** Configuration: the module-level constants of the script *)

Record config := Config {
  PUBLIC_KEY : option string;     (* os.getenv("TRACKER_ID") *)
  PRIVATE_KEY : option string;    (* os.getenv("API_KEY") *)
  HIT_FIELDS : list string;
  REQUESTED_TYPES : list string;
  PAGE_SIZE : Z;
  OUTPUT_CSV : string;
  BASE_URL : string
}.

(** The constants as the script sets them, for the two keys read from the
    environment. *)
Definition script_config (public_key private_key : option string) : config :=
  Config public_key private_key ["title"; "web_url"] ["serie"] 500
         "catalog/luigisbox_catalog_export.csv" "https://live.luigisbox.com".

Definition CONTENT_TYPE : string := "application/json; charset=utf-8".

(** ** The world: clock, network and output files *)

Definition headers := list (string * string).

Record request := Request { req_url : string; req_headers : headers }.

(** A reply of the server: the status, the body text and what
    [resp.json()] decodes it to ([None] when the body is not JSON). *)
Record response := Response {
  status_code : Z;
  text : string;
  json_body : option pyval
}.

(** What [csv.writer] puts in a field.  [None] gives the empty field, a
    [str] is written as it is, anything else through [str()]; the [str()] of
    a list or dictionary is its Python [repr], which is kept symbolic. *)
Inductive cell :=
| Field (content : string)
| FieldRepr (v : pyval).

Record world := World {
  clock : nat -> string;                  (* the date text at the n-th reading *)
  ticks : nat;                            (* readings of the clock so far *)
  net : list response;                    (* the replies still to come *)
  sent : list request;                    (* the requests issued, oldest first *)
  files : gmap string (list (list cell))  (* the rows of each file written *)
}.

(** ** The state-and-error monad *)

Definition M (A : Type) : Type := world -> outcome A * world.

Definition ret {A} (a : A) : M A := fun w => (Ok a, w).
Definition raise {A} (e : exn) : M A := fun w => (Raise e, w).
Definition out_of_fuel {A} : M A := fun w => (OutOfFuel, w).

Definition bind {A B} (m : M A) (k : A -> M B) : M B :=
  fun w =>
    match m w with
    | (Ok a, w') => k a w'
    | (Raise e, w') => (Raise e, w')
    | (OutOfFuel, w') => (OutOfFuel, w')
    end.

Definition lift {A} (o : outcome A) : M A := fun w => (o, w).

Notation "x <- m ;; k" := (bind m (fun x => k))
  (at level 100, m at next level, right associativity).
Notation "m ;;; k" := (bind m (fun _ => k))
  (at level 100, right associativity).

(** The same sequencing for computations that touch no state. *)
Definition obind {A B} (o : outcome A) (k : A -> outcome B) : outcome B :=
  match o with
  | Ok a => k a
  | Raise e => Raise e
  | OutOfFuel => OutOfFuel
  end.

Notation "x <-- o ;; k" := (obind o (fun x => k))
  (at level 100, o at next level, right associativity).

(** ** Signer *)

(** [compute_digest(private_key, method, endpoint, date_str, content_type)] *)
Definition compute_digest (private_key method endpoint date_str content_type : string)
  : string :=
  let data := method +:+ LF +:+ content_type +:+ LF +:+ date_str +:+ LF +:+ endpoint in
  let signature := hmac_sha256 (encode_utf8 private_key) (encode_utf8 data) in
  strip (decode_ascii (b64encode signature)).

(** [str(v)] inside an f-string, for the optional public key. *)
Definition format_key (k : option string) : string :=
  match k with
  | Some s => s
  | None => "None"
  end.

(** [dt.datetime.now] followed by [format_datetime]. *)
Definition now_date : M string :=
  fun w => (Ok (clock w (ticks w)),
            World (clock w) (S (ticks w)) (net w) (sent w) (files w)).

(** [build_signed_headers(full_url, method)].  [urlparse] of a value that
    is not a string, and [encode] on a missing private key, raise
    AttributeError. *)
Definition build_signed_headers (cfg : config) (full_url : pyval) (method : string)
  : M headers :=
  match full_url with
  | PStr u =>
      let endpoint := url_path (urlparse u) in
      date_str <- now_date ;;
      match PRIVATE_KEY cfg with
      | Some private_key =>
          let digest := compute_digest private_key method endpoint date_str CONTENT_TYPE in
          ret [ ("Content-Type", CONTENT_TYPE);
                ("Date", date_str);
                ("Authorization", "ApiAuth " +:+ format_key (PUBLIC_KEY cfg) +:+ ":" +:+ digest);
                ("Accept-Encoding", "gzip, deflate") ]
      | None => raise AttributeError
      end
  | _ => raise AttributeError
  end.

Example digest_sample :
  compute_digest "secret" "GET" "/v1/content_export"
    "Wed, 04 Nov 2026 07:20:00 +0000" CONTENT_TYPE =
  "EiTtpUaA4tr6xXDON9aMx/Rydp95kN7r3Ao/+r4af14=".
Proof. vm_compute. reflexivity. Qed.

(** ** Paginator *)

(** [build_first_page_url()] *)
Definition build_first_page_url (cfg : config) : string :=
  let params :=
    (if PAGE_SIZE cfg =? 0 then [] else [("size", int_repr (PAGE_SIZE cfg))])
    ++ (match HIT_FIELDS cfg with
        | [] => []
        | fs => [("hit_fields", join "," fs)]
        end)
    ++ (match REQUESTED_TYPES cfg with
        | [] => []
        | ts => [("requested_types", join "," ts)]
        end) in
  let endpoint := "/v1/content_export" in
  let endpoint :=
    match params with
    | [] => endpoint
    | _ => endpoint +:+ "?" +:+ urlencode params
    end in
  BASE_URL cfg +:+ endpoint.

Example first_page_url_of_script :
  build_first_page_url (script_config (Some "pub") (Some "priv")) =
  "https://live.luigisbox.com/v1/content_export?size=500&hit_fields=title%2Cweb_url&requested_types=serie".
Proof. vm_compute. reflexivity. Qed.

(** [requests.get(url, headers=headers)]: the request is issued and the
    next reply comes back; with no reply left the connection fails. *)
Definition requests_get (url : string) (hs : headers) : M response :=
  fun w =>
    let w' := World (clock w) (ticks w) (tl (net w))
                    (sent w ++ [Request url hs]) (files w) in
    match net w with
    | resp :: _ => (Ok resp, w')
    | [] => (Raise ConnectionError, w')
    end.

(** [resp.raise_for_status()] *)
Definition raise_for_status (resp : response) : M unit :=
  if ((400 <=? status_code resp) && (status_code resp <? 600))%bool
  then raise (HTTPError (status_code resp))
  else ret tt.

(** [resp.json()] *)
Definition response_json (resp : response) : M pyval :=
  match json_body resp with
  | Some v => ret v
  | None => raise JSONDecodeError
  end.

(** [request_json(url)] *)
Definition request_json (cfg : config) (url : pyval) : M pyval :=
  hs <- build_signed_headers cfg url "GET" ;;
  match url with
  | PStr u =>
      resp <- requests_get u hs ;;
      raise_for_status resp ;;;
      response_json resp
  | _ => raise AttributeError
  end.


(** A byte that continues a UTF-8 sequence. *)
Definition is_continuation (c : ascii) : bool := in_range 128 191 c.

Fixpoint code_points_go (s : string) : string * list string :=
  match s with
  | EmptyString => ("", [])
  | String c s' =>
      let '(pending, done) := code_points_go s' in
      if is_continuation c then (String c pending, done)
      else ("", String c pending :: done)
  end.

(** The characters of a string, each as a string of its own. *)
Definition code_points (s : string) : list string :=
  let '(pending, done) := code_points_go s in
  match pending with
  | EmptyString => done
  | _ => pending :: done
  end.

(** [iter(v)]: what a [for] loop or [list.extend] walks through. *)
Definition py_iter (v : pyval) : outcome (list pyval) :=
  match v with
  | PList items => Ok items
  | PStr s => Ok (map PStr (code_points s))
  | PDict entries => Ok (map (fun kv => PStr (fst kv)) entries)
  | _ => Raise TypeError
  end.

(** [len(v)] *)
Definition py_len (v : pyval) : outcome Z :=
  match v with
  | PList items => Ok (Z.of_nat (length items))
  | PStr s => Ok (Z.of_nat (length (code_points s)))
  | PDict entries => Ok (Z.of_nat (length entries))
  | _ => Raise TypeError
  end.

(** [data.get("objects", []) or []] *)
Definition page_objects_of (data : pyval) : outcome pyval :=
  x <-- py_get data "objects" (PList []) ;;
  Ok (py_or x (PList [])).

(** The [for link in ...] loop with its [break]: the [href] of the first
    entry whose [rel] is ["next"], or [None]. *)
Fixpoint scan_links (links : list pyval) : outcome pyval :=
  match links with
  | [] => Ok PNone
  | link :: rest =>
      rel <-- py_get link "rel" PNone ;;
      if equals_str rel "next" then py_get link "href" PNone
      else scan_links rest
  end.

Definition find_next_link (data : pyval) : outcome pyval :=
  links <-- py_get data "links" (PList []) ;;
  items <-- py_iter (py_or links (PList [])) ;;
  scan_links items.

(** The [while url:] loop of [iterate_all_objects]; one unit of fuel per
    request. *)
Fixpoint fetch_pages (cfg : config) (fuel : nat) (url : pyval) (objects : list pyval)
  : M (list pyval) :=
  if truthy url then
    match fuel with
    | O => out_of_fuel
    | S fuel' =>
        data <- request_json cfg url ;;
        page_objects <- lift (page_objects_of data) ;;
        _ <- lift (py_len page_objects) ;;
        items <- lift (py_iter page_objects) ;;
        let objects := objects ++ items in
        next_link <- lift (find_next_link data) ;;
        if negb (truthy next_link) then ret objects
        else fetch_pages cfg fuel' next_link objects
    end
  else ret objects.

(** [iterate_all_objects()].  Every turn of the loop takes a reply off the
    network, so one more unit of fuel than there are replies is enough. *)
Definition iterate_all_objects (cfg : config) : M (list pyval) :=
  fun w =>
    fetch_pages cfg (S (length (net w))) (PStr (build_first_page_url cfg)) [] w.

(** ** [json.dumps(v, ensure_ascii=False)] *)

Definition hex_lower (n : N) : ascii :=
  if N.ltb n 10 then ascii_of_N (48 + n) else ascii_of_N (87 + n).

Definition BACKSLASH : ascii := "\"%char.

Definition escape_char (c : ascii) : string :=
  if Ascii.eqb c DQUOTE then String BACKSLASH (String DQUOTE "")
  else if Ascii.eqb c BACKSLASH then String BACKSLASH (String BACKSLASH "")
  else if Ascii.eqb c "008" then String BACKSLASH "b"
  else if Ascii.eqb c "012" then String BACKSLASH "f"
  else if Ascii.eqb c "010" then String BACKSLASH "n"
  else if Ascii.eqb c "013" then String BACKSLASH "r"
  else if Ascii.eqb c "009" then String BACKSLASH "t"
  else if N.ltb (code c) 32 then
    String BACKSLASH
      (String "u" (String "0" (String "0"
         (String (hex_lower (N.div (code c) 16))
            (String (hex_lower (N.modulo (code c) 16)) "")))))
  else String c "".

Fixpoint escape (s : string) : string :=
  match s with
  | EmptyString => EmptyString
  | String c s' => escape_char c +:+ escape s'
  end.

(** [py_encode_basestring] *)
Definition encode_basestring (s : string) : string :=
  String DQUOTE (escape s +:+ String DQUOTE "").

(** [float.__repr__] as the JSON encoder spells it. *)
Definition float_json (f : pyfloat) : string :=
  match f with
  | FNan => "NaN"
  | FInf false => "Infinity"
  | FInf true => "-Infinity"
  | FFin t => t
  end.

(** [str(f)] *)
Definition float_str (f : pyfloat) : string :=
  match f with
  | FNan => "nan"
  | FInf false => "inf"
  | FInf true => "-inf"
  | FFin t => t
  end.

Fixpoint json_dumps (v : pyval) : string :=
  match v with
  | PNone => "null"
  | PBool true => "true"
  | PBool false => "false"
  | PInt n => int_repr n
  | PFloat f => float_json f
  | PStr s => encode_basestring s
  | PList [] => "[]"
  | PList items => "[" +:+ join ", " (map json_dumps items) +:+ "]"
  | PDict [] => "{}"
  | PDict entries =>
      "{" +:+ join ", " (map (fun kv => encode_basestring (fst kv) +:+ ": "
                                         +:+ json_dumps (snd kv)) entries) +:+ "}"
  end.

Definition sample_value : pyval :=
  PDict [("a", PList [PInt 1; PFloat (FFin "2.5"); PNone; PBool true;
                      PStr (String "x" (String DQUOTE (String "y" (String BACKSLASH
                             (String "z" (String "010" (String "001" "")))))));
                      PDict [("k", PList [])]; PDict []]);
         ("b", PFloat (FFin "1e+16")); ("c", PFloat FNan)].

Example json_dumps_sample :
  json_dumps sample_value =
  "{" +:+ String DQUOTE "a" +:+ String DQUOTE ": [1, 2.5, null, true, "
  +:+ String DQUOTE "x\" +:+ String DQUOTE "y\\z\n\u0001" +:+ String DQUOTE ", {"
  +:+ String DQUOTE "k" +:+ String DQUOTE ": []}, {}], "
  +:+ String DQUOTE "b" +:+ String DQUOTE ": 1e+16, "
  +:+ String DQUOTE "c" +:+ String DQUOTE ": NaN}".
Proof. vm_compute. reflexivity. Qed.

(** ** Flattener *)

(** [obj.get("attributes") or {}] followed by [.keys()] *)
Definition attribute_keys_of (obj : pyval) : outcome (list string) :=
  attrs <-- py_get obj "attributes" PNone ;;
  match py_or attrs (PDict []) with
  | PDict entries => Ok (map fst entries)
  | _ => Raise AttributeError
  end.

Fixpoint collect_keys (objects : list pyval) (keys : gset string)
  : outcome (gset string) :=
  match objects with
  | [] => Ok keys
  | obj :: rest =>
      ks <-- attribute_keys_of obj ;;
      collect_keys rest (keys ∪ list_to_set ks)
  end.

(** [sorted(keys)] for a set of strings: strings compare character by
    character, by code. *)
Definition sorted (keys : gset string) : list string :=
  merge_sort String.le (elements keys).

(** [collect_attribute_keys(objects)] *)
Definition collect_attribute_keys (objects : list pyval) : outcome (list string) :=
  keys <-- collect_keys objects ∅ ;;
  Ok (sorted keys).

(** [csv.writer] turning a value into a field. *)
Definition csv_field (v : pyval) : cell :=
  match v with
  | PNone => Field ""
  | PStr s => Field s
  | PBool b => Field (if b then "True" else "False")
  | PInt n => Field (int_repr n)
  | PFloat f => Field (float_str f)
  | PList _ | PDict _ => FieldRepr v
  end.

(** [{k: "" for k in fieldnames}] *)
Definition blank_row (fieldnames : list string) : gmap string pyval :=
  list_to_map (map (fun k => (k, PStr "")) fieldnames).

(** [attrs.get(key)] *)
Definition attr_get (attrs : pyval) (key : string) : outcome pyval :=
  py_get attrs key PNone.

(** The [for key in attr_keys] loop. *)
Fixpoint fill_attributes (attrs : pyval) (attr_keys : list string)
    (row : gmap string pyval) : outcome (gmap string pyval) :=
  match attr_keys with
  | [] => Ok row
  | key :: rest =>
      value <-- attr_get attrs key ;;
      let shown := if is_compound value then PStr (json_dumps value) else value in
      fill_attributes attrs rest (<[key := shown]> row)
  end.

(** The body of the [for obj in objects] loop up to [writer.writerow]. *)
Definition build_row (attr_keys fieldnames : list string) (obj : pyval)
  : outcome (gmap string pyval) :=
  let row := blank_row fieldnames in
  url <-- py_get obj "url" (PStr "") ;;
  let row := <["url" := url]> row in
  type <-- py_get obj "type" (PStr "") ;;
  let row := <["type" := type]> row in
  exact <-- py_get obj "exact" (PStr "") ;;
  let row := <["exact" := exact]> row in
  attrs <-- py_get obj "attributes" PNone ;;
  let attrs := py_or attrs (PDict []) in
  row <-- fill_attributes attrs attr_keys row ;;
  nested <-- py_get obj "nested" (PList []) ;;
  Ok (<["nested" := PStr (json_dumps nested)]> row).

(** [DictWriter._dict_to_list]: one field per column name, in the order of
    [fieldnames]; a row with a key outside [fieldnames] is refused. *)
Definition dict_to_list (fieldnames : list string) (row : gmap string pyval)
  : outcome (list cell) :=
  if bool_decide (dom row ⊆ list_to_set fieldnames)
  then Ok (map (fun k => csv_field (default (PStr "") (row !! k))) fieldnames)
  else Raise ValueError.

(** The cells written for one object. *)
Definition emit_row (attr_keys fieldnames : list string) (obj : pyval)
  : outcome (list cell) :=
  row <-- build_row attr_keys fieldnames obj ;;
  dict_to_list fieldnames row.

(** [open(path, "w")]: the file is created or emptied. *)
Definition open_write (path : string) : M unit :=
  fun w => (Ok tt, World (clock w) (ticks w) (net w) (sent w) (<[path := []]> (files w))).

(** [writer.writerow]: one more row at the end of the file.  The write
    itself is taken to succeed.  Left out: the encoding of the row's text
    to UTF-8, which the library refuses (UnicodeEncodeError) for a string
    that holds a lone surrogate, and the [str] of an integer beyond the
    interpreter's limit on digits.  What is proved of the rows is their
    content and order when they are written. *)
Definition append_row (path : string) (cells : list cell) : M unit :=
  fun w =>
    (Ok tt, World (clock w) (ticks w) (net w) (sent w)
              (<[path := default [] (files w !! path) ++ [cells]]> (files w))).

Fixpoint write_rows (path : string) (attr_keys fieldnames : list string)
    (objects : list pyval) : M unit :=
  match objects with
  | [] => ret tt
  | obj :: rest =>
      cells <- lift (emit_row attr_keys fieldnames obj) ;;
      append_row path cells ;;;
      write_rows path attr_keys fieldnames rest
  end.

Definition fieldnames_of (attr_keys : list string) : list string :=
  ["url"; "type"; "exact"] ++ attr_keys ++ ["nested"].

(** [write_objects_to_csv(objects, output_path)] *)
Definition write_objects_to_csv (objects : list pyval) (output_path : string)
  : M unit :=
  attr_keys <- lift (collect_attribute_keys objects) ;;
  let fieldnames := fieldnames_of attr_keys in
  open_write output_path ;;;
  append_row output_path (map Field fieldnames) ;;;
  write_rows output_path attr_keys fieldnames objects.

(** ** Orchestrator *)

(** [not key or key.startswith("<")] *)
Definition key_unset (key : option string) : bool :=
  match key with
  | None => true
  | Some s => (String.eqb s "" || startswith "<" s)%bool
  end.

(** [export_catalog()] *)
Definition export_catalog (cfg : config) : M unit :=
  if key_unset (PUBLIC_KEY cfg)
  then raise (RuntimeError "Please set PUBLIC_KEY at the top of the script.")
  else if key_unset (PRIVATE_KEY cfg)
  then raise (RuntimeError "Please set PRIVATE_KEY at the top of the script.")
  else
    objects <- iterate_all_objects cfg ;;
    write_objects_to_csv objects (OUTPUT_CSV cfg).

(** ** [json.loads]: the decoder that reads a cell back

    The script only writes JSON; the decoder is the library's, written out
    here after [json.decoder] and [json.scanner] so that a cell can be
    decoded again. *)

Definition is_json_ws (c : ascii) : bool :=
  (Ascii.eqb c " " || Ascii.eqb c "009" || Ascii.eqb c "010" || Ascii.eqb c "013")%bool.

Definition skip_ws (s : string) : string := lstrip_with is_json_ws s.

Definition hex_value (c : ascii) : option N :=
  if is_digit c then Some (code c - 48)%N
  else if in_range 97 102 c then Some (code c - 87)%N
  else if in_range 65 70 c then Some (code c - 55)%N
  else None.

Definition hex4 (a b c d : ascii) : option N :=
  match hex_value a, hex_value b, hex_value c, hex_value d with
  | Some x, Some y, Some z, Some t => Some (((x * 16 + y) * 16 + z) * 16 + t)%N
  | _, _, _, _ => None
  end.

(** [chr(n)] as UTF-8 bytes. *)
Definition utf8_of_code (n : N) : string :=
  let byte x := ascii_of_N x in
  (if n <? 128 then String (byte n) ""
   else if n <? 2048 then
     String (byte (192 + n / 64)) (String (byte (128 + n mod 64)) "")
   else if n <? 65536 then
     String (byte (224 + n / 4096))
       (String (byte (128 + (n / 64) mod 64)) (String (byte (128 + n mod 64)) ""))
   else
     String (byte (240 + n / 262144))
       (String (byte (128 + (n / 4096) mod 64))
          (String (byte (128 + (n / 64) mod 64))
             (String (byte (128 + n mod 64)) ""))))%N.

(** The one-letter escapes of the decoder's [BACKSLASH] table. *)
Definition unescape (c : ascii) : option ascii :=
  if Ascii.eqb c DQUOTE then Some DQUOTE
  else if Ascii.eqb c BACKSLASH then Some BACKSLASH
  else if Ascii.eqb c "/" then Some "/"%char
  else if Ascii.eqb c "b" then Some "008"%char
  else if Ascii.eqb c "f" then Some "012"%char
  else if Ascii.eqb c "n" then Some "010"%char
  else if Ascii.eqb c "r" then Some "013"%char
  else if Ascii.eqb c "t" then Some "009"%char
  else None.

Definition prepend (chunk : string) (r : option (string * string))
  : option (string * string) :=
  match r with
  | Some (s, rest) => Some (chunk +:+ s, rest)
  | None => None
  end.

(** [scanstring]: the text after an opening quote, up to the closing one. *)
Fixpoint scanstring (s : string) : option (string * string) :=
  match s with
  | EmptyString => None
  | String c s1 =>
      if Ascii.eqb c DQUOTE then Some ("", s1)
      else if Ascii.eqb c BACKSLASH then
        match s1 with
        | EmptyString => None
        | String "u" (String h1 (String h2 (String h3 (String h4 s3)))) =>
            match hex4 h1 h2 h3 h4 with
            | None => None
            | Some uni =>
                if ((55296 <=? uni) && (uni <=? 56319))%N then
                  match s3 with
                  | String "\" (String "u" s4) =>
                      match s4 with
                      | String g1 (String g2 (String g3 (String g4 s5))) =>
                          match hex4 g1 g2 g3 g4 with
                          | None => None
                          | Some uni2 =>
                              if ((56320 <=? uni2) && (uni2 <=? 57343))%N
                              then prepend
                                     (utf8_of_code
                                        (65536 + ((uni - 55296) * 1024 + (uni2 - 56320)))%N)
                                     (scanstring s5)
                              else prepend (utf8_of_code uni) (scanstring s3)
                          end
                      | _ => None
                      end
                  | _ => prepend (utf8_of_code uni) (scanstring s3)
                  end
                else prepend (utf8_of_code uni) (scanstring s3)
            end
        | String "u" _ => None
        | String e s2 =>
            match unescape e with
            | Some ch => prepend (String ch "") (scanstring s2)
            | None => None
            end
        end
      else if (code c <? 32)%N then None
      else prepend (String c "") (scanstring s1)
  end.

Definition span_digits (s : string) : string * string :=
  span_until (fun c => negb (is_digit c)) s.

(** The groups of [NUMBER_RE], one function each: an optional minus sign,
    the integer part ([0], or a digit from 1 to 9 and the digits after it),
    the optional fraction (a dot and at least one digit) and the optional
    exponent ([e] or [E], an optional sign and at least one digit). *)
Definition take_sign (s : string) : string * string :=
  match s with
  | String c r => if Ascii.eqb c "-" then ("-", r) else ("", s)
  | EmptyString => ("", s)
  end.

Definition int_part (s : string) : option (string * string) :=
  match s with
  | EmptyString => None
  | String c r =>
      if Ascii.eqb c "0" then Some (String c "", r)
      else if is_digit c then
        let '(ds, r') := span_digits r in Some (String c ds, r')
      else None
  end.

Definition frac_part (s : string) : string * string :=
  match s with
  | String c r =>
      if Ascii.eqb c "." then
        match span_digits r with
        | (EmptyString, _) => ("", s)
        | (ds, r') => (String c ds, r')
        end
      else ("", s)
  | EmptyString => ("", s)
  end.

Definition exp_sign (s : string) : string * string :=
  match s with
  | String c r =>
      if (Ascii.eqb c "+" || Ascii.eqb c "-")%bool then (String c "", r) else ("", s)
  | EmptyString => ("", s)
  end.

Definition exp_part (s : string) : string * string :=
  match s with
  | String c r =>
      if (Ascii.eqb c "e" || Ascii.eqb c "E")%bool then
        let '(sg, r1) := exp_sign r in
        match span_digits r1 with
        | (EmptyString, _) => ("", s)
        | (ds, r2) => (String c (sg +:+ ds), r2)
        end
      else ("", s)
  | EmptyString => ("", s)
  end.

(** The three groups of [NUMBER_RE] and what follows the match. *)
Definition match_number (s : string) : option (string * string * string * string) :=
  let '(sign, s1) := take_sign s in
  match int_part s1 with
  | None => None
  | Some (int_text, s2) =>
      let '(frac, s3) := frac_part s2 in
      let '(exp, s4) := exp_part s3 in
      Some (sign +:+ int_text, frac, exp, s4)
  end.

(** [int(text)] on the integer group. *)
Definition int_of_text (t : string) : option Z :=
  option_map Z.of_int (NilZero.int_of_string t).

(** [match_number] and the conversion of the groups.  An integer literal
    is converted with [int].  A literal with a fraction or an exponent is
    carried as its text: that is the float the library builds when the
    literal is the [repr] of its double, as is every number that
    [json.dumps] writes; for another literal ([1.50], [2.5e3], [1E400])
    the library builds the double, whose [repr] differs from the literal,
    and the text kept here does not stand for it. *)
Definition scan_number (s : string) : option (pyval * string) :=
  match match_number s with
  | Some (integer, frac, exp, rest) =>
      match frac, exp with
      | EmptyString, EmptyString =>
          match int_of_text integer with
          | Some n => Some (PInt n, rest)
          | None => None
          end
      | _, _ => Some (PFloat (FFin (integer +:+ frac +:+ exp)), rest)
      end
  | None => None
  end.

(** [s[idx:idx+len(word)] == word], and the text after the word. *)
Fixpoint after_word (word s : string) : option string :=
  match word, s with
  | EmptyString, _ => Some s
  | String a word', String b s' => if Ascii.eqb a b then after_word word' s' else None
  | _, _ => None
  end.

(** [dict(pairs)]: a later pair with a key seen before replaces the value
    and keeps the place. *)
Fixpoint dict_set (k : string) (v : pyval) (d : list (string * pyval))
  : list (string * pyval) :=
  match d with
  | [] => [(k, v)]
  | (k', v') :: rest =>
      if String.eqb k' k then (k, v) :: rest else (k', v') :: dict_set k v rest
  end.

Definition dict_of_pairs (pairs : list (string * pyval)) : list (string * pyval) :=
  fold_left (fun d kv => dict_set (fst kv) (snd kv) d) pairs [].

(** The loop of [JSONArray], entered at the first value. *)
Fixpoint array_items (scan : string -> option (pyval * string)) (fuel : nat)
    (s : string) : option (list pyval * string) :=
  match fuel with
  | O => None
  | S fuel' =>
      match scan s with
      | None => None
      | Some (v, s1) =>
          match skip_ws s1 with
          | String "]" r => Some ([v], r)
          | String "," r =>
              match array_items scan fuel' (skip_ws r) with
              | Some (vs, r') => Some (v :: vs, r')
              | None => None
              end
          | _ => None
          end
      end
  end.

(** The loop of [JSONObject], entered after the opening quote of a key. *)
Fixpoint object_items (scan : string -> option (pyval * string)) (fuel : nat)
    (s : string) : option (list (string * pyval) * string) :=
  match fuel with
  | O => None
  | S fuel' =>
      match scanstring s with
      | None => None
      | Some (key, s1) =>
          match skip_ws s1 with
          | String ":" s2 =>
              match scan (skip_ws s2) with
              | None => None
              | Some (v, s3) =>
                  match skip_ws s3 with
                  | String "}" r => Some ([(key, v)], r)
                  | String "," r =>
                      match skip_ws r with
                      | String q r' =>
                          if Ascii.eqb q DQUOTE then
                            match object_items scan fuel' r' with
                            | Some (kvs, r'') => Some ((key, v) :: kvs, r'')
                            | None => None
                            end
                          else None
                      | EmptyString => None
                      end
                  | _ => None
                  end
              end
          | _ => None
          end
      end
  end.

(** [scan_once]: one JSON value at the head of [s]; one unit of fuel per
    level of nesting and per item of a loop. *)
Fixpoint scan_once (fuel : nat) (s : string) : option (pyval * string) :=
  match fuel with
  | O => None
  | S fuel' =>
      match s with
      | EmptyString => None
      | String c r =>
          if Ascii.eqb c DQUOTE then
            match scanstring r with
            | Some (t, rest) => Some (PStr t, rest)
            | None => None
            end
          else if Ascii.eqb c "{" then
            match skip_ws r with
            | String q r' =>
                if Ascii.eqb q "}" then Some (PDict [], r')
                else if Ascii.eqb q DQUOTE then
                  match object_items (scan_once fuel') fuel' r' with
                  | Some (pairs, rest) => Some (PDict (dict_of_pairs pairs), rest)
                  | None => None
                  end
                else None
            | EmptyString => None
            end
          else if Ascii.eqb c "[" then
            match skip_ws r with
            | String q r' =>
                if Ascii.eqb q "]" then Some (PList [], r')
                else
                  match array_items (scan_once fuel') fuel' (String q r') with
                  | Some (items, rest) => Some (PList items, rest)
                  | None => None
                  end
            | EmptyString => None
            end
          else
            match after_word "null" s, after_word "true" s, after_word "false" s with
            | Some rest, _, _ => Some (PNone, rest)
            | _, Some rest, _ => Some (PBool true, rest)
            | _, _, Some rest => Some (PBool false, rest)
            | None, None, None =>
                match scan_number s with
                | Some r => Some r
                | None =>
                    match after_word "NaN" s, after_word "Infinity" s,
                          after_word "-Infinity" s with
                    | Some rest, _, _ => Some (PFloat FNan, rest)
                    | _, Some rest, _ => Some (PFloat (FInf false), rest)
                    | _, _, Some rest => Some (PFloat (FInf true), rest)
                    | None, None, None => None
                    end
                end
            end
      end
  end.

(** [json.loads(s)]: leading blanks, one value, trailing blanks and nothing
    more.  A text of [n] characters nests and lists fewer than [n] times,
    so [n + 1] units of fuel never run out. *)
Definition json_loads (s : string) : option pyval :=
  match scan_once (S (String.length s)) (skip_ws s) with
  | Some (v, rest) =>
      match skip_ws rest with
      | EmptyString => Some v
      | _ => None
      end
  | None => None
  end.

Example json_loads_sample : json_loads (json_dumps sample_value) = Some sample_value.
Proof. vm_compute. reflexivity. Qed.

Example json_loads_blanks_and_escapes :
  json_loads (" [ 1 , -20, 0.5e-3, {" +:+ String DQUOTE "k" +:+ String DQUOTE " : "
              +:+ String DQUOTE "\u00e9\ud83d\ude00\/" +:+ String DQUOTE ""
              +:+ "} , Infinity ] ") =
  Some (PList [PInt 1; PInt (-20); PFloat (FFin "0.5e-3");
               PDict [("k", PStr (String "195" (String "169" (String "240"
                        (String "159" (String "152" (String "128" "/")))))))];
               PFloat (FInf false)]).
Proof. vm_compute. reflexivity. Qed.

Example json_loads_rejects :
  (json_loads "[1,]", json_loads "01", json_loads "{1: 2}", json_loads "nul")
  = (None, None, None, None).
Proof. vm_compute. reflexivity. Qed.

(** * Properties *)

(** ** Strings *)

Lemma app_cons (c : ascii) (s t : string) : String c s +:+ t = String c (s +:+ t).
Proof. reflexivity. Qed.

Lemma app_empty_l (s : string) : "" +:+ s = s.
Proof. reflexivity. Qed.

Lemma app_empty_r (s : string) : s +:+ "" = s.
Proof. induction s as [|c s IH]; [reflexivity|]. rewrite app_cons, IH. reflexivity. Qed.

Lemma app_assoc_str (s t u : string) : (s +:+ t) +:+ u = s +:+ (t +:+ u).
Proof.
  induction s as [|c s IH]; [reflexivity|].
  rewrite !app_cons, IH. reflexivity.
Qed.

Lemma string_forall_app p (s t : string) :
  string_forall p (s +:+ t) = (string_forall p s && string_forall p t)%bool.
Proof.
  induction s as [|c s IH]; [reflexivity|].
  rewrite app_cons. simpl. rewrite IH. apply andb_assoc.
Qed.

Lemma string_forall_get p (s : string) (n : nat) (c : ascii) :
  string_forall p s = true -> String.get n s = Some c -> p c = true.
Proof.
  revert n. induction s as [|x s IH]; intros n Hall Hget; [discriminate|].
  simpl in Hall. apply andb_prop in Hall as [Hx Hs].
  destruct n as [|n]; simpl in Hget.
  - injection Hget as <-. exact Hx.
  - eauto.
Qed.

Lemma string_forall_of_list p (l : list ascii) :
  Forall (fun c => p c = true) l -> string_forall p (string_of_list_ascii l) = true.
Proof.
  induction 1 as [|c l Hc _ IH]; [reflexivity|].
  simpl. rewrite Hc, IH. reflexivity.
Qed.

Lemma lstrip_with_none p (s : string) :
  string_forall (fun c => negb (p c)) s = true -> lstrip_with p s = s.
Proof.
  destruct s as [|c s]; [reflexivity|]. simpl.
  intros [Hc _]%andb_prop. apply negb_true_iff in Hc. rewrite Hc. reflexivity.
Qed.

Lemma rstrip_with_none p (s : string) :
  string_forall (fun c => negb (p c)) s = true -> rstrip_with p s = s.
Proof.
  induction s as [|c s IH]; [reflexivity|]. simpl.
  intros [Hc Hs]%andb_prop. apply negb_true_iff in Hc.
  rewrite (IH Hs). destruct s; [rewrite Hc|]; reflexivity.
Qed.

Lemma decode_encode (s : string) : decode_ascii (encode_utf8 s) = s.
Proof.
  unfold decode_ascii, encode_utf8. rewrite map_map.
  rewrite <- (string_of_list_ascii_of_string s) at 2. f_equal.
  rewrite <- (map_id (list_ascii_of_string s)) at 2.
  apply map_ext. intros c. unfold ascii_of_Z.
  rewrite N2Z.id. apply ascii_N_embedding.
Qed.

(** ** Signer *)

Lemma b64_char_not_space (i : Z) : negb (is_py_space (b64_char i)) = true.
Proof.
  unfold b64_char. destruct (String.get _ _) as [c|] eqn:Hget; [|reflexivity].
  eapply (string_forall_get (fun c => negb (is_py_space c))); [|exact Hget].
  vm_compute. reflexivity.
Qed.

Lemma b64_groups_not_space (fuel : nat) (b : bytes) :
  Forall (fun c => negb (is_py_space c) = true) (b64_groups fuel b).
Proof.
  revert b. induction fuel as [|fuel IH]; intros b.
  - destruct b as [|x [|y [|z r]]]; simpl;
      repeat (constructor; try apply b64_char_not_space).
  - destruct b as [|x [|y [|z r]]]; simpl;
      repeat (constructor; try apply b64_char_not_space). apply IH.
Qed.

(** The final [.strip()] of [compute_digest] changes nothing: Base64 text
    holds no blank. *)
Lemma strip_b64 (b : bytes) :
  strip (decode_ascii (b64encode b)) = decode_ascii (b64encode b).
Proof.
  unfold b64encode. rewrite decode_encode. unfold strip.
  pose proof (string_forall_of_list _ _ (b64_groups_not_space (length b) b)) as H.
  rewrite (lstrip_with_none _ _ H). apply rstrip_with_none, H.
Qed.

(** The header of a given name, as the server reads it. *)
Definition header (name : string) (hs : headers) : option string :=
  snd <$> find (fun kv => String.eqb (fst kv) name) hs.

(** C3. The digest is Base64(HMAC-SHA256(private key, METHOD, newline,
    CONTENT_TYPE, newline, DATE, newline, ENDPOINT)) with the fixed
    content type "application/json; charset=utf-8" whatever the method, and
    the Authorization header that [build_signed_headers] produces is
    "ApiAuth", a blank, the public key, a colon and that digest taken over
    the path of the URL and the date read from the clock. *)
Theorem signer_digest_and_authorization :
  forall (private_key public_key method date_str endpoint : string),
    compute_digest private_key method endpoint date_str CONTENT_TYPE =
      decode_ascii (b64encode (hmac_sha256 (encode_utf8 private_key)
        (encode_utf8 (method +:+ LF +:+ "application/json; charset=utf-8" +:+ LF
                      +:+ date_str +:+ LF +:+ endpoint))))
    /\ forall hit_fields types size out base full_url (w : world),
        let cfg := Config (Some public_key) (Some private_key)
                          hit_fields types size out base in
        exists hs w',
          build_signed_headers cfg (PStr full_url) method w = (Ok hs, w')
          /\ header "Content-Type" hs = Some "application/json; charset=utf-8"
          /\ header "Date" hs = Some (clock w (ticks w))
          /\ header "Authorization" hs =
               Some ("ApiAuth " +:+ public_key +:+ ":" +:+
                     compute_digest private_key method (url_path (urlparse full_url))
                       (clock w (ticks w)) CONTENT_TYPE).
Proof.
  intros private_key public_key method date_str endpoint. split.
  - unfold compute_digest. apply strip_b64.
  - intros hit_fields types size out base full_url w cfg.
    eexists _, _. split; [reflexivity|]. repeat split.
Qed.

(** ** The path that is signed *)

(** The text before the first [c], or the whole text. *)
Fixpoint before (c : ascii) (s : string) : string :=
  match s with
  | EmptyString => EmptyString
  | String x s' => if Ascii.eqb x c then EmptyString else String x (before c s')
  end.

Lemma split_or_all_before (c : ascii) (s : string) :
  fst (split_or_all c s) = before c s.
Proof.
  unfold split_or_all. induction s as [|x s IH]; [reflexivity|]. simpl.
  destruct (Ascii.eqb x c); [reflexivity|].
  destruct (split_first c s) as [[a b]|]; simpl in *; congruence.
Qed.

Lemma before_has_none (c : ascii) (s : string) : contains c (before c s) = false.
Proof.
  unfold contains. induction s as [|x s IH]; [reflexivity|]. simpl.
  destruct (Ascii.eqb x c) eqn:E; [reflexivity|]. simpl. rewrite E. exact IH.
Qed.

Lemma before_query_fragment (r q : string) :
  before "?" (before "#" (r +:+ String "?" q)) = before "?" (before "#" r).
Proof.
  induction r as [|x r IH]; [reflexivity|]. rewrite app_cons. simpl.
  destruct (Ascii.eqb x "#"); [reflexivity|]. simpl.
  destruct (Ascii.eqb x "?"); [reflexivity|]. rewrite IH. reflexivity.
Qed.

Lemma lstrip_with_app_stop p (s t : string) (c : ascii) :
  p c = false ->
  lstrip_with p (s +:+ String c t) = lstrip_with p s +:+ String c t.
Proof.
  intros Hc. induction s as [|x s IH].
  - simpl. rewrite app_empty_l. simpl. rewrite Hc. reflexivity.
  - rewrite app_cons. simpl. destruct (p x); [exact IH|reflexivity].
Qed.

Lemma string_filter_app p (s t : string) :
  string_filter p (s +:+ t) = string_filter p s +:+ string_filter p t.
Proof.
  induction s as [|x s IH]; [reflexivity|]. rewrite app_cons. simpl.
  destruct (p x); [rewrite app_cons|]; rewrite IH; reflexivity.
Qed.

Lemma split_first_app_some (c : ascii) (s x pre post : string) :
  split_first c s = Some (pre, post) ->
  split_first c (s +:+ x) = Some (pre, post +:+ x).
Proof.
  revert pre post. induction s as [|y s IH]; intros pre post; [discriminate|].
  rewrite app_cons. simpl. destruct (Ascii.eqb y c).
  - intros [= <- <-]. reflexivity.
  - destruct (split_first c s) as [[a b]|]; [|discriminate].
    intros [= <- <-]. rewrite (IH a b eq_refl). reflexivity.
Qed.

Lemma split_first_app_none (c d : ascii) (s x : string) :
  Ascii.eqb d c = false ->
  split_first c s = None ->
  split_first c (s +:+ String d x) = None
  \/ exists q1 q2, split_first c (s +:+ String d x) = Some (s +:+ String d q1, q2).
Proof.
  intros Hd. induction s as [|y s IH]; intros Hs.
  - rewrite app_empty_l. simpl. rewrite Hd.
    destruct (split_first c x) as [[a b]|]; [right; exists a, b|left]; reflexivity.
  - rewrite app_cons. simpl in *. destruct (Ascii.eqb y c); [discriminate|].
    destruct (split_first c s) as [[a b]|]; [discriminate|].
    destruct (IH eq_refl) as [->|(q1 & q2 & ->)]; [left|right; exists q1, q2];
      reflexivity.
Qed.

Lemma split_scheme_app_query (b q : string) :
  split_scheme (b +:+ String "?" q) =
  (fst (split_scheme b), snd (split_scheme b) +:+ String "?" q).
Proof.
  unfold split_scheme.
  destruct (split_first ":" b) as [[pre post]|] eqn:Hb.
  - rewrite (split_first_app_some _ _ _ _ _ Hb).
    destruct pre as [|c pre]; [reflexivity|].
    destruct (is_alpha c && string_forall is_scheme_char (String c pre))%bool;
      reflexivity.
  - destruct (split_first_app_none ":" "?" b q eq_refl Hb) as [->|(q1 & q2 & ->)];
      [reflexivity|].
    destruct b as [|c b]; [reflexivity|]. rewrite app_cons.
    rewrite <- app_cons, string_forall_app. simpl.
    rewrite !andb_false_r. reflexivity.
Qed.

Lemma span_until_app_stop stop (s t : string) (c : ascii) :
  stop c = true ->
  span_until stop (s +:+ String c t) =
  (fst (span_until stop s), snd (span_until stop s) +:+ String c t).
Proof.
  intros Hc. induction s as [|x s IH].
  - rewrite app_empty_l. simpl. rewrite Hc. reflexivity.
  - rewrite app_cons. simpl. destruct (stop x); [reflexivity|].
    rewrite IH. destruct (span_until stop s). reflexivity.
Qed.

Lemma split_netloc_app_query (r q : string) :
  split_netloc (r +:+ String "?" q) =
  (fst (split_netloc r), snd (split_netloc r) +:+ String "?" q).
Proof.
  unfold split_netloc. destruct r as [|a [|b r]].
  - rewrite app_empty_l. destruct q; reflexivity.
  - rewrite app_cons, app_empty_l. simpl.
    rewrite andb_false_r. reflexivity.
  - rewrite !app_cons. destruct (Ascii.eqb a "/" && Ascii.eqb b "/")%bool;
      [|reflexivity].
    apply span_until_app_stop. reflexivity.
Qed.

Lemma splitparams_prefix p (s : string) :
  string_forall p s = true -> string_forall p (fst (splitparams s)) = true.
Proof.
  induction s as [|c s IH]; [reflexivity|]. simpl. intros [Hc Hs]%andb_prop.
  destruct (Ascii.eqb c ";" && negb (contains "/" s))%bool; [reflexivity|].
  destruct (splitparams s) as [a b]. simpl in *. rewrite Hc. auto.
Qed.

(** The path of [urlparse] written with [before]. *)
Lemma url_path_unfold (url : string) :
  let u := string_filter (fun c => negb (is_unsafe_url_byte c))
             (lstrip_with is_c0_or_space url) in
  let core := before "?" (before "#" (snd (split_netloc (snd (split_scheme u))))) in
  url_path (urlparse url) =
  if (bool_decide (fst (split_scheme u) ∈ uses_params) && contains ";" core)%bool
  then fst (splitparams core) else core.
Proof.
  intros u core. unfold urlparse. fold u.
  destruct (split_scheme u) as [scheme u1]. simpl fst in *. simpl snd in *.
  destruct (split_netloc u1) as [netloc u2]. simpl snd in *.
  pose proof (split_or_all_before "#" u2) as Hf.
  destruct (split_or_all "#" u2) as [u3 fragment]. simpl in Hf.
  pose proof (split_or_all_before "?" u3) as Hq.
  destruct (split_or_all "?" u3) as [u4 query]. simpl in Hq.
  subst u4 u3. fold core.
  destruct (bool_decide (scheme ∈ uses_params) && contains ";" core)%bool;
    [destruct (splitparams core)|]; reflexivity.
Qed.

Lemma cleaned_url_app_query (base q : string) :
  string_filter (fun c => negb (is_unsafe_url_byte c))
    (lstrip_with is_c0_or_space (base +:+ String "?" q)) =
  string_filter (fun c => negb (is_unsafe_url_byte c))
    (lstrip_with is_c0_or_space base)
  +:+ String "?" (string_filter (fun c => negb (is_unsafe_url_byte c)) q).
Proof.
  rewrite lstrip_with_app_stop by reflexivity.
  rewrite string_filter_app. reflexivity.
Qed.

Lemma url_path_ignores_query (base q : string) :
  url_path (urlparse (base +:+ "?" +:+ q)) = url_path (urlparse base).
Proof.
  rewrite !url_path_unfold. cbv zeta.
  change ("?" +:+ q) with (String "?" q).
  rewrite cleaned_url_app_query.
  rewrite split_scheme_app_query. simpl fst. simpl snd.
  rewrite split_netloc_app_query. simpl snd.
  rewrite before_query_fragment. reflexivity.
Qed.

Lemma url_path_has_no_query (url : string) :
  contains "?" (url_path (urlparse url)) = false.
Proof.
  rewrite url_path_unfold. cbv zeta.
  set (core := before "?" _).
  assert (Hcore : contains "?" core = false) by apply before_has_none.
  destruct (_ && _)%bool; [|exact Hcore].
  unfold contains in *. apply negb_false_iff in Hcore. apply negb_false_iff.
  apply splitparams_prefix, Hcore.
Qed.

(** C4. The endpoint that is signed is the path of the URL: it never holds
    a question mark, a query string added to a URL leaves it unchanged, so
    two URLs that differ only in their query string are signed with the
    same headers at a given time, while the request that goes out keeps the
    whole URL, query string included. *)
Theorem signed_endpoint_excludes_query :
  (forall url, contains "?" (url_path (urlparse url)) = false)
  /\ (forall base q, url_path (urlparse (base +:+ "?" +:+ q)) = url_path (urlparse base))
  /\ (forall cfg base q1 q2 method w,
        fst (build_signed_headers cfg (PStr (base +:+ "?" +:+ q1)) method w) =
        fst (build_signed_headers cfg (PStr (base +:+ "?" +:+ q2)) method w))
  /\ (forall public_key private_key hit_fields types size out base url q w,
        let cfg := Config public_key (Some private_key) hit_fields types size out base in
        let full_url := url +:+ "?" +:+ q in
        exists hs,
          fst (build_signed_headers cfg (PStr full_url) "GET" w) = Ok hs
          /\ header "Authorization" hs =
               Some ("ApiAuth " +:+ format_key public_key +:+ ":" +:+
                     compute_digest private_key "GET" (url_path (urlparse url))
                       (clock w (ticks w)) CONTENT_TYPE)
          /\ sent (snd (request_json cfg (PStr full_url) w)) =
               sent w ++ [Request full_url hs]).
Proof.
  split; [exact url_path_has_no_query|].
  split; [exact url_path_ignores_query|]. split.
  - intros cfg base q1 q2 method w. unfold build_signed_headers, bind, now_date.
    rewrite !url_path_ignores_query. reflexivity.
  - intros public_key private_key hit_fields types size out base url q w cfg full_url.
    eexists. split; [reflexivity|]. split.
    + simpl. unfold full_url. rewrite url_path_ignores_query. reflexivity.
    + unfold request_json, bind, build_signed_headers, now_date, requests_get.
      simpl. destruct (net w) as [|resp rest]; simpl; [reflexivity|].
      unfold raise_for_status, response_json.
      destruct (_ && _)%bool; simpl; [reflexivity|].
      destruct (json_body resp); reflexivity.
Qed.

(** ** Paginator *)

(** The world after one request to [u] signed with [k] and answered. *)
Definition after_request (cfg : config) (k u : string) (w : world) : world :=
  let date_str := clock w (ticks w) in
  let hs :=
    [ ("Content-Type", CONTENT_TYPE);
      ("Date", date_str);
      ("Authorization",
       "ApiAuth " +:+ format_key (PUBLIC_KEY cfg) +:+ ":" +:+
       compute_digest k "GET" (url_path (urlparse u)) date_str CONTENT_TYPE);
      ("Accept-Encoding", "gzip, deflate") ] in
  World (clock w) (S (ticks w)) (tl (net w)) (sent w ++ [Request u hs]) (files w).

(** A status that [raise_for_status] lets through. *)
Definition status_ok (st : Z) : bool := negb ((400 <=? st) && (st <? 600)).

Lemma request_json_ok cfg k u w st txt data rest :
  PRIVATE_KEY cfg = Some k ->
  net w = Response st txt (Some data) :: rest ->
  status_ok st = true ->
  request_json cfg (PStr u) w = (Ok data, after_request cfg k u w).
Proof.
  intros Hk Hnet Hst.
  unfold request_json, bind, build_signed_headers, now_date, requests_get, bind.
  rewrite Hk. simpl. rewrite Hnet. simpl.
  unfold raise_for_status, response_json, status_ok in *. simpl.
  apply negb_true_iff in Hst. rewrite Hst. simpl.
  unfold after_request. rewrite Hnet. reflexivity.
Qed.

Lemma request_json_no_reply cfg k u w :
  PRIVATE_KEY cfg = Some k ->
  net w = [] ->
  request_json cfg (PStr u) w = (Raise ConnectionError, after_request cfg k u w).
Proof.
  intros Hk Hnet.
  unfold request_json, bind, build_signed_headers, now_date, requests_get, bind.
  rewrite Hk. simpl. rewrite Hnet. simpl.
  unfold after_request. rewrite Hnet. reflexivity.
Qed.

(** What one turn of the loop reads off a page: the objects to append and
    the next link. *)
Definition read_page (data : pyval) : outcome (list pyval * pyval) :=
  page_objects <-- page_objects_of data ;;
  _ <-- py_len page_objects ;;
  items <-- py_iter page_objects ;;
  next_link <-- find_next_link data ;;
  Ok (items, next_link).

Lemma fetch_pages_step cfg fuel url acc w data w1 :
  truthy url = true ->
  request_json cfg url w = (Ok data, w1) ->
  fetch_pages cfg (S fuel) url acc w =
  match read_page data with
  | Ok (items, next_link) =>
      if truthy next_link then fetch_pages cfg fuel next_link (acc ++ items) w1
      else (Ok (acc ++ items), w1)
  | Raise e => (Raise e, w1)
  | OutOfFuel => (OutOfFuel, w1)
  end.
Proof.
  intros Hurl Hreq. simpl. rewrite Hurl. unfold bind at 1. rewrite Hreq.
  unfold read_page, bind, lift, obind.
  destruct (page_objects_of data) as [po| |]; try reflexivity.
  destruct (py_len po); try reflexivity.
  destruct (py_iter po) as [items| |]; try reflexivity.
  destruct (find_next_link data) as [nl| |]; try reflexivity.
  destruct (truthy nl); reflexivity.
Qed.

Lemma fetch_pages_raise cfg fuel url acc w e w1 :
  truthy url = true ->
  request_json cfg url w = (Raise e, w1) ->
  fetch_pages cfg (S fuel) url acc w = (Raise e, w1).
Proof.
  intros Hurl Hreq. simpl. rewrite Hurl. unfold bind at 1. rewrite Hreq.
  reflexivity.
Qed.

(** Pages as the specification describes them. *)
Record link := Link { rel : string; href : string }.

Record page := Page {
  total : option Z;
  objects : list pyval;
  links : list link
}.

Definition encode_link (l : link) : pyval :=
  PDict [("rel", PStr (rel l)); ("href", PStr (href l))].

Definition encode_page (p : page) : pyval :=
  PDict [ ("total", match total p with Some n => PInt n | None => PNone end);
          ("objects", PList (objects p));
          ("links", PList (map encode_link (links p))) ].

(** A successful reply carrying the page. *)
Definition reply_of (p : page) : response :=
  Response 200 (json_dumps (encode_page p)) (Some (encode_page p)).

(** The [href] of the first link whose relation is [next]. *)
Definition next_href (p : page) : option string :=
  href <$> find (fun l => String.eqb (rel l) "next") (links p).

(** The page carries a next link: there is such an [href] and it is not
    empty. *)
Definition has_next (p : page) : bool :=
  match next_href p with
  | Some h => negb (String.eqb h "")
  | None => false
  end.

Definition next_url (p : page) : string := default "" (next_href p).

(** The pages whose next link is followed: those before the first page
    without one. *)
Fixpoint followed (pages : list page) : list page :=
  match pages with
  | [] => []
  | p :: rest => if has_next p then p :: followed rest else []
  end.

Lemma scan_links_encoded (ls : list link) :
  scan_links (map encode_link ls) =
  Ok (match find (fun l => String.eqb (rel l) "next") ls with
      | Some l => PStr (href l)
      | None => PNone
      end).
Proof.
  induction ls as [|l ls IH]; [reflexivity|]. simpl.
  destruct (String.eqb (rel l) "next"); [reflexivity|exact IH].
Qed.

Lemma read_page_encoded (p : page) :
  read_page (encode_page p) =
  Ok (objects p, match next_href p with Some h => PStr h | None => PNone end).
Proof.
  unfold read_page, page_objects_of, find_next_link, next_href. simpl.
  assert (Hlinks : py_iter (py_or (PList (map encode_link (links p))) (PList []))
                   = Ok (map encode_link (links p))).
  { destruct (links p); reflexivity. }
  rewrite Hlinks. simpl. rewrite scan_links_encoded.
  destruct (objects p) as [|o os]; simpl;
    destruct (find _ (links p)); reflexivity.
Qed.

Lemma truthy_next (p : page) :
  truthy (match next_href p with Some h => PStr h | None => PNone end) = has_next p.
Proof. unfold has_next. destruct (next_href p); reflexivity. Qed.

Lemma has_next_url (p : page) :
  has_next p = true -> next_href p = Some (next_url p) /\ next_url p <> "".
Proof.
  unfold has_next, next_url. destruct (next_href p) as [h|]; [|discriminate].
  intros Hh%negb_true_iff%String.eqb_neq. auto.
Qed.

(** The loop over a network that holds exactly the replies for [pages]. *)
Lemma fetch_pages_pages cfg k :
  PRIVATE_KEY cfg = Some k ->
  forall pages fuel u acc w,
    u <> "" ->
    net w = map reply_of pages ->
    (length pages < fuel)%nat ->
    let r := fetch_pages cfg fuel (PStr u) acc w in
    map req_url (sent (snd r)) =
      map req_url (sent w) ++ u :: map next_url (followed pages)
    /\ net (snd r) = drop (S (length (followed pages))) (net w)
    /\ fst r =
         match pages !! length (followed pages) with
         | Some _ => Ok (acc ++ concat (map objects (take (S (length (followed pages))) pages)))
         | None => Raise ConnectionError
         end.
Proof.
  intros Hk. induction pages as [|p pages IH]; intros fuel u acc w Hu Hnet Hfuel r.
  - destruct fuel as [|fuel]; [simpl in Hfuel; lia|]. subst r.
    assert (Htr : truthy (PStr u) = true).
    { simpl. apply String.eqb_neq in Hu. rewrite Hu. reflexivity. }
    rewrite (fetch_pages_raise cfg fuel (PStr u) acc w _ _ Htr
               (request_json_no_reply cfg k u w Hk Hnet)).
    simpl. rewrite Hnet, map_app. auto.
  - destruct fuel as [|fuel]; [simpl in Hfuel; lia|]. subst r.
    assert (Htr : truthy (PStr u) = true).
    { simpl. apply String.eqb_neq in Hu. rewrite Hu. reflexivity. }
    simpl in Hnet.
    rewrite (fetch_pages_step cfg fuel (PStr u) acc w (encode_page p)
               (after_request cfg k u w) Htr
               (request_json_ok cfg k u w _ _ _ _ Hk Hnet eq_refl)).
    rewrite read_page_encoded, truthy_next. simpl followed.
    destruct (has_next p) eqn:Hp.
    + destruct (has_next_url p Hp) as [Hh Hne]. rewrite Hh.
      assert (Hnet' : net (after_request cfg k u w) = map reply_of pages).
      { simpl. rewrite Hnet. reflexivity. }
      destruct (IH fuel (next_url p) (acc ++ objects p) (after_request cfg k u w)
                  Hne Hnet' ltac:(simpl in Hfuel; lia)) as (Hs & Hn & Hr).
      split; [|split].
      * rewrite Hs. simpl. rewrite map_app, <- app_assoc. reflexivity.
      * rewrite Hn. simpl. rewrite Hnet. reflexivity.
      * rewrite Hr. simpl. destruct (pages !! length (followed pages)); [|reflexivity].
        rewrite <- app_assoc. reflexivity.
    + simpl. split; [|split].
      * rewrite map_app. reflexivity.
      * rewrite Hnet. simpl. rewrite drop_0. reflexivity.
      * rewrite app_nil_r. reflexivity.
Qed.

Lemma first_page_url_not_empty (cfg : config) : build_first_page_url cfg <> "".
Proof.
  unfold build_first_page_url.
  set (params := _ ++ _ ++ _). intros H.
  assert (Hlen : forall s t : string, String.length (s +:+ t) =
                                      (String.length s + String.length t)%nat).
  { intros s t. induction s as [|c s IHs]; [reflexivity|].
    rewrite app_cons. simpl. rewrite IHs. reflexivity. }
  apply (f_equal String.length) in H. rewrite Hlen in H.
  destruct params; [|rewrite Hlen in H]; simpl in H; lia.
Qed.

Lemma followed_flags (pages pages' : list page) :
  map has_next pages = map has_next pages' ->
  length (followed pages) = length (followed pages').
Proof.
  revert pages'. induction pages as [|p pages IH]; intros [|p' pages'] H;
    try discriminate; [reflexivity|].
  simpl in *. injection H as Hp Hrest. rewrite <- Hp.
  destruct (has_next p); simpl; auto.
Qed.

Lemma stop_page_has_no_next (pages : list page) (last : page) :
  pages !! length (followed pages) = Some last -> has_next last = false.
Proof.
  induction pages as [|p pages IH]; [discriminate|]. simpl.
  destruct (has_next p) eqn:Hp; simpl; [exact IH|]. intros [= <-]. exact Hp.
Qed.

Lemma iterate_all_objects_pages cfg k pages w :
  PRIVATE_KEY cfg = Some k ->
  net w = map reply_of pages ->
  let r := iterate_all_objects cfg w in
  map req_url (sent (snd r)) =
    map req_url (sent w) ++ build_first_page_url cfg :: map next_url (followed pages)
  /\ net (snd r) = drop (S (length (followed pages))) (net w)
  /\ fst r =
       match pages !! length (followed pages) with
       | Some _ => Ok (concat (map objects (take (S (length (followed pages))) pages)))
       | None => Raise ConnectionError
       end.
Proof.
  intros Hk Hnet. unfold iterate_all_objects.
  apply (fetch_pages_pages cfg k Hk pages _ _ [] w
           (first_page_url_not_empty cfg) Hnet).
  rewrite Hnet, length_map. lia.
Qed.

Lemma requests_of_pages cfg k pages w :
  PRIVATE_KEY cfg = Some k ->
  net w = map reply_of pages ->
  length (sent (snd (iterate_all_objects cfg w))) =
  (length (sent w) + S (length (followed pages)))%nat.
Proof.
  intros Hk Hnet.
  destruct (iterate_all_objects_pages cfg k pages w Hk Hnet) as (Hs & _ & _).
  apply (f_equal length) in Hs.
  rewrite !length_map, length_app in Hs. simpl in Hs.
  rewrite !length_map in Hs. exact Hs.
Qed.

(** C1. Over a network that answers with the given pages, the paginator
    issues one request per page up to and including the first page without
    a next link and then stops: with [n] pages carrying a next link before
    it, exactly [n + 1] requests go out, to the first-page URL and then to
    the [href] of each of those pages in turn, and the loop returns.  The
    count depends on nothing but which pages carry a next link: pages with
    other [href]s, repeated or not, and other totals give the same count.
    Three pages with one and the same [href] followed by a page without a
    next link make exactly four requests, the last three to that [href]. *)
Theorem pagination_stops_without_next_link :
  forall cfg k pages w,
    PRIVATE_KEY cfg = Some k ->
    net w = map reply_of pages ->
    let r := iterate_all_objects cfg w in
    let n := length (followed pages) in
    length (sent (snd r)) = (length (sent w) + S n)%nat
    /\ map req_url (sent (snd r)) =
         map req_url (sent w) ++ build_first_page_url cfg :: map next_url (followed pages)
    /\ (forall last,
          pages !! n = Some last ->
          has_next last = false
          /\ fst r = Ok (concat (map objects (take (S n) pages)))
          /\ net (snd r) = map reply_of (drop (S n) pages))
    /\ (forall pages' w',
          net w' = map reply_of pages' ->
          map has_next pages' = map has_next pages ->
          length (sent (snd (iterate_all_objects cfg w'))) = (length (sent w') + S n)%nat)
    /\ (forall h t1 t2 t3 t4 o1 o2 o3 o4,
          h <> "" ->
          pages = [ Page t1 o1 [Link "next" h]; Page t2 o2 [Link "next" h];
                    Page t3 o3 [Link "next" h]; Page t4 o4 [] ] ->
          length (sent (snd r)) = (length (sent w) + 4)%nat
          /\ map req_url (sent (snd r)) =
               map req_url (sent w) ++ [build_first_page_url cfg; h; h; h]
          /\ fst r = Ok (o1 ++ o2 ++ o3 ++ o4)).
Proof.
  intros cfg k pages w Hk Hnet r n.
  destruct (iterate_all_objects_pages cfg k pages w Hk Hnet) as (Hs & Hn & Hr).
  fold r in Hs, Hn, Hr. fold n in Hs, Hn, Hr.
  pose proof (requests_of_pages cfg k pages w Hk Hnet) as Hcount.
  fold r in Hcount. fold n in Hcount.
  split; [exact Hcount|]. split; [exact Hs|]. split; [|split].
  - intros last Hlast. split; [exact (stop_page_has_no_next pages last Hlast)|].
    rewrite Hr, Hlast. split; [reflexivity|].
    rewrite Hn, Hnet. symmetry. apply (fmap_drop reply_of).
  - intros pages' w' Hnet' Hflags.
    rewrite (requests_of_pages cfg k pages' w' Hk Hnet').
    unfold n. rewrite (followed_flags _ _ Hflags). reflexivity.
  - intros h t1 t2 t3 t4 o1 o2 o3 o4 Hh Hpages.
    assert (Hnext : forall t o, has_next (Page t o [Link "next" h]) = true).
    { intros t o. unfold has_next. simpl.
      apply String.eqb_neq in Hh. rewrite Hh. reflexivity. }
    assert (Hf : followed pages =
                 [ Page t1 o1 [Link "next" h]; Page t2 o2 [Link "next" h];
                   Page t3 o3 [Link "next" h] ]).
    { rewrite Hpages. simpl. rewrite !Hnext. reflexivity. }
    unfold n in *. rewrite Hf in *. simpl in *.
    split; [exact Hcount|]. split; [exact Hs|].
    rewrite Hr, Hpages. simpl. rewrite app_nil_r. reflexivity.
Qed.

Definition sample_clock (n : nat) : string := "Wed, 04 Nov 2026 07:20:00 +0000".

Definition sample_config : config := script_config (Some "tracker") (Some "secret").

Definition sample_pages : list page :=
  [ Page (Some 3) [PDict [("url", PStr "a")]] [Link "next" "https://live.luigisbox.com/next"];
    Page (Some 3) [PDict [("url", PStr "b")]] [Link "next" "https://live.luigisbox.com/next"];
    Page (Some 3) [PDict [("url", PStr "c")]] [Link "next" "https://live.luigisbox.com/next"];
    Page None [] [] ].

Definition sample_world : world :=
  World sample_clock 0 (map reply_of sample_pages) [] ∅.

Lemma pagination_stops_without_next_link_witness :
  length (sent (snd (iterate_all_objects sample_config sample_world))) = 4%nat.
Proof.
  exact (proj1 (pagination_stops_without_next_link sample_config "secret"
                  sample_pages sample_world eq_refl eq_refl)).
Defined.

(** A link entry that the scan steps over: a dictionary whose [rel] is not
    ["next"]. *)
Definition is_other_link (link : pyval) : bool :=
  match link with
  | PDict d =>
      negb (equals_str (default PNone (lookup_key "rel" d)) "next")
  | _ => false
  end.

Lemma scan_links_other (skipped rest : list pyval) :
  forallb is_other_link skipped = true ->
  scan_links (skipped ++ rest) = scan_links rest.
Proof.
  induction skipped as [|l skipped IH]; [reflexivity|]. simpl.
  intros [Hl Hs]%andb_prop. destruct l as [| | | | | |d]; try discriminate.
  simpl in *. apply negb_true_iff in Hl. rewrite Hl. auto.
Qed.

Lemma scan_links_first_next (skipped after : list pyval) (d : list (string * pyval)) :
  forallb is_other_link skipped = true ->
  lookup_key "rel" d = Some (PStr "next") ->
  scan_links (skipped ++ PDict d :: after) =
  Ok (default PNone (lookup_key "href" d)).
Proof.
  intros Hs Hd. rewrite (scan_links_other _ _ Hs). simpl. rewrite Hd. reflexivity.
Qed.

(** The objects a page hands over, whatever its links. *)
Definition page_items (data : pyval) : outcome (list pyval) :=
  page_objects <-- page_objects_of data ;;
  _ <-- py_len page_objects ;;
  py_iter page_objects.

Lemma read_page_with_links (ls : list pyval) (d0 : list (string * pyval)) :
  read_page (PDict (("links", PList ls) :: d0)) =
  (items <-- page_items (PDict d0) ;;
   next_link <-- scan_links ls ;;
   Ok (items, next_link)).
Proof.
  unfold read_page, page_items, page_objects_of, find_next_link. simpl.
  set (po := py_or _ _).
  destruct (py_len po); try reflexivity. simpl.
  destruct (py_iter po); try reflexivity. simpl.
  destruct ls; reflexivity.
Qed.

(** The same world with other replies to come. *)
Definition with_net (w : world) (replies : list response) : world :=
  World (clock w) (ticks w) replies (sent w) (files w).

(** C9. In the [links] of a page, the entry that counts is the first one
    whose [rel] is ["next"], whatever comes after it.  When the [href] of
    that entry is absent, null or the empty string, the loop ends after
    this page with the same result and the same world as for the page whose
    [links] hold no next entry at all, and the replies still to come are not
    asked for.  When that [href] is a non-empty string the next request
    goes to it, even if a later entry with [rel] ["next"] names another. *)
Theorem falsy_href_ends_pagination :
  forall cfg k u fuel acc (w : world) st txt d0 skipped d after rest,
    PRIVATE_KEY cfg = Some k ->
    u <> "" ->
    status_ok st = true ->
    forallb is_other_link skipped = true ->
    lookup_key "rel" d = Some (PStr "next") ->
    let data := PDict (("links", PList (skipped ++ PDict d :: after)) :: d0) in
    let bare := PDict (("links", PList skipped) :: d0) in
    let run page :=
      fetch_pages cfg (S fuel) (PStr u) acc
        (with_net w (Response st txt (Some page) :: rest)) in
    find_next_link data =
      Ok (default PNone (lookup_key "href" d))
    /\ (lookup_key "href" d = None \/ lookup_key "href" d = Some PNone
        \/ lookup_key "href" d = Some (PStr "") ->
        run data = run bare
        /\ net (snd (run data)) = rest
        /\ length (sent (snd (run data))) = S (length (sent w)))
    /\ (forall h items,
          lookup_key "href" d = Some (PStr h) -> h <> "" ->
          page_items (PDict d0) = Ok items ->
          run data =
          fetch_pages cfg fuel (PStr h) (acc ++ items)
            (after_request cfg k u (with_net w (Response st txt (Some data) :: rest)))).
Proof.
  intros cfg k u fuel acc w st txt d0 skipped d after rest Hk Hu Hst Hsk Hrel
         data bare run.
  assert (Htr : truthy (PStr u) = true).
  { simpl. apply String.eqb_neq in Hu. rewrite Hu. reflexivity. }
  assert (Hrun : forall page,
            run page =
            match read_page page with
            | Ok (items, next_link) =>
                if truthy next_link
                then fetch_pages cfg fuel next_link (acc ++ items)
                       (after_request cfg k u (with_net w (Response st txt (Some page) :: rest)))
                else (Ok (acc ++ items),
                      after_request cfg k u (with_net w (Response st txt (Some page) :: rest)))
            | Raise e =>
                (Raise e, after_request cfg k u (with_net w (Response st txt (Some page) :: rest)))
            | OutOfFuel =>
                (OutOfFuel, after_request cfg k u (with_net w (Response st txt (Some page) :: rest)))
            end).
  { intros page. unfold run.
    apply (fetch_pages_step cfg fuel (PStr u) acc _ page _ Htr).
    apply (request_json_ok cfg k u
             (with_net w (Response st txt (Some page) :: rest))
             st txt page rest Hk eq_refl Hst). }
  assert (Hdata : read_page data =
                  (items <-- page_items (PDict d0) ;;
                   Ok (items, default PNone (lookup_key "href" d)))).
  { unfold data. rewrite read_page_with_links.
    rewrite (scan_links_first_next _ _ _ Hsk Hrel). reflexivity. }
  assert (Hbare : read_page bare =
                  (items <-- page_items (PDict d0) ;; Ok (items, PNone))).
  { unfold bare. rewrite read_page_with_links.
    rewrite <- (app_nil_r skipped), (scan_links_other _ _ Hsk). reflexivity. }
  split; [|split].
  - unfold find_next_link, data. simpl.
    assert (Hit : py_iter (py_or (PList (skipped ++ PDict d :: after)) (PList []))
                  = Ok (skipped ++ PDict d :: after)).
    { destruct skipped; reflexivity. }
    rewrite Hit. simpl. apply (scan_links_first_next _ _ _ Hsk Hrel).
  - intros Hfalsy.
    assert (Hf : truthy (default PNone (lookup_key "href" d)) = false).
    { destruct Hfalsy as [-> | [-> | ->]]; reflexivity. }
    rewrite !Hrun, Hdata, Hbare.
    destruct (page_items (PDict d0)) as [items| |]; simpl; try rewrite Hf;
      (split; [reflexivity|split; [reflexivity|]]);
      simpl; rewrite length_app; simpl; lia.
  - intros h items Hh Hne Hitems. rewrite Hrun, Hdata, Hitems, Hh. simpl.
    apply String.eqb_neq in Hne. rewrite Hne. reflexivity.
Qed.

Definition sample_stale_link : list (string * pyval) :=
  [("rel", PStr "next"); ("href", PStr "")].

Lemma falsy_href_ends_pagination_witness :
  find_next_link
    (PDict [("links", PList ([PDict [("rel", PStr "self")]]
                             ++ PDict sample_stale_link
                             :: [PDict [("rel", PStr "next"); ("href", PStr "https://x/y")]]));
            ("objects", PList [PInt 1])]) = Ok (PStr "").
Proof.
  exact (proj1 (falsy_href_ends_pagination sample_config "secret" "https://x/start"
                  0%nat [] sample_world 200 "" [("objects", PList [PInt 1])]
                  [PDict [("rel", PStr "self")]] sample_stale_link
                  [PDict [("rel", PStr "next"); ("href", PStr "https://x/y")]] []
                  eq_refl ltac:(discriminate) eq_refl eq_refl eq_refl)).
Defined.

(** ** Configuration check *)

(** The outcome is not the error the credential check raises. *)
Definition quiet {A} (o : outcome A) : Prop :=
  forall msg, o <> Raise (RuntimeError msg).

Definition quiet_run {A} (m : M A) : Prop := forall w, quiet (fst (m w)).

Lemma quiet_obind {A B} (o : outcome A) (k : A -> outcome B) :
  quiet o -> (forall a, quiet (k a)) -> quiet (obind o k).
Proof.
  intros Ho Hk. destruct o as [a|e|]; simpl; [apply Hk| |discriminate].
  intros msg [= ->]. exact (Ho msg eq_refl).
Qed.

Lemma quiet_bind {A B} (m : M A) (k : A -> M B) :
  quiet_run m -> (forall a, quiet_run (k a)) -> quiet_run (bind m k).
Proof.
  intros Hm Hk w. unfold bind. specialize (Hm w).
  destruct (m w) as [[a|e|] w']; simpl in *; [apply Hk| |discriminate].
  intros msg [= ->]. exact (Hm msg eq_refl).
Qed.

Lemma quiet_lift {A} (o : outcome A) : quiet o -> quiet_run (lift o).
Proof. intros H w. exact H. Qed.

Lemma quiet_ok {A} (a : A) : quiet (Ok a).
Proof. intros msg H. discriminate. Qed.

Lemma quiet_ret {A} (a : A) : quiet_run (ret a).
Proof. intros w. apply quiet_ok. Qed.

Lemma quiet_py_get v k d : quiet (py_get v k d).
Proof. destruct v; intros msg H; discriminate. Qed.

Lemma quiet_py_len v : quiet (py_len v).
Proof. destruct v; intros msg H; discriminate. Qed.

Lemma quiet_py_iter v : quiet (py_iter v).
Proof. destruct v; intros msg H; discriminate. Qed.

Lemma quiet_scan_links ls : quiet (scan_links ls).
Proof.
  induction ls as [|l ls IH]; [apply quiet_ok|]. simpl.
  apply quiet_obind; [apply quiet_py_get|]. intros rel.
  destruct (equals_str rel "next"); [apply quiet_py_get|exact IH].
Qed.

Lemma quiet_request_json cfg url : quiet_run (request_json cfg url).
Proof.
  unfold request_json. apply quiet_bind.
  - intros w. unfold build_signed_headers.
    destruct url; try (intros msg H; discriminate).
    unfold bind, now_date. destruct (PRIVATE_KEY cfg); intros msg H; discriminate.
  - intros hs. destruct url; try (intros w msg H; discriminate).
    apply quiet_bind.
    + intros w msg. unfold requests_get. destruct (net w); discriminate.
    + intros resp. apply quiet_bind.
      * intros w msg. unfold raise_for_status. destruct (_ && _)%bool; discriminate.
      * intros _ w msg. unfold response_json. destruct (json_body resp); discriminate.
Qed.

Lemma quiet_fetch_pages cfg fuel :
  forall url acc, quiet_run (fetch_pages cfg fuel url acc).
Proof.
  induction fuel as [|fuel IH]; intros url acc; simpl.
  - destruct (truthy url); intros w msg H; discriminate.
  - destruct (truthy url); [|apply quiet_ret].
    apply quiet_bind; [apply quiet_request_json|]. intros data.
    apply quiet_bind.
    { apply quiet_lift. unfold page_objects_of.
      apply quiet_obind; [apply quiet_py_get|]. intros x. apply quiet_ok. }
    intros po. apply quiet_bind; [apply quiet_lift, quiet_py_len|]. intros _.
    apply quiet_bind; [apply quiet_lift, quiet_py_iter|]. intros items.
    apply quiet_bind.
    { apply quiet_lift. unfold find_next_link.
      apply quiet_obind; [apply quiet_py_get|]. intros ls.
      apply quiet_obind; [apply quiet_py_iter|]. intros its.
      apply quiet_scan_links. }
    intros nl. destruct (negb (truthy nl)); [apply quiet_ret|apply IH].
Qed.

Lemma quiet_collect_keys objects : forall keys, quiet (collect_keys objects keys).
Proof.
  induction objects as [|o objects IH]; intros keys; [apply quiet_ok|]. simpl.
  apply quiet_obind; [|intros ks; apply IH].
  unfold attribute_keys_of. apply quiet_obind; [apply quiet_py_get|]. intros a.
  destruct (py_or a (PDict [])); intros msg H; discriminate.
Qed.

Lemma quiet_fill_attributes attrs keys : forall row, quiet (fill_attributes attrs keys row).
Proof.
  induction keys as [|k keys IH]; intros row; [apply quiet_ok|]. simpl.
  apply quiet_obind; [apply quiet_py_get|]. intros v. apply IH.
Qed.

Lemma quiet_emit_row attr_keys fieldnames obj : quiet (emit_row attr_keys fieldnames obj).
Proof.
  unfold emit_row. apply quiet_obind.
  - unfold build_row.
    repeat (apply quiet_obind;
            [first [apply quiet_py_get|apply quiet_fill_attributes]|]; intros ?).
    apply quiet_ok.
  - intros row. unfold dict_to_list.
    destruct (bool_decide _); intros msg H; discriminate.
Qed.

Lemma quiet_write_rows path attr_keys fieldnames objects :
  quiet_run (write_rows path attr_keys fieldnames objects).
Proof.
  induction objects as [|o objects IH]; [apply quiet_ret|]. simpl.
  apply quiet_bind; [apply quiet_lift, quiet_emit_row|]. intros cells.
  apply quiet_bind; [intros w msg H; discriminate|]. intros _. exact IH.
Qed.

Lemma quiet_write_objects_to_csv objects path :
  quiet_run (write_objects_to_csv objects path).
Proof.
  unfold write_objects_to_csv. apply quiet_bind.
  - apply quiet_lift. unfold collect_attribute_keys.
    apply quiet_obind; [apply quiet_collect_keys|]. intros ks. apply quiet_ok.
  - intros attr_keys.
    apply quiet_bind; [intros w msg H; discriminate|]. intros _.
    apply quiet_bind; [intros w msg H; discriminate|]. intros _.
    apply quiet_write_rows.
Qed.

Lemma startswith_placeholder (s : string) :
  startswith "<" s = true <-> exists s', s = String "<" s'.
Proof.
  unfold startswith. destruct s as [|c s]; cbn [String.prefix].
  - split; [discriminate|intros [s' H]; discriminate].
  - destruct (ascii_dec "<" c) as [Heq|Hne].
    + subst c. split; [intros _; exists s; reflexivity|intros _; destruct s; reflexivity].
    + split; [discriminate|intros [s' H]; injection H as H1 H2; congruence].
Qed.

(** C8. A key is refused when it is unset, empty or starts with "<" (a
    placeholder left in the configuration).  With a refused public or
    private key the export raises the configuration error (the script's
    RuntimeError asking to set the key) and leaves the world as it was: no
    request went out and no file was touched.  With both keys accepted the
    export is the paginator followed by the flattener, and neither of them
    ever raises that error: the check happens once, at the start, not for
    each page. *)
Theorem configuration_checked_once_before_network :
  (forall key,
     key_unset key = true <->
     key = None \/ key = Some "" \/ exists s, key = Some (String "<" s))
  /\ (forall cfg w,
        key_unset (PUBLIC_KEY cfg) = true \/ key_unset (PRIVATE_KEY cfg) = true ->
        exists msg, export_catalog cfg w = (Raise (RuntimeError msg), w))
  /\ (forall cfg w,
        key_unset (PUBLIC_KEY cfg) = false ->
        key_unset (PRIVATE_KEY cfg) = false ->
        export_catalog cfg w =
        (objects <- iterate_all_objects cfg ;;
         write_objects_to_csv objects (OUTPUT_CSV cfg)) w)
  /\ (forall cfg w msg,
        fst (iterate_all_objects cfg w) <> Raise (RuntimeError msg))
  /\ (forall objects path w msg,
        fst (write_objects_to_csv objects path w) <> Raise (RuntimeError msg)).
Proof.
  split; [|split; [|split; [|split]]].
  - intros [s|]; simpl.
    + split.
      * intros [H|H]%orb_prop.
        -- right. left. apply String.eqb_eq in H. congruence.
        -- right. right. apply startswith_placeholder in H as [s' ->]. eauto.
      * intros [H|[H|[s' H]]]; [discriminate| |]; injection H as ->; [reflexivity|].
        apply orb_true_intro. right. apply startswith_placeholder. eauto.
    + split; [intros _; left; reflexivity|reflexivity].
  - intros cfg w H. unfold export_catalog.
    destruct (key_unset (PUBLIC_KEY cfg)); [eexists; reflexivity|].
    destruct H as [H|H]; [discriminate|]. rewrite H. eexists; reflexivity.
  - intros cfg w Hpub Hpriv. unfold export_catalog. rewrite Hpub, Hpriv. reflexivity.
  - intros cfg w msg. unfold iterate_all_objects. apply quiet_fetch_pages.
  - intros objects path w msg. apply quiet_write_objects_to_csv.
Qed.

Definition placeholder_config : config :=
  script_config (Some "<your tracker id>") (Some "secret").

Lemma configuration_checked_once_before_network_witness :
  exists msg,
    export_catalog placeholder_config sample_world = (Raise (RuntimeError msg), sample_world).
Proof.
  exact (proj1 (proj2 configuration_checked_once_before_network)
           placeholder_config sample_world (or_introl eq_refl)).
Defined.

(** ** Flattener *)

(** The attribute bag of an object held as a dictionary:
    [obj.get("attributes") or {}]. *)
Definition attrs_of (d : list (string * pyval)) : pyval :=
  py_or (default PNone (lookup_key "attributes" d)) (PDict []).

(** The object can be flattened: it is a dictionary and its attribute bag,
    when it has one that is not empty, is a dictionary too. *)
Definition flattens (obj : pyval) : bool :=
  match obj with
  | PDict d => match attrs_of d with PDict _ => true | _ => false end
  | _ => false
  end.

(** The attribute keys of an object that can be flattened. *)
Definition keys_of (obj : pyval) : list string :=
  match obj with
  | PDict d => match attrs_of d with PDict a => map fst a | _ => [] end
  | _ => []
  end.

(** What the loop over the attribute keys stores for a value. *)
Definition shown (value : pyval) : pyval :=
  if is_compound value then PStr (json_dumps value) else value.

Definition fill_pure (a : list (string * pyval)) (keys : list string)
    (row : gmap string pyval) : gmap string pyval :=
  foldl (fun row k => <[k := shown (default PNone (lookup_key k a))]> row) row keys.

(** The row built for the dictionary [d] with attribute bag [a]. *)
Definition row_of (keys fieldnames : list string) (d a : list (string * pyval))
  : gmap string pyval :=
  <["nested" := PStr (json_dumps (default (PList []) (lookup_key "nested" d)))]>
    (fill_pure a keys
       (<["exact" := default (PStr "") (lookup_key "exact" d)]>
          (<["type" := default (PStr "") (lookup_key "type" d)]>
             (<["url" := default (PStr "") (lookup_key "url" d)]>
                (blank_row fieldnames))))).

Lemma attribute_keys_of_flattens (obj : pyval) :
  attribute_keys_of obj = if flattens obj then Ok (keys_of obj) else Raise AttributeError.
Proof.
  destruct obj as [| | | | | |d]; try reflexivity.
  unfold attribute_keys_of, flattens, keys_of, attrs_of. simpl.
  destruct (py_or _ _); reflexivity.
Qed.

Lemma collect_keys_flattens (objects : list pyval) (keys : gset string) :
  forallb flattens objects = true ->
  collect_keys objects keys = Ok (keys ∪ list_to_set (concat (map keys_of objects))).
Proof.
  revert keys. induction objects as [|o objects IH]; intros keys.
  - intros _. simpl. f_equal. set_solver.
  - simpl. intros [Ho Hs]%andb_prop. rewrite attribute_keys_of_flattens, Ho. simpl.
    rewrite (IH _ Hs). f_equal. set_solver.
Qed.

Lemma collect_keys_fails (objects : list pyval) (keys : gset string) :
  forallb flattens objects = false ->
  collect_keys objects keys = Raise AttributeError.
Proof.
  revert keys. induction objects as [|o objects IH]; intros keys; [discriminate|].
  simpl. rewrite attribute_keys_of_flattens.
  destruct (flattens o); simpl; [apply IH|reflexivity].
Qed.

(** The column names between the fixed ones. *)
Definition attr_columns (objects : list pyval) : list string :=
  sorted (list_to_set (concat (map keys_of objects))).

Lemma collect_attribute_keys_flattens (objects : list pyval) :
  collect_attribute_keys objects =
  if forallb flattens objects then Ok (attr_columns objects) else Raise AttributeError.
Proof.
  unfold collect_attribute_keys, attr_columns.
  destruct (forallb flattens objects) eqn:H.
  - rewrite (collect_keys_flattens _ _ H). simpl. do 2 f_equal. set_solver.
  - rewrite (collect_keys_fails _ _ H). reflexivity.
Qed.

Lemma sorted_elem_of (keys : gset string) (k : string) : k ∈ sorted keys <-> k ∈ keys.
Proof.
  unfold sorted. rewrite merge_sort_Permutation. apply elem_of_elements.
Qed.

Lemma sorted_NoDup (keys : gset string) : NoDup (sorted keys).
Proof.
  unfold sorted. rewrite merge_sort_Permutation. apply NoDup_elements.
Qed.

Lemma sorted_StronglySorted (keys : gset string) :
  StronglySorted String.le (sorted keys).
Proof. apply StronglySorted_merge_sort; apply _. Qed.

(** A sorted list without repetition is fixed by its members. *)
Lemma sorted_unique (l1 l2 : list string) :
  StronglySorted String.le l1 -> StronglySorted String.le l2 ->
  NoDup l1 -> NoDup l2 ->
  (forall k, k ∈ l1 <-> k ∈ l2) ->
  l1 = l2.
Proof.
  intros H1 H2 N1 N2 Hmem. apply (StronglySorted_unique String.le); try assumption.
  apply NoDup_Permutation; assumption.
Qed.

Lemma attr_columns_elem_of (objects : list pyval) (k : string) :
  k ∈ attr_columns objects <-> exists obj, obj ∈ objects /\ k ∈ keys_of obj.
Proof.
  unfold attr_columns. rewrite sorted_elem_of, elem_of_list_to_set.
  rewrite list_elem_of_In, in_concat. split.
  - intros (l & Hl & Hk). apply in_map_iff in Hl as (obj & <- & Hobj).
    exists obj. rewrite !list_elem_of_In. auto.
  - intros (obj & Hobj & Hk). exists (keys_of obj).
    rewrite in_map_iff, <- list_elem_of_In. split; [|exact Hk].
    exists obj. rewrite <- list_elem_of_In. auto.
Qed.

Lemma blank_row_lookup (fieldnames : list string) (k : string) :
  blank_row fieldnames !! k =
  if bool_decide (k ∈ fieldnames) then Some (PStr "") else None.
Proof.
  unfold blank_row. induction fieldnames as [|f fs IH]; simpl.
  - rewrite lookup_empty. reflexivity.
  - rewrite lookup_insert. destruct (decide (f = k)) as [->|Hne].
    + rewrite bool_decide_true by set_solver. reflexivity.
    + rewrite IH. apply (f_equal (fun b : bool => if b then _ else _)).
      apply bool_decide_ext. set_solver.
Qed.

Lemma fill_pure_lookup a (keys : list string) (row : gmap string pyval) (k : string) :
  fill_pure a keys row !! k =
  if bool_decide (k ∈ keys) then Some (shown (default PNone (lookup_key k a)))
  else row !! k.
Proof.
  unfold fill_pure. revert row. induction keys as [|x keys IH]; intros row; simpl.
  - reflexivity.
  - rewrite IH. destruct (bool_decide (k ∈ keys)) eqn:Hk.
    + apply bool_decide_eq_true in Hk.
      rewrite bool_decide_true by set_solver. reflexivity.
    + apply bool_decide_eq_false in Hk. rewrite lookup_insert.
      destruct (decide (x = k)) as [->|Hne].
      * rewrite bool_decide_true by set_solver. reflexivity.
      * rewrite bool_decide_false by set_solver. reflexivity.
Qed.

Lemma fill_attributes_pure a (keys : list string) (row : gmap string pyval) :
  fill_attributes (PDict a) keys row = Ok (fill_pure a keys row).
Proof.
  revert row. induction keys as [|x keys IH]; intros row; [reflexivity|].
  simpl. rewrite IH. reflexivity.
Qed.

Lemma build_row_dict keys fieldnames d a :
  attrs_of d = PDict a ->
  build_row keys fieldnames (PDict d) = Ok (row_of keys fieldnames d a).
Proof.
  intros Ha. unfold build_row. simpl. fold (attrs_of d). rewrite Ha.
  rewrite fill_attributes_pure. reflexivity.
Qed.

(** The value the row holds under a column name. *)
Definition row_value (keys : list string) (d a : list (string * pyval)) (k : string)
  : pyval :=
  if bool_decide (k = "nested")
  then PStr (json_dumps (default (PList []) (lookup_key "nested" d)))
  else if bool_decide (k ∈ keys) then shown (default PNone (lookup_key k a))
  else if bool_decide (k = "exact") then default (PStr "") (lookup_key "exact" d)
  else if bool_decide (k = "type") then default (PStr "") (lookup_key "type" d)
  else if bool_decide (k = "url") then default (PStr "") (lookup_key "url" d)
  else PStr "".

Lemma row_of_lookup keys d a (k : string) :
  row_of keys (fieldnames_of keys) d a !! k =
  if bool_decide (k ∈ fieldnames_of keys) then Some (row_value keys d a k) else None.
Proof.
  unfold row_of, row_value, fieldnames_of.
  rewrite lookup_insert. destruct (decide ("nested" = k)) as [<-|Hn].
  { rewrite bool_decide_true by set_solver. reflexivity. }
  rewrite (bool_decide_false (k = "nested")) by congruence.
  rewrite fill_pure_lookup. destruct (bool_decide (k ∈ keys)) eqn:Hk.
  { apply bool_decide_eq_true in Hk.
    rewrite bool_decide_true by set_solver. reflexivity. }
  apply bool_decide_eq_false in Hk.
  rewrite !lookup_insert.
  destruct (decide ("exact" = k)) as [<-|He].
  { rewrite bool_decide_true by set_solver. reflexivity. }
  rewrite (bool_decide_false (k = "exact")) by congruence.
  destruct (decide ("type" = k)) as [<-|Ht].
  { rewrite bool_decide_true by set_solver. reflexivity. }
  rewrite (bool_decide_false (k = "type")) by congruence.
  destruct (decide ("url" = k)) as [<-|Hu].
  { rewrite bool_decide_true by set_solver. reflexivity. }
  rewrite (bool_decide_false (k = "url")) by congruence.
  rewrite blank_row_lookup.
  destruct (bool_decide _); reflexivity.
Qed.

Lemma row_of_dom keys d a :
  dom (row_of keys (fieldnames_of keys) d a) = list_to_set (fieldnames_of keys).
Proof.
  apply set_eq. intros k. rewrite elem_of_dom, row_of_lookup, elem_of_list_to_set.
  destruct (bool_decide (k ∈ fieldnames_of keys)) eqn:Hk.
  - apply bool_decide_eq_true in Hk. split; [auto|eauto].
  - apply bool_decide_eq_false in Hk. split; [intros [x Hx]; discriminate|tauto].
Qed.

(** The cells of the row of a dictionary, one per column. *)
Definition cells_of (keys : list string) (d a : list (string * pyval)) : list cell :=
  map (fun k => csv_field (row_value keys d a k)) (fieldnames_of keys).

Lemma emit_row_dict keys d a :
  attrs_of d = PDict a ->
  emit_row keys (fieldnames_of keys) (PDict d) = Ok (cells_of keys d a).
Proof.
  intros Ha. unfold emit_row. rewrite (build_row_dict _ _ _ _ Ha). simpl.
  unfold dict_to_list. rewrite bool_decide_true by (rewrite row_of_dom; set_solver).
  unfold cells_of. f_equal. apply map_ext_in. intros k Hk.
  rewrite row_of_lookup, bool_decide_true by (apply list_elem_of_In, Hk).
  reflexivity.
Qed.

(** The cells written for an object that can be flattened. *)
Definition cells_for (keys : list string) (obj : pyval) : list cell :=
  match obj with
  | PDict d => match attrs_of d with PDict a => cells_of keys d a | _ => [] end
  | _ => []
  end.

Lemma emit_row_flattens keys obj :
  flattens obj = true ->
  emit_row keys (fieldnames_of keys) obj = Ok (cells_for keys obj).
Proof.
  destruct obj as [| | | | | |d]; try discriminate. simpl.
  destruct (attrs_of d) as [| | | | | |a] eqn:Ha; try discriminate.
  intros _. apply (emit_row_dict _ _ _ Ha).
Qed.

(** The same world with the rows of one file replaced. *)
Definition with_file (w : world) (path : string) (rows : list (list cell)) : world :=
  World (clock w) (ticks w) (net w) (sent w) (<[path := rows]> (files w)).

Lemma write_rows_flattens path keys objects :
  forallb flattens objects = true ->
  forall w rows,
    files w !! path = Some rows ->
    write_rows path keys (fieldnames_of keys) objects w =
    (Ok tt, with_file w path (rows ++ map (cells_for keys) objects)).
Proof.
  induction objects as [|o objects IH]; intros Hall w rows Hrows.
  - simpl. unfold ret, with_file. rewrite app_nil_r, insert_id by exact Hrows.
    destruct w; reflexivity.
  - simpl in Hall. apply andb_prop in Hall as [Ho Hs]. simpl.
    unfold bind at 1. unfold lift. rewrite (emit_row_flattens _ _ Ho).
    unfold bind at 1. unfold append_row at 1. rewrite Hrows. simpl.
    erewrite IH; [|exact Hs|simpl; apply lookup_insert_eq].
    unfold with_file. simpl. rewrite insert_insert_eq, <- app_assoc. reflexivity.
Qed.

Lemma write_objects_flattens objects path w :
  forallb flattens objects = true ->
  write_objects_to_csv objects path w =
  (Ok tt, with_file w path
            (map Field (fieldnames_of (attr_columns objects))
               :: map (cells_for (attr_columns objects)) objects)).
Proof.
  intros Hall. unfold write_objects_to_csv, bind at 1, lift.
  rewrite collect_attribute_keys_flattens, Hall.
  unfold bind at 1, open_write at 1. unfold bind at 1, append_row at 1. simpl.
  rewrite lookup_insert_eq. simpl.
  erewrite write_rows_flattens; [|exact Hall|simpl; apply lookup_insert_eq].
  unfold with_file. simpl. rewrite !insert_insert_eq. reflexivity.
Qed.

Lemma write_objects_fails objects path w :
  forallb flattens objects = false ->
  write_objects_to_csv objects path w = (Raise AttributeError, w).
Proof.
  intros Hall. unfold write_objects_to_csv, bind at 1, lift.
  rewrite collect_attribute_keys_flattens, Hall. reflexivity.
Qed.

(** C5. The objects the paginator returns are the objects of the fetched
    pages put end to end, page after page and in the order they have on
    each page, nothing removed: as many as the pages hold together.  The
    flattener writes the header and then one row for each object it is
    given, the i-th row being the cells of the i-th object; when an object
    cannot be flattened it raises before anything is written.  An export
    over these pages therefore leaves in the output file the header and
    one row per fetched object, in fetch order. *)
Theorem objects_concatenated_and_rows_in_order :
  forall cfg k pages (w : world) last,
    PRIVATE_KEY cfg = Some k ->
    key_unset (PUBLIC_KEY cfg) = false ->
    key_unset (PRIVATE_KEY cfg) = false ->
    net w = map reply_of pages ->
    pages !! length (followed pages) = Some last ->
    let fetched := take (S (length (followed pages))) pages in
    let objs := concat (map objects fetched) in
    fst (iterate_all_objects cfg w) = Ok objs
    /\ length objs = sum_list (map (fun p => length (objects p)) fetched)
    /\ (forall objects path w0,
          forallb flattens objects = true ->
          let keys := attr_columns objects in
          let rows := map (cells_for keys) objects in
          write_objects_to_csv objects path w0 =
            (Ok tt, with_file w0 path (map Field (fieldnames_of keys) :: rows))
          /\ length rows = length objects
          /\ forall i obj, objects !! i = Some obj -> rows !! i = Some (cells_for keys obj))
    /\ (forall objects path w0,
          forallb flattens objects = false ->
          write_objects_to_csv objects path w0 = (Raise AttributeError, w0))
    /\ (forallb flattens objs = true ->
        let keys := attr_columns objs in
        fst (export_catalog cfg w) = Ok tt
        /\ files (snd (export_catalog cfg w)) !! OUTPUT_CSV cfg =
             Some (map Field (fieldnames_of keys) :: map (cells_for keys) objs)).
Proof.
  intros cfg k pages w last Hk Hpub Hpriv Hnet Hlast fetched objs.
  destruct (iterate_all_objects_pages cfg k pages w Hk Hnet) as (_ & _ & Hr).
  rewrite Hlast in Hr. fold fetched in Hr. fold objs in Hr.
  split; [exact Hr|]. split; [|split; [|split]].
  - unfold objs. clear. induction fetched as [|p ps IH]; [reflexivity|].
    simpl. rewrite length_app, IH. reflexivity.
  - intros objects path w0 Hall keys rows. split; [|split].
    + apply write_objects_flattens, Hall.
    + unfold rows. apply length_map.
    + intros i obj Hi. unfold rows. rewrite list_lookup_fmap, Hi. reflexivity.
  - intros objects path w0 Hall. apply write_objects_fails, Hall.
  - intros Hall keys. unfold export_catalog. rewrite Hpub, Hpriv.
    unfold bind. destruct (iterate_all_objects cfg w) as [o w1]. simpl in Hr.
    subst o. rewrite (write_objects_flattens _ _ _ Hall). simpl.
    split; [reflexivity|]. apply lookup_insert_eq.
Qed.

Lemma objects_concatenated_and_rows_in_order_witness :
  fst (iterate_all_objects sample_config sample_world) =
  Ok [PDict [("url", PStr "a")]; PDict [("url", PStr "b")]; PDict [("url", PStr "c")]].
Proof.
  exact (proj1 (objects_concatenated_and_rows_in_order sample_config "secret"
                  sample_pages sample_world (Page None [] [])
                  eq_refl eq_refl eq_refl eq_refl eq_refl)).
Defined.

Lemma lookup_key_None (k : string) (a : list (string * pyval)) :
  k ∉ map fst a -> lookup_key k a = None.
Proof.
  induction a as [|[k' v] a IH]; [reflexivity|]. simpl. intros Hk.
  destruct (String.eqb_spec k' k) as [->|Hne]; [set_solver|].
  apply IH. set_solver.
Qed.

Lemma lookup_key_Some (k : string) (a : list (string * pyval)) (v : pyval) :
  lookup_key k a = Some v -> k ∈ map fst a.
Proof.
  induction a as [|[k' x] a IH]; [discriminate|]. simpl.
  destruct (String.eqb_spec k' k) as [->|Hne]; [set_solver|].
  intros H. specialize (IH H). set_solver.
Qed.

Lemma cells_of_lookup keys d a (i : nat) (k : string) :
  fieldnames_of keys !! i = Some k ->
  cells_of keys d a !! i = Some (csv_field (row_value keys d a k)).
Proof.
  intros Hi. unfold cells_of.
  change (map ?f ?l) with (f <$> l). rewrite list_lookup_fmap, Hi. reflexivity.
Qed.

Lemma attr_column_position (keys : list string) (j : nat) :
  fieldnames_of keys !! (3 + j)%nat = (keys ++ ["nested"]) !! j.
Proof. reflexivity. Qed.

Lemma attr_column_name (keys : list string) (j : nat) (k : string) :
  keys !! j = Some k -> fieldnames_of keys !! (3 + j)%nat = Some k.
Proof.
  intros Hj. rewrite attr_column_position. apply lookup_app_l_Some, Hj.
Qed.

(** The cell of an attribute column for an object without that attribute. *)
Lemma missing_attribute_cell keys d a (j : nat) (k : string) :
  keys !! j = Some k ->
  k ∉ map fst a ->
  k <> "nested" ->
  cells_of keys d a !! (3 + j)%nat = Some (Field "").
Proof.
  intros Hj Hk Hn. rewrite (cells_of_lookup _ _ _ _ k (attr_column_name _ _ _ Hj)).
  unfold row_value. rewrite bool_decide_false by exact Hn.
  rewrite bool_decide_true by (eapply list_elem_of_lookup_2, Hj).
  rewrite (lookup_key_None _ _ Hk). reflexivity.
Qed.

(** X19. For objects that can be flattened, the file holds the header and
    one row per object, and every row has as many cells as the header has
    columns.  The columns are url, type, exact, then the attribute keys
    seen on any object, each once, in increasing lexicographic order, then
    nested; the attribute columns depend on the set of keys only, not on
    which object brought a key or in what order.  An object without a given
    attribute key gets the empty cell in that column; the one column left
    aside here is an attribute column called "nested", where the row loop
    goes wrong: the code is evaluated there further down. *)
Theorem columns_fixed_and_sorted :
  forall objects path (w : world),
    forallb flattens objects = true ->
    let keys := attr_columns objects in
    let fieldnames := fieldnames_of keys in
    let rows := map (cells_for keys) objects in
    write_objects_to_csv objects path w =
      (Ok tt, with_file w path (map Field fieldnames :: rows))
    /\ fieldnames = ["url"; "type"; "exact"] ++ keys ++ ["nested"]
    /\ StronglySorted String.le keys
    /\ NoDup keys
    /\ (forall k, k ∈ keys <-> exists obj, obj ∈ objects /\ k ∈ keys_of obj)
    /\ Forall (fun cells => length cells = length fieldnames) rows
    /\ (forall others,
          (forall k, (exists obj, obj ∈ others /\ k ∈ keys_of obj)
                     <-> (exists obj, obj ∈ objects /\ k ∈ keys_of obj)) ->
          attr_columns others = keys)
    /\ (forall i obj j k,
          objects !! i = Some obj ->
          keys !! j = Some k ->
          k ∉ keys_of obj ->
          k <> "nested" ->
          exists cells, rows !! i = Some cells /\ cells !! (3 + j)%nat = Some (Field "")).
Proof.
  intros objects path w Hall keys fieldnames rows.
  split; [apply write_objects_flattens, Hall|].
  split; [reflexivity|].
  split; [apply sorted_StronglySorted|].
  split; [apply sorted_NoDup|].
  split; [apply attr_columns_elem_of|].
  split; [|split].
  - unfold rows. apply Forall_forall. intros cells Hc.
    apply list_elem_of_fmap in Hc as (obj & -> & Hobj).
    rewrite forallb_forall in Hall.
    specialize (Hall obj (proj1 (list_elem_of_In _ _) Hobj)).
    destruct obj as [| | | | | |d]; try discriminate. simpl in *.
    destruct (attrs_of d); try discriminate.
    unfold cells_of. rewrite length_map. reflexivity.
  - intros others Hsame. apply sorted_unique;
      try apply sorted_StronglySorted; try apply sorted_NoDup.
    intros k. unfold keys. rewrite !attr_columns_elem_of. apply Hsame.
  - intros i obj j k Hi Hj Hk Hn. exists (cells_for keys obj). split.
    + unfold rows. change (map ?f ?l) with (f <$> l).
      rewrite list_lookup_fmap, Hi. reflexivity.
    + rewrite forallb_forall in Hall.
      specialize (Hall obj (proj1 (list_elem_of_In _ _)
                                   (list_elem_of_lookup_2 _ _ _ Hi))).
      destruct obj as [| | | | | |d]; try discriminate. simpl in *.
      destruct (attrs_of d) as [| | | | | |a]; try discriminate.
      apply (missing_attribute_cell _ _ _ _ k Hj Hk Hn).
Qed.

(** Two objects as in the specification's example: A has the keys x and
    y, B has y and z. *)
Definition object_a : pyval :=
  PDict [("url", PStr "/a"); ("type", PStr "item"); ("exact", PBool true);
         ("attributes", PDict [("y", PStr "1"); ("x", PList [PInt 1; PInt 2])])].

Definition object_b : pyval :=
  PDict [("url", PStr "/b"); ("type", PStr "item");
         ("attributes", PDict [("z", PInt 3); ("y", PNone)])].

Example attr_columns_a_b : attr_columns [object_a; object_b] = ["x"; "y"; "z"].
Proof. vm_compute. reflexivity. Qed.

Example rows_a_b :
  map (cells_for ["x"; "y"; "z"]) [object_a; object_b] =
  [ [Field "/a"; Field "item"; Field "True"; Field "[1, 2]"; Field "1"; Field "";
     Field "[]"];
    [Field "/b"; Field "item"; Field ""; Field ""; Field ""; Field "3"; Field "[]"] ].
Proof. vm_compute. reflexivity. Qed.

Lemma columns_fixed_and_sorted_witness :
  StronglySorted String.le (attr_columns [object_a; object_b]).
Proof.
  exact (proj1 (proj2 (proj2 (columns_fixed_and_sorted [object_a; object_b]
                                "out.csv" sample_world eq_refl)))).
Defined.

(** An object with an attribute called "nested", and one without. *)
Definition object_with_nested_attribute : pyval :=
  PDict [("url", PStr "/n"); ("attributes", PDict [("nested", PStr "inner")]);
         ("nested", PList [PInt 7])].

Definition object_plain : pyval := PDict [("url", PStr "/p")].

(** C2. The code at the failing input: two objects, the first with an
    attribute called "nested", the second with no attribute at all.  The
    header has the attribute column "nested" (the fourth column) and the
    trailing column "nested".  The second object lacks the attribute, so
    its cell in the fourth column should be empty; the code writes the
    JSON of the object's nested array there, because the row is filled by
    column name and [row["nested"]] is assigned once more after the
    attribute loop. *)
Theorem nested_attribute_column_is_not_empty :
  forall path (w : world),
    let objects := [object_with_nested_attribute; object_plain] in
    attr_columns objects = ["nested"]
    /\ keys_of object_plain = []
    /\ write_objects_to_csv objects path w =
         (Ok tt,
          with_file w path
            [ map Field ["url"; "type"; "exact"; "nested"; "nested"];
              [Field "/n"; Field ""; Field ""; Field "[7]"; Field "[7]"];
              [Field "/p"; Field ""; Field ""; Field "[]"; Field "[]"] ])
    /\ cells_for (attr_columns objects) object_plain !! 3%nat = Some (Field "[]")
    /\ cells_for (attr_columns objects) object_plain !! 3%nat <> Some (Field "").
Proof.
  intros path w objects. subst objects.
  assert (Hkeys : attr_columns [object_with_nested_attribute; object_plain] = ["nested"])
    by (vm_compute; reflexivity).
  split; [exact Hkeys|]. split; [reflexivity|]. split.
  - rewrite (write_objects_flattens [object_with_nested_attribute; object_plain]
               path w eq_refl), Hkeys. reflexivity.
  - rewrite Hkeys. split; [reflexivity|discriminate].
Qed.

(** ** Missing keys *)




(** ** Attribute keys that collide with the fixed columns *)

Lemma filter_eq_absent (K : string) (l : list string) :
  K ∉ l -> filter (fun x => x = K) l = [].
Proof.
  induction l as [|x l IH]; [reflexivity|]. intros HK.
  rewrite filter_cons_False by set_solver. apply IH. set_solver.
Qed.

Lemma filter_eq_once (K : string) (l : list string) :
  NoDup l -> K ∈ l -> length (filter (fun x => x = K) l) = 1%nat.
Proof.
  induction 1 as [|x l Hx Hl IH]; [set_solver|]. intros HK.
  destruct (decide (x = K)) as [->|Hne].
  - rewrite filter_cons_True by reflexivity.
    rewrite (filter_eq_absent _ _ Hx). reflexivity.
  - rewrite filter_cons_False by exact Hne. apply IH. set_solver.
Qed.

Lemma fixed_column_twice (keys : list string) (K : string) :
  NoDup keys -> K ∈ keys ->
  K ∈ ["url"; "type"; "exact"; "nested"] ->
  length (filter (fun x => x = K) (fieldnames_of keys)) = 2%nat.
Proof.
  intros Hnd HK Hfixed. unfold fieldnames_of.
  rewrite !filter_app, !length_app, (filter_eq_once _ _ Hnd HK).
  repeat (apply elem_of_cons in Hfixed as [->|Hfixed]; [reflexivity|]).
  set_solver.
Qed.

Lemma object_key_in_columns objects obj d a (K : string) (v : pyval) :
  obj ∈ objects -> obj = PDict d -> attrs_of d = PDict a ->
  lookup_key K a = Some v ->
  K ∈ attr_columns objects.
Proof.
  intros Hobj -> Ha Hv. apply attr_columns_elem_of. exists (PDict d).
  split; [exact Hobj|]. simpl. rewrite Ha. apply (lookup_key_Some _ _ _ Hv).
Qed.

(** C10. When the attribute bag of an object has a key called "url",
    "type" or "exact", the header names that column twice, once among the
    fixed columns and once among the attribute columns, and in the row of
    that object the cell under each of the two holds the attribute's value
    (its JSON text when it is a list or a dictionary), whatever the
    object's own field of that name is.  When the key is called "nested",
    the header names "nested" twice as well, and both cells hold the JSON
    of the object's nested array, not the attribute. *)
Theorem colliding_attribute_keys :
  forall objects obj d a K v path (w : world),
    forallb flattens objects = true ->
    obj ∈ objects ->
    obj = PDict d ->
    attrs_of d = PDict a ->
    lookup_key K a = Some v ->
    let keys := attr_columns objects in
    let fieldnames := fieldnames_of keys in
    write_objects_to_csv objects path w =
      (Ok tt, with_file w path (map Field fieldnames :: map (cells_for keys) objects))
    /\ emit_row keys fieldnames obj = Ok (cells_for keys obj)
    /\ (K ∈ ["url"; "type"; "exact"; "nested"] ->
        length (filter (fun x => x = K) fieldnames) = 2%nat)
    /\ (K ∈ ["url"; "type"; "exact"] ->
        forall j, fieldnames !! j = Some K ->
                  cells_for keys obj !! j = Some (csv_field (shown v)))
    /\ (K = "nested" ->
        forall j, fieldnames !! j = Some K ->
                  cells_for keys obj !! j =
                  Some (Field (json_dumps (default (PList []) (lookup_key "nested" d))))).
Proof.
  intros objects obj d a K v path w Hall Hobj Hd Ha Hv keys fieldnames.
  pose proof (object_key_in_columns _ _ _ _ _ _ Hobj Hd Ha Hv) as HK.
  fold keys in HK.
  assert (Hflat : flattens obj = true).
  { rewrite forallb_forall in Hall. apply Hall, list_elem_of_In, Hobj. }
  assert (Hcells : cells_for keys obj = cells_of keys d a).
  { subst obj. simpl. rewrite Ha. reflexivity. }
  split; [apply write_objects_flattens, Hall|].
  split; [apply emit_row_flattens, Hflat|].
  split; [|split].
  - intros Hfixed. apply fixed_column_twice; [apply sorted_NoDup|exact HK|exact Hfixed].
  - intros Hfixed j Hj. rewrite Hcells, (cells_of_lookup _ _ _ _ _ Hj).
    unfold row_value.
    rewrite bool_decide_false by (intros ->; set_solver).
    rewrite bool_decide_true by exact HK. rewrite Hv. reflexivity.
  - intros -> j Hj. rewrite Hcells, (cells_of_lookup _ _ _ _ _ Hj).
    unfold row_value. rewrite bool_decide_true by reflexivity. reflexivity.
Qed.

(** An object whose attribute bag has a key called "url". *)
Definition object_with_url_attribute : pyval :=
  PDict [("url", PStr "/top"); ("type", PStr "item");
         ("attributes", PDict [("url", PStr "/from-attributes"); ("title", PStr "T")])].

Example rows_with_collisions :
  let objects := [object_with_url_attribute; object_with_nested_attribute] in
  (fieldnames_of (attr_columns objects),
   map (cells_for (attr_columns objects)) objects) =
  (["url"; "type"; "exact"; "nested"; "title"; "url"; "nested"],
   [ [Field "/from-attributes"; Field "item"; Field ""; Field "[]"; Field "T";
      Field "/from-attributes"; Field "[]"];
     [Field ""; Field ""; Field ""; Field "[7]"; Field ""; Field ""; Field "[7]"] ]).
Proof. vm_compute. reflexivity. Qed.

Lemma colliding_attribute_keys_witness :
  length (filter (fun x => x = "url")
            (fieldnames_of (attr_columns [object_with_url_attribute]))) = 2%nat.
Proof.
  refine (proj1 (proj2 (proj2 (colliding_attribute_keys [object_with_url_attribute]
            object_with_url_attribute _ _ "url" (PStr "/from-attributes")
            "out.csv" sample_world eq_refl _ eq_refl eq_refl eq_refl))) _);
    set_solver.
Defined.

(** ** Reading a cell back *)

Lemma scanstring_escape_char (c : ascii) (rest : string) :
  scanstring (escape_char c +:+ rest) = prepend (String c "") (scanstring rest).
Proof.
  destruct c as [[] [] [] [] [] [] [] []]; reflexivity.
Qed.

Lemma prepend_some (chunk s rest : string) :
  prepend chunk (Some (s, rest)) = Some (chunk +:+ s, rest).
Proof. reflexivity. Qed.

Lemma scanstring_escape (s rest : string) :
  scanstring (escape s +:+ String DQUOTE rest) = Some (s, rest).
Proof.
  induction s as [|c s IH]; [reflexivity|].
  simpl escape. rewrite app_assoc_str, scanstring_escape_char, IH.
  reflexivity.
Qed.

(** What may follow a value inside the text [json.dumps] writes: nothing,
    a comma or a closing bracket. *)
Definition closes (rest : string) : bool :=
  match rest with
  | EmptyString => true
  | String c _ => (Ascii.eqb c "," || Ascii.eqb c "]" || Ascii.eqb c "}")%bool
  end.

Lemma closes_head (c : ascii) (r : string) :
  closes (String c r) = true -> c = ","%char \/ c = "]"%char \/ c = "}"%char.
Proof.
  simpl. intros H. apply orb_prop in H as [H|H]; [apply orb_prop in H as [H|H]|];
    apply Ascii.eqb_eq in H; auto.
Qed.

Lemma span_until_split stop (s a b : string) :
  span_until stop s = (a, b) -> s = a +:+ b.
Proof.
  revert a b. induction s as [|c s IH]; intros a b; simpl.
  - intros [= <- <-]. reflexivity.
  - destruct (stop c); [intros [= <- <-]; reflexivity|].
    destruct (span_until stop s) as [a' b']. intros [= <- <-].
    rewrite app_cons, <- (IH a' b' eq_refl). reflexivity.
Qed.

Lemma span_digits_app (x rest : string) :
  closes rest = true ->
  span_digits (x +:+ rest) = (fst (span_digits x), snd (span_digits x) +:+ rest).
Proof.
  intros Hr. unfold span_digits. induction x as [|c x IH].
  - rewrite app_empty_l. destruct rest as [|c r]; [reflexivity|].
    destruct (closes_head _ _ Hr) as [->|[->| ->]]; reflexivity.
  - rewrite app_cons. simpl. destruct (negb (is_digit c)); [reflexivity|].
    rewrite IH. destruct (span_until _ x). reflexivity.
Qed.

Lemma span_digits_all (s : string) :
  string_forall is_digit s = true -> span_digits s = (s, "").
Proof.
  unfold span_digits. induction s as [|c s IH]; [reflexivity|]. simpl.
  intros [Hc Hs]%andb_prop. rewrite Hc, (IH Hs). reflexivity.
Qed.

Lemma take_sign_app (s rest : string) :
  closes rest = true ->
  take_sign (s +:+ rest) = (fst (take_sign s), snd (take_sign s) +:+ rest).
Proof.
  intros Hr. destruct s as [|c s].
  - rewrite app_empty_l. destruct rest as [|c r]; [reflexivity|].
    destruct (closes_head _ _ Hr) as [->|[->| ->]]; reflexivity.
  - rewrite app_cons. simpl. destruct (Ascii.eqb c "-"); reflexivity.
Qed.

Lemma int_part_app (s rest i s2 : string) :
  closes rest = true ->
  int_part s = Some (i, s2) ->
  int_part (s +:+ rest) = Some (i, s2 +:+ rest).
Proof.
  intros Hr. destruct s as [|c s]; [discriminate|]. rewrite app_cons. simpl.
  destruct (Ascii.eqb c "0"); [intros [= <- <-]; reflexivity|].
  destruct (is_digit c); [|discriminate].
  rewrite (span_digits_app _ _ Hr). destruct (span_digits s) as [ds r'].
  intros [= <- <-]. reflexivity.
Qed.

Lemma frac_part_app (s rest : string) :
  closes rest = true ->
  frac_part (s +:+ rest) = (fst (frac_part s), snd (frac_part s) +:+ rest).
Proof.
  intros Hr. destruct s as [|c s].
  - rewrite app_empty_l. destruct rest as [|c r]; [reflexivity|].
    destruct (closes_head _ _ Hr) as [->|[->| ->]]; reflexivity.
  - rewrite app_cons. simpl. destruct (Ascii.eqb c "."); [|reflexivity].
    rewrite (span_digits_app _ _ Hr). destruct (span_digits s) as [[|d ds] r'];
      reflexivity.
Qed.

Lemma exp_sign_app (s rest : string) :
  closes rest = true ->
  exp_sign (s +:+ rest) = (fst (exp_sign s), snd (exp_sign s) +:+ rest).
Proof.
  intros Hr. destruct s as [|c s].
  - rewrite app_empty_l. destruct rest as [|c r]; [reflexivity|].
    destruct (closes_head _ _ Hr) as [->|[->| ->]]; reflexivity.
  - rewrite app_cons. simpl.
    destruct (Ascii.eqb c "+" || Ascii.eqb c "-")%bool; reflexivity.
Qed.

Lemma exp_part_app (s rest : string) :
  closes rest = true ->
  exp_part (s +:+ rest) = (fst (exp_part s), snd (exp_part s) +:+ rest).
Proof.
  intros Hr. destruct s as [|c s].
  - rewrite app_empty_l. destruct rest as [|c r]; [reflexivity|].
    destruct (closes_head _ _ Hr) as [->|[->| ->]]; reflexivity.
  - rewrite app_cons. simpl.
    destruct (Ascii.eqb c "e" || Ascii.eqb c "E")%bool; [|reflexivity].
    rewrite (exp_sign_app _ _ Hr). destruct (exp_sign s) as [sg r1]. simpl.
    rewrite (span_digits_app _ _ Hr). destruct (span_digits r1) as [[|d ds] r2];
      reflexivity.
Qed.

(** A number followed by a comma or a closing bracket is matched as when
    it stands alone. *)
Lemma match_number_app (t rest i f e r : string) :
  closes rest = true ->
  match_number t = Some (i, f, e, r) ->
  match_number (t +:+ rest) = Some (i, f, e, r +:+ rest).
Proof.
  intros Hr. unfold match_number. rewrite (take_sign_app _ _ Hr).
  destruct (take_sign t) as [sign s1]. simpl.
  destruct (int_part s1) as [[i0 s2]|] eqn:Hi; [|discriminate].
  rewrite (int_part_app _ _ _ _ Hr Hi), (frac_part_app _ _ Hr).
  destruct (frac_part s2) as [f0 s3]. simpl.
  rewrite (exp_part_app _ _ Hr). destruct (exp_part s3) as [e0 s4]. simpl.
  intros [= <- <- <- <-]. reflexivity.
Qed.

Lemma take_sign_text (s : string) : s = fst (take_sign s) +:+ snd (take_sign s).
Proof.
  destruct s as [|c s]; [reflexivity|]. simpl.
  destruct (Ascii.eqb_spec c "-") as [->|]; reflexivity.
Qed.

Lemma span_digits_text (s : string) : s = fst (span_digits s) +:+ snd (span_digits s).
Proof.
  unfold span_digits. destruct (span_until _ s) as [a b] eqn:H.
  apply (span_until_split _ _ _ _ H).
Qed.

Lemma int_part_text (s i s2 : string) : int_part s = Some (i, s2) -> s = i +:+ s2.
Proof.
  destruct s as [|c s]; [discriminate|]. simpl.
  destruct (Ascii.eqb c "0"); [intros [= <- <-]; reflexivity|].
  destruct (is_digit c); [|discriminate].
  pose proof (span_digits_text s) as Hs.
  destruct (span_digits s) as [ds r']. intros [= <- <-].
  rewrite app_cons. simpl in Hs. rewrite <- Hs. reflexivity.
Qed.

Lemma frac_part_text (s : string) : s = fst (frac_part s) +:+ snd (frac_part s).
Proof.
  destruct s as [|c s]; [reflexivity|]. simpl.
  destruct (Ascii.eqb c "."); [|reflexivity].
  pose proof (span_digits_text s) as Hs.
  destruct (span_digits s) as [[|d ds] r']; [reflexivity|].
  simpl in *. rewrite app_cons, <- Hs. reflexivity.
Qed.

Lemma exp_part_text (s : string) : s = fst (exp_part s) +:+ snd (exp_part s).
Proof.
  destruct s as [|c s]; [reflexivity|]. simpl.
  destruct (Ascii.eqb c "e" || Ascii.eqb c "E")%bool; [|reflexivity].
  assert (Hsg : s = fst (exp_sign s) +:+ snd (exp_sign s)).
  { destruct s as [|x s]; [reflexivity|]. simpl.
    destruct (Ascii.eqb x "+" || Ascii.eqb x "-")%bool; reflexivity. }
  destruct (exp_sign s) as [sg r1]. simpl in *.
  pose proof (span_digits_text r1) as Hs.
  destruct (span_digits r1) as [[|d ds] r2]; [reflexivity|].
  simpl in *. rewrite app_cons, app_assoc_str, <- Hs, <- Hsg. reflexivity.
Qed.

(** The groups of a match and what follows them make up the text. *)
Lemma match_number_text (t i f e r : string) :
  match_number t = Some (i, f, e, r) -> t = (i +:+ f +:+ e) +:+ r.
Proof.
  unfold match_number. pose proof (take_sign_text t) as Ht.
  destruct (take_sign t) as [sign s1]. simpl in Ht.
  destruct (int_part s1) as [[i0 s2]|] eqn:Hi; [|discriminate].
  apply int_part_text in Hi.
  pose proof (frac_part_text s2) as Hf. destruct (frac_part s2) as [f0 s3].
  pose proof (exp_part_text s3) as He. destruct (exp_part s3) as [e0 s4].
  simpl in *. intros [= <- <- <- <-].
  rewrite Ht, Hi, Hf, He at 1. rewrite !app_assoc_str. reflexivity.
Qed.

Lemma uint_digits (d : Decimal.uint) :
  string_forall is_digit (NilEmpty.string_of_uint d) = true.
Proof. induction d; simpl; auto. Qed.

Lemma to_uint_normal (p : positive) : Decimal.unorm (Pos.to_uint p) = Pos.to_uint p.
Proof.
  pose proof (DecimalPos.Unsigned.to_of (Pos.to_uint p)) as H.
  rewrite DecimalPos.Unsigned.of_to in H. symmetry. exact H.
Qed.

Lemma to_uint_head (p : positive) :
  exists c s, NilEmpty.string_of_uint (Pos.to_uint p) = String c s
              /\ is_digit c = true /\ Ascii.eqb c "0" = false
              /\ string_forall is_digit s = true.
Proof.
  pose proof (to_uint_normal p) as Hn.
  pose proof (DecimalPos.Unsigned.to_uint_nonzero p) as Hz.
  pose proof (DecimalPos.Unsigned.to_uint_nonnil p) as Hnil.
  destruct (Pos.to_uint p) as [|u|u|u|u|u|u|u|u|u|u] eqn:Hd;
    try (eexists _, _; repeat split; apply uint_digits).
  - congruence.
  - exfalso.
    destruct (Decimal.uint_eq_dec u Decimal.Nil) as [->|Hu]; [apply Hz; reflexivity|].
    rewrite unorm_D0 in Hn. pose proof (nb_digits_unorm u Hu) as Hle.
    rewrite Hn in Hle. simpl in Hle. lia.
Qed.

Lemma match_number_positive (p : positive) :
  let t := NilEmpty.string_of_uint (Pos.to_uint p) in
  match_number t = Some (t, "", "", "")
  /\ match_number (String "-" t) = Some (String "-" t, "", "", "").
Proof.
  intros t. destruct (to_uint_head p) as (c & s & Ht & Hc & H0 & Hs).
  fold t in Ht. rewrite Ht. unfold match_number.
  assert (Hm : Ascii.eqb c "-" = false).
  { destruct (Ascii.eqb_spec c "-") as [->|]; [discriminate|reflexivity]. }
  assert (Hi : int_part (String c s) = Some (String c s, "")).
  { unfold int_part. rewrite H0, Hc, (span_digits_all _ Hs). reflexivity. }
  assert (Hsign : take_sign (String c s) = ("", String c s)).
  { unfold take_sign. rewrite Hm. reflexivity. }
  split.
  - rewrite Hsign, Hi. reflexivity.
  - change (take_sign (String "-" (String c s))) with ("-", String c s).
    cbv beta iota. rewrite Hi. reflexivity.
Qed.

Lemma int_repr_cases (n : Z) :
  n = 0 /\ int_repr n = "0"
  \/ exists p, (n = Zpos p /\ int_repr n = NilEmpty.string_of_uint (Pos.to_uint p))
            \/ (n = Zneg p
                /\ int_repr n = String "-" (NilEmpty.string_of_uint (Pos.to_uint p))).
Proof.
  destruct n as [|p|p]; [left; auto|right; exists p; left|right; exists p; right];
    (split; [reflexivity|]);
    unfold int_repr, Z.to_int, NilZero.string_of_int, NilZero.string_of_uint;
    pose proof (DecimalPos.Unsigned.to_uint_nonnil p) as Hnil;
    destruct (Pos.to_uint p); solve [reflexivity | contradiction].
Qed.

Lemma match_number_int (n : Z) :
  match_number (int_repr n) = Some (int_repr n, "", "", "").
Proof.
  destruct (int_repr_cases n) as [[-> ->]|[p [[-> ->]|[-> ->]]]];
    [reflexivity|apply match_number_positive..].
Qed.

Lemma int_of_text_repr (n : Z) : int_of_text (int_repr n) = Some n.
Proof.
  unfold int_of_text, int_repr. rewrite NilZero.isi.
  - simpl. rewrite DecimalZ.of_to. reflexivity.
  - destruct n as [|p|p]; simpl; try discriminate.
    intros [= H]. exact (DecimalPos.Unsigned.to_uint_nonnil p H).
  - destruct n as [|p|p]; simpl; try discriminate.
    intros [= H]. exact (DecimalPos.Unsigned.to_uint_nonnil p H).
Qed.

Lemma scan_number_int (n : Z) (rest : string) :
  closes rest = true ->
  scan_number (int_repr n +:+ rest) = Some (PInt n, rest).
Proof.
  intros Hr. unfold scan_number.
  rewrite (match_number_app _ _ _ _ _ _ Hr (match_number_int n)).
  rewrite int_of_text_repr. reflexivity.
Qed.

(** The text is a number with a fraction or an exponent, and nothing more. *)
Definition is_float_literal (t : string) : bool :=
  match match_number t with
  | Some (_, f, e, EmptyString) => negb (String.eqb f "" && String.eqb e "")
  | _ => false
  end.

Lemma scan_number_float (t rest : string) :
  is_float_literal t = true ->
  closes rest = true ->
  scan_number (t +:+ rest) = Some (PFloat (FFin t), rest).
Proof.
  unfold is_float_literal. intros Ht Hr.
  destruct (match_number t) as [[[[i f] e] r]|] eqn:Hm; [|discriminate].
  destruct r; [|discriminate].
  pose proof (match_number_text _ _ _ _ _ Hm) as Htext. rewrite app_empty_r in Htext.
  unfold scan_number. rewrite (match_number_app _ _ _ _ _ _ Hr Hm).
  rewrite app_empty_l, <- Htext.
  destruct f as [|cf f]; [|reflexivity].
  destruct e as [|ce e]; [discriminate|reflexivity].
Qed.

(** A value as the JSON decoder builds it: the text of a float is a float
    literal and no dictionary has a key twice. *)
Fixpoint well_formed (v : pyval) : bool :=
  match v with
  | PFloat (FFin t) => is_float_literal t
  | PList items => forallb well_formed items
  | PDict entries =>
      (bool_decide (NoDup (map fst entries))
       && forallb (fun kv => well_formed (snd kv)) entries)%bool
  | _ => true
  end.

Lemma length_app_str (s t : string) :
  String.length (s +:+ t) = (String.length s + String.length t)%nat.
Proof.
  induction s as [|c s IH]; [reflexivity|]. rewrite app_cons. simpl.
  rewrite IH. reflexivity.
Qed.

Lemma join_cons (sep x : string) (xs : list string) :
  join sep (x :: xs) =
  x +:+ match xs with [] => "" | _ => sep +:+ join sep xs end.
Proof. destruct xs; simpl; [rewrite app_empty_r|]; reflexivity. Qed.

Lemma join_length_elem (sep : string) (l : list string) (x : string) :
  x ∈ l -> (String.length x <= String.length (join sep l))%nat.
Proof.
  induction l as [|y l IH]; [set_solver|]. intros Hx.
  rewrite join_cons, length_app_str.
  apply elem_of_cons in Hx as [->|Hx]; [lia|].
  specialize (IH Hx). destruct l; [set_solver|].
  rewrite length_app_str. lia.
Qed.

Lemma join_length_count (sep : string) (l : list string) :
  Forall (fun x => (1 <= String.length x)%nat) l ->
  (length l <= String.length (join sep l))%nat.
Proof.
  induction 1 as [|x l Hx Hl IH]; [simpl; lia|].
  rewrite join_cons, length_app_str. destruct l; [simpl; lia|].
  rewrite length_app_str. simpl length in *. lia.
Qed.

Lemma digit_is_value_start (c : ascii) :
  is_digit c = true \/ c = "-"%char ->
  is_json_ws c = false /\ Ascii.eqb c "]" = false /\ Ascii.eqb c DQUOTE = false
  /\ Ascii.eqb c "{" = false /\ Ascii.eqb c "[" = false
  /\ Ascii.eqb c "n" = false /\ Ascii.eqb c "t" = false /\ Ascii.eqb c "f" = false.
Proof.
  intros [H| ->]; [|repeat split].
  destruct c as [[] [] [] [] [] [] [] []]; try discriminate H; repeat split.
Qed.

Lemma match_number_head (t : string) x :
  match_number t = Some x ->
  exists c s, t = String c s /\ (is_digit c = true \/ c = "-"%char).
Proof.
  destruct t as [|c s]; [discriminate|]. intros H. exists c, s. split; [reflexivity|].
  unfold match_number, take_sign in H.
  destruct (Ascii.eqb_spec c "-") as [->|_]; [auto|]. left.
  unfold int_part in H. destruct (Ascii.eqb_spec c "0") as [->|_]; [reflexivity|].
  destruct (is_digit c); [reflexivity|discriminate].
Qed.

Lemma int_repr_head (n : Z) :
  exists c s, int_repr n = String c s /\ (is_digit c = true \/ c = "-"%char).
Proof. apply (match_number_head _ _ (match_number_int n)). Qed.

(** The text of a value starts with a character that is neither a blank
    nor a closing bracket. *)
Lemma dumps_head (v : pyval) :
  well_formed v = true ->
  exists c s, json_dumps v = String c s
              /\ is_json_ws c = false /\ Ascii.eqb c "]" = false.
Proof.
  destruct v as [|[]|n|[|[]|t]|s|[|x xs]|[|kv es]]; simpl; intros Hwf;
    try (eexists _, _; repeat split; fail).
  - destruct (int_repr_head n) as (c & s & -> & Hc).
    exists c, s. split; [reflexivity|]. apply digit_is_value_start in Hc. tauto.
  - unfold is_float_literal in Hwf.
    destruct (match_number t) as [x|] eqn:Hm; [|discriminate].
    destruct (match_number_head _ _ Hm) as (c & s & -> & Hc).
    exists c, s. split; [reflexivity|]. apply digit_is_value_start in Hc. tauto.
Qed.

Lemma skip_ws_dumps (v : pyval) (r : string) :
  well_formed v = true -> skip_ws (json_dumps v +:+ r) = json_dumps v +:+ r.
Proof.
  intros Hwf. destruct (dumps_head v Hwf) as (c & s & -> & Hws & _).
  rewrite app_cons. unfold skip_ws. simpl. rewrite Hws. reflexivity.
Qed.

Lemma dumps_not_empty (v : pyval) :
  well_formed v = true -> (1 <= String.length (json_dumps v))%nat.
Proof.
  intros Hwf. destruct (dumps_head v Hwf) as (c & s & -> & _). simpl. lia.
Qed.

Lemma scan_once_number (f : nat) (c : ascii) (s : string) r :
  is_digit c = true \/ c = "-"%char ->
  scan_number (String c s) = Some r ->
  scan_once (S f) (String c s) = Some r.
Proof.
  intros Hc Hn. apply digit_is_value_start in Hc
    as (_ & _ & Hq & Hb & Hk & Hnn & Ht & Hf).
  cbn [scan_once]. rewrite Hq, Hb, Hk.
  assert (Hw : forall w c' w', w = String c' w' -> Ascii.eqb c' c = false ->
                                after_word w (String c s) = None).
  { intros w c' w' -> Hne. simpl. rewrite Hne. reflexivity. }
  rewrite (Hw "null" "n"%char "ull" eq_refl) by (rewrite Ascii.eqb_sym; exact Hnn).
  rewrite (Hw "true" "t"%char "rue" eq_refl) by (rewrite Ascii.eqb_sym; exact Ht).
  rewrite (Hw "false" "f"%char "alse" eq_refl) by (rewrite Ascii.eqb_sym; exact Hf).
  rewrite Hn. reflexivity.
Qed.

Lemma scan_once_int (f : nat) (n : Z) (rest : string) :
  closes rest = true ->
  scan_once (S f) (int_repr n +:+ rest) = Some (PInt n, rest).
Proof.
  intros Hr. pose proof (scan_number_int n rest Hr) as Hn.
  destruct (int_repr_head n) as (c & s & Hrepr & Hc). rewrite Hrepr in *.
  rewrite app_cons in *. apply (scan_once_number f c _ _ Hc Hn).
Qed.

Lemma scan_once_float (f : nat) (t rest : string) :
  is_float_literal t = true ->
  closes rest = true ->
  scan_once (S f) (t +:+ rest) = Some (PFloat (FFin t), rest).
Proof.
  intros Ht Hr. pose proof (scan_number_float t rest Ht Hr) as Hn.
  unfold is_float_literal in Ht.
  destruct (match_number t) as [x|] eqn:Hm; [|discriminate].
  destruct (match_number_head _ _ Hm) as (c & s & -> & Hc).
  rewrite app_cons in *. apply (scan_once_number f c _ _ Hc Hn).
Qed.

Lemma scan_once_str (f : nat) (s rest : string) :
  scan_once (S f) (encode_basestring s +:+ rest) = Some (PStr s, rest).
Proof.
  unfold encode_basestring. rewrite app_cons, app_assoc_str, app_cons, app_empty_l.
  cbn [scan_once]. change (Ascii.eqb DQUOTE DQUOTE) with true. cbv iota.
  rewrite scanstring_escape. reflexivity.
Qed.

(** A scalar is read back, whatever comes after it in the text. *)
Lemma scan_once_scalar (f : nat) (v : pyval) (rest : string) :
  is_compound v = false ->
  well_formed v = true ->
  closes rest = true ->
  scan_once (S f) (json_dumps v +:+ rest) = Some (v, rest).
Proof.
  intros Hc Hwf Hr. destruct v as [|[]|n|[|[]|t]|s| |]; try discriminate Hc;
    try reflexivity.
  - apply scan_once_int, Hr.
  - apply scan_once_float; [exact Hwf|exact Hr].
  - apply scan_once_str.
Qed.

(** What the induction knows of a value one level down: it is well formed
    and, with fuel [f], it is read back before any closing text. *)
Definition reads_back (f : nat) (x : pyval) : Prop :=
  well_formed x = true
  /\ forall rest, closes rest = true ->
                  scan_once f (json_dumps x +:+ rest) = Some (x, rest).

Lemma skip_ws_join (items : list pyval) (x : pyval) (r : string) :
  well_formed x = true ->
  skip_ws (join ", " (map json_dumps (x :: items)) +:+ r) =
  join ", " (map json_dumps (x :: items)) +:+ r.
Proof.
  intros Hx. change (map json_dumps (x :: items))
    with (json_dumps x :: map json_dumps items).
  rewrite join_cons, app_assoc_str. apply skip_ws_dumps, Hx.
Qed.

Lemma array_items_dumps (f : nat) (items : list pyval) :
  items <> [] ->
  Forall (reads_back f) items ->
  forall n rest,
    (length items <= n)%nat ->
    array_items (scan_once f) n
      (join ", " (map json_dumps items) +:+ String "]" rest) = Some (items, rest).
Proof.
  intros Hne Hall. induction Hall as [|x xs [Hwf Hx] Hxs IH]; [congruence|].
  intros n rest Hn. destruct n as [|n]; [simpl in Hn; lia|].
  change (map json_dumps (x :: xs)) with (json_dumps x :: map json_dumps xs).
  rewrite join_cons. destruct xs as [|y ys].
  - simpl map. cbv iota. rewrite app_empty_r. cbn [array_items].
    rewrite (Hx (String "]" rest) eq_refl). reflexivity.
  - change (map json_dumps (y :: ys)) with (json_dumps y :: map json_dumps ys).
    cbv iota. rewrite !app_assoc_str. cbn [array_items].
    change (", " +:+ ?t) with (String "," (String " " t)).
    rewrite Hx by reflexivity.
    change (skip_ws (String "," ?t)) with (String "," t). cbv iota beta.
    change (skip_ws (String " " ?t)) with (skip_ws t).
    inversion Hxs as [|? ? [Hwy _] _]; subst.
    change (json_dumps y :: map json_dumps ys) with (map json_dumps (y :: ys)).
    rewrite (skip_ws_join ys y _ Hwy).
    rewrite (IH ltac:(discriminate) n rest ltac:(simpl in *; lia)).
    reflexivity.
Qed.

Lemma scan_once_open_array (f : nat) (c : ascii) (s : string) :
  is_json_ws c = false ->
  Ascii.eqb c "]" = false ->
  scan_once (S f) (String "[" (String c s)) =
  match array_items (scan_once f) f (String c s) with
  | Some (items, rest) => Some (PList items, rest)
  | None => None
  end.
Proof.
  intros Hws Hc. cbn [scan_once].
  change (Ascii.eqb "[" DQUOTE) with false.
  change (Ascii.eqb "[" "{") with false.
  change (Ascii.eqb "[" "[") with true. cbv iota.
  unfold skip_ws. simpl lstrip_with. rewrite Hws, Hc. reflexivity.
Qed.

Lemma scan_once_list (f : nat) (items : list pyval) (rest : string) :
  Forall (reads_back f) items ->
  (length items <= f)%nat ->
  scan_once (S f) (json_dumps (PList items) +:+ rest) = Some (PList items, rest).
Proof.
  intros Hall Hlen. destruct items as [|x xs]; [reflexivity|].
  change (json_dumps (PList (x :: xs)))
    with ("[" +:+ join ", " (map json_dumps (x :: xs)) +:+ "]").
  rewrite !app_assoc_str. change ("[" +:+ ?t) with (String "[" t).
  change ("]" +:+ rest) with (String "]" rest).
  pose proof (array_items_dumps f (x :: xs) ltac:(discriminate) Hall f rest Hlen) as Ha.
  inversion Hall as [|? ? [Hwx _] _]; subst.
  destruct (dumps_head x Hwx) as (c & s & Hhead & Hws & Hc).
  revert Ha. change (map json_dumps (x :: xs)) with (json_dumps x :: map json_dumps xs).
  rewrite join_cons, Hhead. rewrite !app_cons. intros Ha.
  rewrite (scan_once_open_array f c _ Hws Hc), Ha. reflexivity.
Qed.

(** The text of one item of a dictionary. *)
Definition entry_text (kv : string * pyval) : string :=
  encode_basestring (fst kv) +:+ ": " +:+ json_dumps (snd kv).

Lemma json_dumps_dict (e : string * pyval) (es : list (string * pyval)) :
  json_dumps (PDict (e :: es)) = "{" +:+ join ", " (map entry_text (e :: es)) +:+ "}".
Proof. reflexivity. Qed.

(** What follows an item: the separator and the items after it, if any. *)
Definition after_entry (es : list (string * pyval)) (r : string) : string :=
  match es with
  | [] => r
  | _ => String "," (String " " (join ", " (map entry_text es) +:+ r))
  end.

Lemma join_entries_head (e : string * pyval) (es : list (string * pyval)) (r : string) :
  join ", " (map entry_text (e :: es)) +:+ r =
  String DQUOTE
    (escape (fst e) +:+
     String DQUOTE (String ":" (String " " (json_dumps (snd e) +:+ after_entry es r)))).
Proof.
  change (map entry_text (e :: es)) with (entry_text e :: map entry_text es).
  rewrite join_cons. unfold entry_text, encode_basestring.
  rewrite !app_cons, !app_assoc_str, !app_cons, app_empty_l.
  do 2 f_equal. destruct es as [|e2 es]; [reflexivity|].
  unfold after_entry. change (map entry_text (e2 :: es))
    with (entry_text e2 :: map entry_text es).
  cbv iota. rewrite !app_assoc_str. reflexivity.
Qed.

Lemma closes_after_entry (es : list (string * pyval)) (rest : string) :
  closes (after_entry es (String "}" rest)) = true.
Proof. destruct es; reflexivity. Qed.

Lemma object_items_dumps (f : nat) (entries : list (string * pyval)) :
  entries <> [] ->
  Forall (fun kv => reads_back f (snd kv)) entries ->
  forall n rest t,
    (length entries <= n)%nat ->
    join ", " (map entry_text entries) +:+ String "}" rest = String DQUOTE t ->
    object_items (scan_once f) n t = Some (entries, rest).
Proof.
  intros Hne Hall. induction Hall as [|[k v] es [Hwf Hv] Hes IH]; [congruence|].
  intros n rest t Hn Ht. destruct n as [|n]; [simpl in Hn; lia|].
  rewrite join_entries_head in Ht. injection Ht as <-. simpl fst. simpl snd.
  cbn [object_items]. rewrite scanstring_escape.
  change (skip_ws (String ":" ?x)) with (String ":" x). cbv iota beta.
  change (skip_ws (String " " ?x)) with (skip_ws x).
  rewrite (skip_ws_dumps _ _ Hwf).
  cbn [snd] in *. rewrite (Hv _ (closes_after_entry es rest)).
  destruct es as [|e2 es]; [reflexivity|].
  unfold after_entry.
  change (skip_ws (String "," ?x)) with (String "," x). cbv iota beta.
  change (skip_ws (String " " ?x)) with (skip_ws x).
  rewrite (join_entries_head e2 es (String "}" rest)).
  change (skip_ws (String DQUOTE ?x)) with (String DQUOTE x). cbv iota beta.
  change (Ascii.eqb DQUOTE DQUOTE) with true. cbv iota.
  erewrite IH; [reflexivity|discriminate|simpl in *; lia|].
  apply join_entries_head.
Qed.

Lemma dict_set_fresh (k : string) (v : pyval) (d : list (string * pyval)) :
  k ∉ map fst d -> dict_set k v d = d ++ [(k, v)].
Proof.
  induction d as [|[k' v'] d IH]; [reflexivity|]. simpl. intros Hk.
  destruct (String.eqb_spec k' k) as [->|Hne]; [set_solver|].
  rewrite IH by set_solver. reflexivity.
Qed.

Lemma dict_of_pairs_distinct (entries : list (string * pyval)) :
  NoDup (map fst entries) -> dict_of_pairs entries = entries.
Proof.
  unfold dict_of_pairs.
  assert (H : forall acc, NoDup (map fst (acc ++ entries)) ->
              fold_left (fun d kv => dict_set (fst kv) (snd kv) d) entries acc
              = acc ++ entries).
  { induction entries as [|[k v] es IH]; intros acc Hnd; simpl.
    - rewrite app_nil_r. reflexivity.
    - rewrite dict_set_fresh.
      + rewrite IH; rewrite <- app_assoc; [reflexivity|exact Hnd].
      + rewrite map_app in Hnd. apply NoDup_app in Hnd as (_ & Hdis & _).
        intros Hin. apply (Hdis k Hin). simpl. set_solver. }
  intros Hnd. apply (H [] Hnd).
Qed.

Lemma scan_once_dict (f : nat) (entries : list (string * pyval)) (rest : string) :
  NoDup (map fst entries) ->
  Forall (fun kv => reads_back f (snd kv)) entries ->
  (length entries <= f)%nat ->
  scan_once (S f) (json_dumps (PDict entries) +:+ rest) = Some (PDict entries, rest).
Proof.
  intros Hnd Hall Hlen. destruct entries as [|e es]; [reflexivity|].
  rewrite json_dumps_dict, !app_assoc_str.
  change ("{" +:+ ?t) with (String "{" t).
  change ("}" +:+ rest) with (String "}" rest).
  pose proof (join_entries_head e es (String "}" rest)) as Hhead.
  rewrite Hhead. cbn [scan_once].
  change (Ascii.eqb "{" DQUOTE) with false.
  change (Ascii.eqb "{" "{") with true. cbv iota.
  change (skip_ws (String DQUOTE ?x)) with (String DQUOTE x). cbv iota beta.
  change (Ascii.eqb DQUOTE "}") with false.
  change (Ascii.eqb DQUOTE DQUOTE) with true. cbv iota.
  rewrite (object_items_dumps f (e :: es) ltac:(discriminate) Hall f rest _ Hlen Hhead).
  rewrite (dict_of_pairs_distinct _ Hnd). reflexivity.
Qed.

Lemma entry_text_length (kv : string * pyval) :
  String.length (entry_text kv) =
  (String.length (escape (fst kv)) + 4 + String.length (json_dumps (snd kv)))%nat.
Proof.
  unfold entry_text, encode_basestring.
  rewrite app_cons. cbn [String.length]. rewrite !length_app_str.
  cbn [String.length]. lia.
Qed.

(** Every well-formed value is read back from its text, with fuel for the
    length of the text. *)
Lemma scan_once_dumps (v : pyval) :
  well_formed v = true ->
  forall fuel rest,
    (String.length (json_dumps v) <= fuel)%nat ->
    closes rest = true ->
    scan_once fuel (json_dumps v +:+ rest) = Some (v, rest).
Proof.
  induction v as [| b | n | fl | s | items IH | entries IH] using pyval_deep_ind;
    intros Hwf fuel rest Hfuel Hrest;
    (destruct fuel as [|f];
     [pose proof (dumps_not_empty _ Hwf); lia|]);
    try (apply scan_once_scalar; [reflexivity|exact Hwf|exact Hrest]).
  - (* a list *)
    simpl in Hwf. rewrite forallb_forall in Hwf.
    destruct items as [|x xs]; [reflexivity|].
    assert (Hlen : (String.length (join ", " (map json_dumps (x :: xs))) < f)%nat).
    { change (json_dumps (PList (x :: xs)))
        with ("[" +:+ join ", " (map json_dumps (x :: xs)) +:+ "]") in Hfuel.
      rewrite !length_app_str in Hfuel.
      change (String.length "[") with 1%nat in Hfuel.
      change (String.length "]") with 1%nat in Hfuel. lia. }
    apply scan_once_list.
    + apply Forall_forall. intros y Hy. split; [apply Hwf, list_elem_of_In, Hy|].
      intros r Hr. rewrite Forall_forall in IH.
      apply (IH y Hy); [apply Hwf, list_elem_of_In, Hy| |exact Hr].
      pose proof (join_length_elem ", " (map json_dumps (x :: xs)) (json_dumps y)
                    (list_elem_of_fmap_2 json_dumps _ _ Hy)). lia.
    + pose proof (join_length_count ", " (map json_dumps (x :: xs))) as Hc.
      rewrite length_map in Hc. 
      assert (Hall1 : Forall (fun t => (1 <= String.length t)%nat)
                        (map json_dumps (x :: xs))).
      { apply Forall_forall. intros t Ht.
        apply list_elem_of_fmap in Ht as (y & -> & Hy).
        apply dumps_not_empty, Hwf, list_elem_of_In, Hy. }
      specialize (Hc Hall1). lia.
  - (* a dictionary *)
    simpl in Hwf. apply andb_prop in Hwf as [Hnd Hwf].
    apply bool_decide_eq_true in Hnd. rewrite forallb_forall in Hwf.
    destruct entries as [|e es]; [reflexivity|].
    assert (Hlen : (String.length (join ", " (map entry_text (e :: es))) < f)%nat).
    { rewrite json_dumps_dict in Hfuel.
      rewrite !length_app_str in Hfuel.
      change (String.length "{") with 1%nat in Hfuel.
      change (String.length "}") with 1%nat in Hfuel. lia. }
    assert (Hentry : forall kv, kv ∈ e :: es ->
              (String.length (json_dumps (snd kv)) + 4
               <= String.length (join ", " (map entry_text (e :: es))))%nat).
    { intros kv Hkv.
      pose proof (join_length_elem ", " (map entry_text (e :: es)) (entry_text kv)
                    (list_elem_of_fmap_2 entry_text _ _ Hkv)) as Hle.
      rewrite entry_text_length in Hle. lia. }
    apply scan_once_dict; [exact Hnd| |].
    + apply Forall_forall. intros kv Hkv.
      split; [apply Hwf, list_elem_of_In, Hkv|].
      intros r Hr. rewrite Forall_forall in IH.
      apply (IH kv Hkv); [apply Hwf, list_elem_of_In, Hkv| |exact Hr].
      specialize (Hentry kv Hkv). lia.
    + pose proof (join_length_count ", " (map entry_text (e :: es))) as Hc.
      rewrite length_map in Hc.
      assert (Hall1 : Forall (fun t => (1 <= String.length t)%nat)
                        (map entry_text (e :: es))).
      { apply Forall_forall. intros t Ht.
        apply list_elem_of_fmap in Ht as (kv & -> & Hkv).
        rewrite entry_text_length. lia. }
      specialize (Hc Hall1). lia.
Qed.

(** [json.loads(json.dumps(v))] gives [v] back. *)
Lemma json_loads_dumps (v : pyval) :
  well_formed v = true -> json_loads (json_dumps v) = Some v.
Proof.
  intros Hwf. unfold json_loads.
  rewrite <- (app_empty_r (json_dumps v)) at 2.
  rewrite (skip_ws_dumps _ _ Hwf).
  rewrite (scan_once_dumps v Hwf (S (String.length (json_dumps v))) ""
             (Nat.le_succ_diag_r _) eq_refl).
  reflexivity.
Qed.

(** X20. In an attribute column that is not called "nested": when the
    object's value under that key is a list or a dictionary, the cell of
    that column holds the text [json.dumps] gives for the value, and
    decoding that text gives the value back (for a value as the JSON
    decoder builds them); when the value is a scalar the cell holds the
    scalar as [csv] writes it: a string as it is, without quotes or
    escapes, null as the empty cell, a boolean as True or False, a number
    through [str].  An attribute called "nested" is the case where the row
    loop goes wrong: the code is evaluated there further down. *)
Theorem compound_values_round_trip :
  forall keys d a j k v,
    attrs_of d = PDict a ->
    keys !! j = Some k ->
    k <> "nested" ->
    lookup_key k a = Some v ->
    exists cells,
      emit_row keys (fieldnames_of keys) (PDict d) = Ok cells
      /\ (is_compound v = true ->
          cells !! (3 + j)%nat = Some (Field (json_dumps v))
          /\ (well_formed v = true -> json_loads (json_dumps v) = Some v))
      /\ (is_compound v = false ->
          cells !! (3 + j)%nat = Some (csv_field v)
          /\ exists content,
               csv_field v = Field content
               /\ (forall s, v = PStr s -> content = s)
               /\ (v = PNone -> content = "")
               /\ (forall b, v = PBool b -> content = if b then "True" else "False")
               /\ (forall n, v = PInt n -> content = int_repr n)
               /\ (forall f, v = PFloat f -> content = float_str f)).
Proof.
  intros keys d a j k v Ha Hj Hk Hv. exists (cells_of keys d a).
  split; [apply emit_row_dict, Ha|].
  assert (Hcell : cells_of keys d a !! (3 + j)%nat = Some (csv_field (shown v))).
  { rewrite (cells_of_lookup _ _ _ _ k (attr_column_name _ _ _ Hj)).
    unfold row_value. rewrite bool_decide_false by exact Hk.
    rewrite bool_decide_true by (eapply list_elem_of_lookup_2, Hj).
    rewrite Hv. reflexivity. }
  split.
  - intros Hc. split; [|apply json_loads_dumps].
    rewrite Hcell. unfold shown. rewrite Hc. reflexivity.
  - intros Hc. split.
    + rewrite Hcell. unfold shown. rewrite Hc. reflexivity.
    + destruct v as [|b|n|f|s| |]; try discriminate Hc; eexists;
        (split; [reflexivity|]); repeat split; intros; simplify_eq; reflexivity.
Qed.

Definition object_with_tags : pyval :=
  PDict [("url", PStr "/t");
         ("attributes",
          PDict [("tags", PList [PStr "a"; PDict [("n", PFloat (FFin "1.5"))]]);
                 ("title", PStr "T")])].

Lemma compound_values_round_trip_witness :
  exists cells,
    emit_row ["tags"; "title"] (fieldnames_of ["tags"; "title"]) object_with_tags = Ok cells
    /\ cells !! 3%nat =
         Some (Field (json_dumps (PList [PStr "a"; PDict [("n", PFloat (FFin "1.5"))]]))).
Proof.
  destruct (compound_values_round_trip ["tags"; "title"]
              [("url", PStr "/t");
               ("attributes",
                PDict [("tags", PList [PStr "a"; PDict [("n", PFloat (FFin "1.5"))]]);
                       ("title", PStr "T")])]
              [("tags", PList [PStr "a"; PDict [("n", PFloat (FFin "1.5"))]]);
               ("title", PStr "T")]
              0%nat "tags" (PList [PStr "a"; PDict [("n", PFloat (FFin "1.5"))]])
              eq_refl eq_refl ltac:(discriminate) eq_refl)
    as (cells & Hrow & Hcompound & _).
  exists cells. split; [exact Hrow|]. exact (proj1 (Hcompound eq_refl)).
Defined.

(** An object whose attribute called "nested" is the list [1], and which
    has no nested array of its own. *)
Definition object_with_nested_list : pyval :=
  PDict [("url", PStr "/n"); ("attributes", PDict [("nested", PList [PInt 1])])].

(** C7. The code at the failing input: the attribute "nested" of the
    object is the list [1], a compound value.  The attribute loop stores
    its JSON text under the column name, and the assignment of
    [row["nested"]] that follows replaces it: the cell of the attribute
    column "nested" (the fourth column) holds the JSON of the object's own
    nested array, the empty array here, and decoding it does not give the
    attribute back. *)
Theorem nested_attribute_value_is_lost :
  forall path (w : world),
    let objects := [object_with_nested_list] in
    attr_columns objects = ["nested"]
    /\ json_dumps (PList [PInt 1]) = "[1]"
    /\ write_objects_to_csv objects path w =
         (Ok tt,
          with_file w path
            [ map Field ["url"; "type"; "exact"; "nested"; "nested"];
              [Field "/n"; Field ""; Field ""; Field "[]"; Field "[]"] ])
    /\ cells_for (attr_columns objects) object_with_nested_list !! 3%nat
         = Some (Field "[]")
    /\ json_loads "[]" = Some (PList [])
    /\ json_loads "[]" <> Some (PList [PInt 1]).
Proof.
  intros path w objects. subst objects.
  assert (Hkeys : attr_columns [object_with_nested_list] = ["nested"])
    by (vm_compute; reflexivity).
  split; [exact Hkeys|]. split; [reflexivity|]. split.
  - rewrite (write_objects_flattens [object_with_nested_list] path w eq_refl), Hkeys.
    reflexivity.
  - rewrite Hkeys. split; [reflexivity|]. split; [reflexivity|discriminate].
Qed.

(** * Further properties of the script *)

(** ** What every run of the paginator keeps *)

(** The headers [build_signed_headers] gives for a GET of [url] at [date]
    with the private key [k]. *)
Definition signed_headers (cfg : config) (k url date : string) : headers :=
  [ ("Content-Type", CONTENT_TYPE);
    ("Date", date);
    ("Authorization",
     "ApiAuth " +:+ format_key (PUBLIC_KEY cfg) +:+ ":" +:+
     compute_digest k "GET" (url_path (urlparse url)) date CONTENT_TYPE);
    ("Accept-Encoding", "gzip, deflate") ].

(** The request is signed for its own URL at [date]. *)
Definition signed_request (cfg : config) (date : string) (req : request) : Prop :=
  exists k, PRIVATE_KEY cfg = Some k
            /\ req_headers req = signed_headers cfg k (req_url req) date.

(** From [w] to [w'] the requests [new] went out, each taking a reading of
    the clock and a reply, and nothing else changed. *)
Definition paged (cfg : config) (w w' : world) (new : list request) : Prop :=
  files w' = files w
  /\ clock w' = clock w
  /\ sent w' = sent w ++ new
  /\ net w' = drop (length new) (net w)
  /\ (forall i req, new !! i = Some req ->
                    signed_request cfg (clock w (ticks w + i)) req)
  /\ (PRIVATE_KEY cfg = None -> new = [])
  /\ (PRIVATE_KEY cfg <> None -> ticks w' = (ticks w + length new)%nat).

Lemma paged_refl cfg w : paged cfg w w [].
Proof.
  unfold paged. rewrite app_nil_r. simpl.
  split; [reflexivity|]. split; [reflexivity|]. split; [reflexivity|].
  split; [reflexivity|]. split; [|split].
  - intros i req H. discriminate.
  - reflexivity.
  - intros _. lia.
Qed.

Lemma paged_trans cfg w w1 w2 n1 n2 :
  paged cfg w w1 n1 -> paged cfg w1 w2 n2 -> paged cfg w w2 (n1 ++ n2).
Proof.
  intros (Hf1 & Hc1 & Hs1 & Hn1 & Hsig1 & Hnone1 & Ht1)
         (Hf2 & Hc2 & Hs2 & Hn2 & Hsig2 & Hnone2 & Ht2).
  unfold paged. rewrite length_app.
  split; [congruence|]. split; [congruence|].
  split; [rewrite Hs2, Hs1, app_assoc; reflexivity|].
  split; [rewrite Hn2, Hn1, drop_drop; reflexivity|].
  split; [|split].
  - intros i req Hi. apply lookup_app_Some in Hi as [Hi|[Hge Hi]].
    + apply Hsig1, Hi.
    + specialize (Hsig2 _ _ Hi). rewrite Hc1 in Hsig2.
      destruct (PRIVATE_KEY cfg) as [k|] eqn:Hk.
      * rewrite Ht1 in Hsig2 by discriminate.
        replace (ticks w + i)%nat with (ticks w + length n1 + (i - length n1))%nat
          by lia. exact Hsig2.
      * rewrite (Hnone2 eq_refl) in Hi. discriminate.
  - intros Hk. rewrite (Hnone1 Hk), (Hnone2 Hk). reflexivity.
  - intros Hk. rewrite (Ht2 Hk), (Ht1 Hk). lia.
Qed.

(** One call of [request_json], case by case. *)
Lemma request_json_cases cfg url w :
  match url, PRIVATE_KEY cfg with
  | PStr u, Some k =>
      snd (request_json cfg url w) = after_request cfg k u w
      /\ fst (request_json cfg url w) =
         match net w with
         | [] => Raise ConnectionError
         | resp :: _ =>
             if status_ok (status_code resp)
             then match json_body resp with
                  | Some v => Ok v
                  | None => Raise JSONDecodeError
                  end
             else Raise (HTTPError (status_code resp))
         end
  | PStr u, None =>
      request_json cfg url w =
      (Raise AttributeError,
       World (clock w) (S (ticks w)) (net w) (sent w) (files w))
  | _, _ => request_json cfg url w = (Raise AttributeError, w)
  end.
Proof.
  destruct url as [| | | |u| |]; try (destruct (PRIVATE_KEY cfg); reflexivity).
  destruct (PRIVATE_KEY cfg) as [k|] eqn:Hk.
  - unfold request_json, bind, build_signed_headers, now_date, requests_get.
    rewrite Hk. simpl. unfold after_request, status_ok.
    destruct (net w) as [|resp rest]; simpl; [auto|].
    unfold raise_for_status, response_json.
    destruct (_ && _)%bool; simpl; [auto|].
    destruct (json_body resp); auto.
  - unfold request_json, bind, build_signed_headers, now_date.
    rewrite Hk. reflexivity.
Qed.

Lemma request_json_paged cfg url w :
  exists new,
    paged cfg w (snd (request_json cfg url w)) new
    /\ (length new <= 1)%nat
    /\ (forall data, fst (request_json cfg url w) = Ok data ->
                     length new = 1%nat /\ net w <> [])
    /\ fst (request_json cfg url w) <> OutOfFuel.
Proof.
  pose proof (request_json_cases cfg url w) as H.
  destruct url as [| | | |u| |];
    try (simpl in H; rewrite H; exists [];
         split; [apply paged_refl|]; simpl; split; [lia|];
         split; [discriminate|discriminate]).
  revert H. destruct (PRIVATE_KEY cfg) as [k|] eqn:Hk; intros H.
  - destruct H as [Hw Ho]. rewrite Hw, Ho.
    exists [Request u (signed_headers cfg k u (clock w (ticks w)))].
    split; [|split; [simpl; lia|split]].
    + unfold paged, after_request. simpl.
      split; [reflexivity|]. split; [reflexivity|]. split; [reflexivity|].
      split; [destruct (net w); reflexivity|]. split; [|split].
      * intros [|i] req Hi; [|discriminate]. injection Hi as <-.
        exists k. rewrite Nat.add_0_r. auto.
      * congruence.
      * intros _. lia.
    + intros data. destruct (net w); [discriminate|]. auto.
    + destruct (net w) as [|resp rest]; [discriminate|].
      destruct (status_ok _); [|discriminate].
      destruct (json_body resp); discriminate.
  - rewrite H. exists []. simpl. split; [|split; [lia|split; discriminate]].
    unfold paged. simpl. rewrite app_nil_r.
    split; [reflexivity|]. split; [reflexivity|]. split; [reflexivity|].
    split; [reflexivity|]. split; [|split].
    + intros i req Hi. discriminate.
    + reflexivity.
    + congruence.
Qed.

Lemma obind_returns {A B} (o : outcome A) (k : A -> outcome B) :
  o <> OutOfFuel -> (forall a, k a <> OutOfFuel) -> obind o k <> OutOfFuel.
Proof. destruct o; simpl; auto. Qed.

Lemma py_get_returns v k fallback : py_get v k fallback <> OutOfFuel.
Proof. destruct v; discriminate. Qed.

Lemma py_iter_returns v : py_iter v <> OutOfFuel.
Proof. destruct v; discriminate. Qed.

Lemma py_len_returns v : py_len v <> OutOfFuel.
Proof. destruct v; discriminate. Qed.

Lemma scan_links_returns links : scan_links links <> OutOfFuel.
Proof.
  induction links as [|x l IHl]; [discriminate|]. simpl.
  apply obind_returns; [apply py_get_returns|]. intros rel.
  destruct (equals_str rel "next"); [apply py_get_returns|exact IHl].
Qed.

Lemma read_page_never_out_of_fuel (data : pyval) : read_page data <> OutOfFuel.
Proof.
  unfold read_page, page_objects_of, find_next_link.
  repeat (apply obind_returns;
          [first [apply py_get_returns|apply py_iter_returns|apply py_len_returns
                 |apply scan_links_returns|discriminate|idtac]
          |intros ?]);
    try discriminate.
  all: repeat (apply obind_returns;
          [first [apply py_get_returns|apply py_iter_returns|apply py_len_returns
                 |apply scan_links_returns|discriminate|idtac]
          |intros ?]); try discriminate; try apply scan_links_returns.
Qed.

(** One turn of the loop, whatever the reply. *)
Lemma fetch_pages_unfold cfg fuel url acc w :
  fetch_pages cfg (S fuel) url acc w =
  if truthy url then
    match request_json cfg url w with
    | (Ok data, w1) =>
        match read_page data with
        | Ok (items, next_link) =>
            if truthy next_link then fetch_pages cfg fuel next_link (acc ++ items) w1
            else (Ok (acc ++ items), w1)
        | Raise e => (Raise e, w1)
        | OutOfFuel => (OutOfFuel, w1)
        end
    | (Raise e, w1) => (Raise e, w1)
    | (OutOfFuel, w1) => (OutOfFuel, w1)
    end
  else (Ok acc, w).
Proof.
  destruct (truthy url) eqn:Hurl; [|simpl; rewrite Hurl; reflexivity].
  destruct (request_json cfg url w) as [[data|e|] w1] eqn:Hreq.
  - apply (fetch_pages_step _ _ _ _ _ _ _ Hurl Hreq).
  - apply (fetch_pages_raise _ _ _ _ _ _ _ Hurl Hreq).
  - simpl. rewrite Hurl. unfold bind at 1. rewrite Hreq. reflexivity.
Qed.

Lemma fetch_pages_paged cfg fuel :
  forall url acc w,
    exists new,
      paged cfg w (snd (fetch_pages cfg fuel url acc w)) new
      /\ (length new <= S (length (net w)))%nat
      /\ ((length (net w) < fuel)%nat ->
          fst (fetch_pages cfg fuel url acc w) <> OutOfFuel)
      /\ (forall objs, fst (fetch_pages cfg fuel url acc w) = Ok objs ->
                       exists more, objs = acc ++ more).
Proof.
  induction fuel as [|fuel IH]; intros url acc w.
  - exists []. simpl. destruct (truthy url); simpl;
      (split; [apply paged_refl|]); (split; [lia|]);
      (split; [intros; lia|]); intros objs [= <-]; try discriminate.
    exists []. rewrite app_nil_r. reflexivity.
  - rewrite fetch_pages_unfold. destruct (truthy url).
    2:{ exists []. simpl. split; [apply paged_refl|]. split; [lia|].
        split; [discriminate|]. intros objs [= <-]. exists [].
        rewrite app_nil_r. reflexivity. }
    destruct (request_json_paged cfg url w) as (n1 & Hp1 & Hl1 & Hok & Hnf).
    destruct (request_json cfg url w) as [[data|e|] w1] eqn:Hreq; simpl in *.
    + destruct (Hok data eq_refl) as [Hone Hnet].
      pose proof (read_page_never_out_of_fuel data) as Hrp.
      destruct (read_page data) as [[items nl]|e|]; [|..].
      * destruct (truthy nl).
        -- destruct (IH nl (acc ++ items) w1) as (n2 & Hp2 & Hl2 & Hf2 & Hacc).
           exists (n1 ++ n2). split; [apply (paged_trans _ _ _ _ _ _ Hp1 Hp2)|].
           assert (Hnet1 : length (net w1) = (length (net w) - 1)%nat).
           { destruct Hp1 as (_ & _ & _ & Hn & _). rewrite Hn, length_drop, Hone.
             reflexivity. }
           assert (Hpos : (0 < length (net w))%nat).
           { destruct (net w); [congruence|simpl; lia]. }
           rewrite length_app. split; [lia|]. split.
           ++ intros Hlt. apply Hf2. lia.
           ++ intros objs Hobjs. destruct (Hacc objs Hobjs) as [more ->].
              exists (items ++ more). rewrite app_assoc. reflexivity.
        -- exists n1. split; [exact Hp1|]. split; [lia|]. split; [discriminate|].
           intros objs [= <-]. eauto.
      * exists n1. split; [exact Hp1|]. split; [lia|]. split; discriminate.
      * congruence.
    + exists n1. split; [exact Hp1|]. split; [lia|]. split; discriminate.
    + congruence.
Qed.

(** X1. The paginator always returns: with the fuel [iterate_all_objects]
    gives it the loop never runs out, it issues at most one request more
    than there are replies, every request takes one reply off the network,
    and it leaves the files and the clock's readings as they were. *)
Theorem paginator_returns_and_keeps_files :
  forall cfg (w : world),
    let r := iterate_all_objects cfg w in
    fst r <> OutOfFuel
    /\ files (snd r) = files w
    /\ exists new,
         sent (snd r) = sent w ++ new
         /\ (length new <= S (length (net w)))%nat
         /\ net (snd r) = drop (length new) (net w).
Proof.
  intros cfg w r. unfold r, iterate_all_objects.
  destruct (fetch_pages_paged cfg (S (length (net w)))
              (PStr (build_first_page_url cfg)) [] w)
    as (new & (Hf & _ & Hs & Hn & _) & Hl & Hfuel & _).
  split; [apply Hfuel; lia|]. split; [exact Hf|].
  exists new. auto.
Qed.

(** X2. Every request the paginator issues is a signed GET for the path of
    its own URL, with the four headers of the signer, and the i-th request
    of a run carries the date read from the clock at the i-th reading of
    that run: each request is signed afresh, at its own time. *)
Theorem every_request_freshly_signed :
  forall cfg (w : world),
    let r := iterate_all_objects cfg w in
    exists new,
      sent (snd r) = sent w ++ new
      /\ forall i req,
           new !! i = Some req ->
           exists k,
             PRIVATE_KEY cfg = Some k
             /\ map fst (req_headers req) =
                  ["Content-Type"; "Date"; "Authorization"; "Accept-Encoding"]
             /\ header "Date" (req_headers req) = Some (clock w (ticks w + i))
             /\ header "Content-Type" (req_headers req) = Some CONTENT_TYPE
             /\ header "Accept-Encoding" (req_headers req) = Some "gzip, deflate"
             /\ header "Authorization" (req_headers req) =
                  Some ("ApiAuth " +:+ format_key (PUBLIC_KEY cfg) +:+ ":" +:+
                        compute_digest k "GET" (url_path (urlparse (req_url req)))
                          (clock w (ticks w + i)) CONTENT_TYPE).
Proof.
  intros cfg w r. unfold r, iterate_all_objects.
  destruct (fetch_pages_paged cfg (S (length (net w)))
              (PStr (build_first_page_url cfg)) [] w)
    as (new & (_ & _ & Hs & _ & Hsig & _) & _).
  exists new. split; [exact Hs|]. intros i req Hi.
  destruct (Hsig i req Hi) as (k & Hk & Hh). exists k. rewrite Hh.
  repeat split; try exact Hk; reflexivity.
Qed.

(** ** Replies that end a run with an error *)

(** What [request_json] raises on a reply: the status is looked at first,
    the body is decoded only when the status lets it through. *)
Definition reply_failure (resp : response) : option exn :=
  if status_ok (status_code resp)
  then match json_body resp with
       | Some _ => None
       | None => Some JSONDecodeError
       end
  else Some (HTTPError (status_code resp)).

(** What the next request runs into on the replies still to come. *)
Definition first_failure (replies : list response) : option exn :=
  match replies with
  | [] => Some ConnectionError
  | resp :: _ => reply_failure resp
  end.

Lemma request_json_failure cfg k u w e :
  PRIVATE_KEY cfg = Some k ->
  first_failure (net w) = Some e ->
  request_json cfg (PStr u) w = (Raise e, after_request cfg k u w).
Proof.
  intros Hk He. pose proof (request_json_cases cfg (PStr u) w) as H.
  cbv beta iota in H. rewrite Hk in H. destruct H as [Hw Ho].
  destruct (request_json cfg (PStr u) w) as [o w1]. simpl in Hw, Ho. subst w1.
  f_equal. rewrite Ho. unfold first_failure, reply_failure in He.
  destruct (net w) as [|resp rest]; [congruence|].
  destruct (status_ok (status_code resp)); [|congruence].
  destruct (json_body resp); congruence.
Qed.

Lemma truthy_url (u : string) : u <> "" -> truthy (PStr u) = true.
Proof. intros Hu. simpl. apply String.eqb_neq in Hu. rewrite Hu. reflexivity. Qed.

Lemma fetch_pages_fails cfg k :
  PRIVATE_KEY cfg = Some k ->
  forall pages fuel u acc w rest e,
    u <> "" ->
    forallb has_next pages = true ->
    net w = map reply_of pages ++ rest ->
    first_failure rest = Some e ->
    (length pages < fuel)%nat ->
    let r := fetch_pages cfg fuel (PStr u) acc w in
    fst r = Raise e
    /\ map req_url (sent (snd r)) = map req_url (sent w) ++ u :: map next_url pages
    /\ net (snd r) = tl rest
    /\ files (snd r) = files w.
Proof.
  intros Hk. induction pages as [|p pages IH];
    intros fuel u acc w rest e Hu Hall Hnet He Hfuel r; subst r;
    (destruct fuel as [|fuel]; [simpl in Hfuel; lia|]).
  - simpl in Hnet. rewrite <- Hnet in He.
    rewrite (fetch_pages_raise cfg fuel (PStr u) acc w _ _ (truthy_url u Hu)
               (request_json_failure cfg k u w e Hk He)).
    simpl. rewrite map_app, Hnet. auto.
  - simpl in Hnet, Hall. apply andb_prop in Hall as [Hp Hall].
    rewrite (fetch_pages_step cfg fuel (PStr u) acc w (encode_page p)
               (after_request cfg k u w) (truthy_url u Hu)
               (request_json_ok cfg k u w _ _ _ _ Hk Hnet eq_refl)).
    rewrite read_page_encoded, truthy_next, Hp.
    destruct (has_next_url p Hp) as [Hh Hne]. rewrite Hh.
    assert (Hnet' : net (after_request cfg k u w) = map reply_of pages ++ rest).
    { simpl. rewrite Hnet. reflexivity. }
    destruct (IH fuel (next_url p) (acc ++ objects p) (after_request cfg k u w)
                rest e Hne Hall Hnet' He ltac:(simpl in Hfuel; lia))
      as (Hr & Hs & Hn & Hf).
    split; [exact Hr|]. split; [|split; [exact Hn|exact Hf]].
    rewrite Hs. simpl. rewrite map_app, <- app_assoc. reflexivity.
Qed.

Lemma export_catalog_checked cfg w :
  key_unset (PUBLIC_KEY cfg) = false ->
  key_unset (PRIVATE_KEY cfg) = false ->
  export_catalog cfg w =
  match iterate_all_objects cfg w with
  | (Ok objs, w1) => write_objects_to_csv objs (OUTPUT_CSV cfg) w1
  | (Raise e, w1) => (Raise e, w1)
  | (OutOfFuel, w1) => (OutOfFuel, w1)
  end.
Proof.
  intros Hpub Hpriv. unfold export_catalog. rewrite Hpub, Hpriv.
  unfold bind. destruct (iterate_all_objects cfg w) as [[objs|e|] w1]; reflexivity.
Qed.

(** X3. When the replies run out, or a reply comes with an error status
    (400 to 599) or with a body that is not JSON, after pages that all carry
    a next link, the run ends with that error (a connection error, the HTTP
    error of that status, a decoding error) at the request that met it: the
    requests up to that one went out, an error status wins over the body
    (it is raised whether or not the body is JSON), the objects of the pages
    already fetched are dropped, and the export leaves every file as it
    was. *)
Theorem failed_reply_aborts_export :
  forall cfg k pages rest e (w : world),
    PRIVATE_KEY cfg = Some k ->
    key_unset (PUBLIC_KEY cfg) = false ->
    key_unset (PRIVATE_KEY cfg) = false ->
    forallb has_next pages = true ->
    net w = map reply_of pages ++ rest ->
    first_failure rest = Some e ->
    let r := export_catalog cfg w in
    fst (iterate_all_objects cfg w) = Raise e
    /\ fst r = Raise e
    /\ map req_url (sent (snd r)) =
         map req_url (sent w) ++ build_first_page_url cfg :: map next_url pages
    /\ net (snd r) = tl rest
    /\ files (snd r) = files w.
Proof.
  intros cfg k pages rest e w Hk Hpub Hpriv Hall Hnet He r. subst r.
  rewrite (export_catalog_checked cfg w Hpub Hpriv). unfold iterate_all_objects.
  destruct (fetch_pages_fails cfg k Hk pages (S (length (net w)))
              (build_first_page_url cfg) [] w rest e
              (first_page_url_not_empty cfg) Hall Hnet He)
    as (Hr & Hs & Hn & Hf).
  { rewrite Hnet, length_app, length_map. lia. }
  destruct (fetch_pages _ _ _ _ w) as [o w1]. simpl in *. subst o. simpl. auto.
Qed.

Definition sample_failing_world : world :=
  World sample_clock 0
    (map reply_of (take 2 sample_pages)
       ++ [Response 503 "{}" (Some (PDict [])); reply_of (Page None [] [])])
    [] ∅.

Lemma failed_reply_aborts_export_witness :
  fst (export_catalog sample_config sample_failing_world) = Raise (HTTPError 503)
  /\ files (snd (export_catalog sample_config sample_failing_world)) = ∅.
Proof.
  pose proof (failed_reply_aborts_export sample_config "secret" (take 2 sample_pages)
                [Response 503 "{}" (Some (PDict [])); reply_of (Page None [] [])]
                (HTTPError 503) sample_failing_world
                eq_refl eq_refl eq_refl eq_refl eq_refl eq_refl) as H.
  exact (conj (proj1 (proj2 H)) (proj2 (proj2 (proj2 (proj2 H))))).
Defined.

(** ** Pages of another shape *)

(** A value [len] and iteration accept. *)
Definition is_sized (v : pyval) : bool :=
  match v with
  | PList _ | PStr _ | PDict _ => true
  | _ => false
  end.

Lemma read_page_not_dict (data : pyval) :
  (forall d, data <> PDict d) -> read_page data = Raise AttributeError.
Proof. destruct data; try reflexivity. intros H. destruct (H _ eq_refl). Qed.

Lemma read_page_unsized (d : list (string * pyval)) (x : pyval) :
  lookup_key "objects" d = Some x ->
  truthy x = true ->
  is_sized x = false ->
  read_page (PDict d) = Raise TypeError.
Proof.
  intros Hx Ht Hs. unfold read_page, page_objects_of. simpl. rewrite Hx. simpl.
  unfold py_or. rewrite Ht. destruct x; try discriminate; reflexivity.
Qed.

(** X4. A reply whose body is valid JSON of another shape ends the run
    after its request went out: a body that is not an object (an array, a
    string, a number, null) raises AttributeError at [data.get]; an object
    whose "objects" is a number other than zero or [true] raises TypeError
    at [len].  In both cases nothing of the page is kept. *)
Theorem ill_shaped_page_raises :
  forall cfg k u fuel acc (w : world) st txt data rest e,
    PRIVATE_KEY cfg = Some k ->
    u <> "" ->
    status_ok st = true ->
    net w = Response st txt (Some data) :: rest ->
    ((forall d, data <> PDict d) /\ e = AttributeError)
    \/ (exists d x, data = PDict d /\ lookup_key "objects" d = Some x
                    /\ truthy x = true /\ is_sized x = false /\ e = TypeError) ->
    fetch_pages cfg (S fuel) (PStr u) acc w = (Raise e, after_request cfg k u w).
Proof.
  intros cfg k u fuel acc w st txt data rest e Hk Hu Hst Hnet Hshape.
  rewrite (fetch_pages_step cfg fuel (PStr u) acc w data (after_request cfg k u w)
             (truthy_url u Hu) (request_json_ok cfg k u w _ _ _ _ Hk Hnet Hst)).
  destruct Hshape as [[Hnd ->]|(d & x & -> & Hx & Ht & Hs & ->)].
  - rewrite (read_page_not_dict data Hnd). reflexivity.
  - rewrite (read_page_unsized d x Hx Ht Hs). reflexivity.
Qed.

Lemma ill_shaped_page_raises_witness :
  fetch_pages sample_config 1 (PStr "https://x/start") []
    (with_net sample_world [Response 200 "[]" (Some (PList []))]) =
  (Raise AttributeError,
   after_request sample_config "secret" "https://x/start"
     (with_net sample_world [Response 200 "[]" (Some (PList []))])).
Proof.
  apply (ill_shaped_page_raises sample_config "secret" "https://x/start" 0%nat []
           (with_net sample_world [Response 200 "[]" (Some (PList []))])
           200 "[]" (PList []) [] AttributeError
           eq_refl ltac:(discriminate) eq_refl eq_refl).
  left. split; [discriminate|reflexivity].
Defined.

(** X5. When the [href] of the next link is not a string but still counts
    as true (a number other than zero, [true], a list or an object that is
    not empty), the page is taken and the loop goes on with that value as
    the URL; the next turn raises AttributeError at [urlparse], before the
    clock is read and before anything is sent: one request went out in
    all. *)
Theorem non_text_href_aborts_next_turn :
  forall cfg k u fuel acc (w : world) st txt data items h rest,
    PRIVATE_KEY cfg = Some k ->
    u <> "" ->
    status_ok st = true ->
    net w = Response st txt (Some data) :: rest ->
    read_page data = Ok (items, h) ->
    truthy h = true ->
    (forall s, h <> PStr s) ->
    fetch_pages cfg (S (S fuel)) (PStr u) acc w =
      (Raise AttributeError, after_request cfg k u w).
Proof.
  intros cfg k u fuel acc w st txt data items h rest Hk Hu Hst Hnet Hrp Ht Hh.
  rewrite (fetch_pages_step cfg (S fuel) (PStr u) acc w data (after_request cfg k u w)
             (truthy_url u Hu) (request_json_ok cfg k u w _ _ _ _ Hk Hnet Hst)).
  rewrite Hrp, Ht. apply (fetch_pages_raise _ _ _ _ _ _ _ Ht).
  destruct h; try reflexivity. destruct (Hh _ eq_refl).
Qed.

Definition sample_numeric_href : pyval :=
  PDict [("objects", PList [PInt 1]);
         ("links", PList [PDict [("rel", PStr "next"); ("href", PInt 7)]])].

Lemma non_text_href_aborts_next_turn_witness :
  fetch_pages sample_config 2 (PStr "https://x/start") []
    (with_net sample_world [Response 200 "" (Some sample_numeric_href)]) =
  (Raise AttributeError,
   after_request sample_config "secret" "https://x/start"
     (with_net sample_world [Response 200 "" (Some sample_numeric_href)])).
Proof.
  apply (non_text_href_aborts_next_turn sample_config "secret" "https://x/start" 0%nat []
           (with_net sample_world [Response 200 "" (Some sample_numeric_href)])
           200 "" sample_numeric_href [PInt 1] (PInt 7) []
           eq_refl ltac:(discriminate) eq_refl eq_refl eq_refl eq_refl).
  discriminate.
Defined.

(** ** What an export leaves behind *)

Lemma write_objects_cases objects path w :
  write_objects_to_csv objects path w =
  if forallb flattens objects
  then (Ok tt, with_file w path
                 (map Field (fieldnames_of (attr_columns objects))
                    :: map (cells_for (attr_columns objects)) objects))
  else (Raise AttributeError, w).
Proof.
  destruct (forallb flattens objects) eqn:Hall.
  - apply write_objects_flattens, Hall.
  - apply write_objects_fails, Hall.
Qed.

(** X6. The output file is opened only after every page was fetched and
    the columns were collected.  Whatever happens, no file other than the
    output file is touched.  A failure of the configuration check, of the
    signer or of the paginator, and an object that cannot be flattened
    (found when the columns are collected), end the export with that error
    and leave every file as it was, the output file included.  An export
    that returns has left in the output file the header and one row per
    object the paginator returned.  Nothing is said here of a failure
    while the rows are written, which the model of the file does not have:
    that is the one place where a run of the script can leave a file
    written in part.  The directory the script makes for the file is not
    part of the files modelled. *)
Theorem export_opens_file_after_fetch_and_columns :
  forall cfg (w : world),
    let r := export_catalog cfg w in
    let fetched := iterate_all_objects cfg w in
    (forall path, path <> OUTPUT_CSV cfg -> files (snd r) !! path = files w !! path)
    /\ (key_unset (PUBLIC_KEY cfg) = true \/ key_unset (PRIVATE_KEY cfg) = true ->
        files (snd r) = files w)
    /\ (forall e, fst fetched = Raise e ->
                  files (snd r) = files w
                  /\ (key_unset (PUBLIC_KEY cfg) = false ->
                      key_unset (PRIVATE_KEY cfg) = false -> fst r = Raise e))
    /\ (forall objs, fst fetched = Ok objs -> forallb flattens objs = false ->
                     files (snd r) = files w
                     /\ (key_unset (PUBLIC_KEY cfg) = false ->
                         key_unset (PRIVATE_KEY cfg) = false ->
                         fst r = Raise AttributeError))
    /\ (fst r = Ok tt ->
        exists objs,
          fst fetched = Ok objs
          /\ files (snd r) !! OUTPUT_CSV cfg =
               Some (map Field (fieldnames_of (attr_columns objs))
                       :: map (cells_for (attr_columns objs)) objs)).
Proof.
  intros cfg w r fetched. subst r fetched. unfold export_catalog.
  destruct (key_unset (PUBLIC_KEY cfg)) eqn:Hpub.
  { simpl. repeat split; auto; discriminate. }
  destruct (key_unset (PRIVATE_KEY cfg)) eqn:Hpriv.
  { simpl. repeat split; auto; discriminate. }
  unfold bind, iterate_all_objects.
  destruct (fetch_pages_paged cfg (S (length (net w)))
              (PStr (build_first_page_url cfg)) [] w)
    as (new & (Hf & _) & _).
  destruct (fetch_pages _ _ _ _ w) as [[objs|e|] w1]; simpl in *.
  - rewrite write_objects_cases. destruct (forallb flattens objs) eqn:Hall; simpl.
    + split; [intros path Hp; rewrite lookup_insert_ne by congruence;
              rewrite Hf; reflexivity|].
      split; [intros [H|H]; discriminate|]. split; [discriminate|].
      split; [intros objs' [= <-] Hno; congruence|].
      intros _. exists objs. rewrite lookup_insert_eq. auto.
    + split; [rewrite Hf; auto|].
      split; [intros [H|H]; discriminate|]. split; [discriminate|].
      split; [intros objs' _ _; auto|discriminate].
  - split; [rewrite Hf; auto|].
    split; [intros [H|H]; discriminate|].
    split; [intros e' [= <-]; auto|]. split; [discriminate|discriminate].
  - split; [rewrite Hf; auto|].
    split; [intros [H|H]; discriminate|].
    split; [discriminate|]. split; [discriminate|discriminate].
Qed.

Lemma export_opens_file_after_fetch_and_columns_witness :
  files (snd (export_catalog sample_config sample_failing_world)) = ∅
  /\ fst (export_catalog sample_config sample_failing_world) = Raise (HTTPError 503).
Proof.
  pose proof (proj1 (proj2 (proj2 (export_opens_file_after_fetch_and_columns
                                     sample_config sample_failing_world)))
                (HTTPError 503) ltac:(vm_compute; reflexivity)) as [Hfiles Hraise].
  exact (conj Hfiles (Hraise eq_refl eq_refl)).
Defined.

(** X7. The flattener touches nothing but its file: it sends nothing,
    takes no reply and does not read the clock, and every other file is left
    as it was.  The file is written anew: what it held before does not
    matter, so writing the same objects a second time changes nothing. *)
Theorem writer_replaces_only_its_file :
  forall objects path (w : world),
    let r := write_objects_to_csv objects path w in
    (clock (snd r) = clock w /\ ticks (snd r) = ticks w
     /\ net (snd r) = net w /\ sent (snd r) = sent w)
    /\ (forall other, other <> path -> files (snd r) !! other = files w !! other)
    /\ (forall old,
          let r' := write_objects_to_csv objects path (with_file w path old) in
          fst r' = fst r /\ (fst r = Ok tt -> snd r' = snd r))
    /\ write_objects_to_csv objects path (snd r) = r.
Proof.
  intros objects path w r. subst r. rewrite !write_objects_cases.
  destruct (forallb flattens objects) eqn:Hall; cbv zeta; simpl.
  - split; [auto|]. split; [|split].
    + intros other Ho. rewrite lookup_insert_ne by congruence. reflexivity.
    + intros old. rewrite write_objects_cases, Hall. simpl.
      split; [reflexivity|]. intros _. unfold with_file. simpl.
      rewrite insert_insert_eq. reflexivity.
    + unfold with_file. simpl. rewrite insert_insert_eq. reflexivity.
  - split; [auto|]. split; [auto|]. split.
    + intros old. rewrite write_objects_cases, Hall. simpl.
      split; [reflexivity|discriminate].
    + reflexivity.
Qed.

(** ** More on the rows *)

Lemma nested_column_position (keys : list string) :
  fieldnames_of keys !! (3 + length keys)%nat = Some "nested".
Proof.
  unfold fieldnames_of. change (["url"; "type"; "exact"] ++ ?l) with
    ("url" :: "type" :: "exact" :: l). simpl.
  rewrite lookup_app_r by lia. rewrite Nat.sub_diag. reflexivity.
Qed.

(** X8. The last column of every row is the nested column, and its cell
    (like the cell of every column that bears the name "nested") holds JSON
    text that decodes back to the object's nested value, the empty array
    when the object has none: for values as the decoder builds them nothing
    of the nested data is lost in the file. *)
Theorem nested_cell_round_trip :
  forall keys d a j,
    attrs_of d = PDict a ->
    fieldnames_of keys !! j = Some "nested" ->
    well_formed (default (PList []) (lookup_key "nested" d)) = true ->
    fieldnames_of keys !! (3 + length keys)%nat = Some "nested"
    /\ exists cells text,
         emit_row keys (fieldnames_of keys) (PDict d) = Ok cells
         /\ cells !! j = Some (Field text)
         /\ json_loads text = Some (default (PList []) (lookup_key "nested" d)).
Proof.
  intros keys d a j Ha Hj Hwf. split; [apply nested_column_position|].
  exists (cells_of keys d a), (json_dumps (default (PList []) (lookup_key "nested" d))).
  split; [apply emit_row_dict, Ha|]. split; [|apply json_loads_dumps, Hwf].
  rewrite (cells_of_lookup _ _ _ _ _ Hj). unfold row_value.
  rewrite bool_decide_true by reflexivity. reflexivity.
Qed.

Definition sample_nested_object : list (string * pyval) :=
  [("url", PStr "/a"); ("attributes", PDict [("title", PStr "A")]);
   ("nested", PList [PDict [("type", PStr "brand"); ("rank", PFloat (FFin "1.5"))]])].

Lemma nested_cell_round_trip_witness :
  exists cells text,
    emit_row ["title"] (fieldnames_of ["title"]) (PDict sample_nested_object) = Ok cells
    /\ cells !! 4%nat = Some (Field text)
    /\ json_loads text =
         Some (PList [PDict [("type", PStr "brand"); ("rank", PFloat (FFin "1.5"))]]).
Proof.
  exact (proj2 (nested_cell_round_trip ["title"] sample_nested_object
                  [("title", PStr "A")] 4%nat eq_refl eq_refl eq_refl)).
Defined.

Definition fixed_columns : list (string * nat) :=
  [("url", 0%nat); ("type", 1%nat); ("exact", 2%nat)].

Lemma fixed_column_name (keys : list string) (K : string) (j : nat) :
  (K, j) ∈ fixed_columns -> fieldnames_of keys !! j = Some K /\ K <> "nested".
Proof.
  unfold fixed_columns. intros H.
  repeat (apply elem_of_cons in H as [[= -> ->]|H]; [split; [reflexivity|discriminate]|]).
  set_solver.
Qed.

Lemma fixed_cell keys d a (K : string) (j : nat) :
  (K, j) ∈ fixed_columns ->
  cells_of keys d a !! j =
  Some (csv_field (if bool_decide (K ∈ keys)
                   then shown (default PNone (lookup_key K a))
                   else default (PStr "") (lookup_key K d))).
Proof.
  intros HK. destruct (fixed_column_name keys K j HK) as [Hj Hn].
  rewrite (cells_of_lookup _ _ _ _ _ Hj). unfold row_value.
  rewrite bool_decide_false by exact Hn.
  destruct (bool_decide (K ∈ keys)); [reflexivity|].
  unfold fixed_columns in HK.
  repeat (apply elem_of_cons in HK as [[= -> ->]|HK]; [reflexivity|]).
  set_solver.
Qed.

(** X9. The cells under url, type and exact.  When no object has an
    attribute of that name, the cell is the object's own field, written as
    [csv] writes it, and empty when the object has no such field.  When
    some object has an attribute of that name, the column is an attribute
    column too, and every object without that attribute gets the empty cell
    there, whatever its own field holds: one object with an attribute
    called "url" blanks the url of all objects that lack it. *)
Theorem fixed_cells_kept_or_blanked :
  forall objects i d a K j,
    forallb flattens objects = true ->
    objects !! i = Some (PDict d) ->
    attrs_of d = PDict a ->
    (K, j) ∈ fixed_columns ->
    let keys := attr_columns objects in
    let rows := map (cells_for keys) objects in
    exists cells,
      rows !! i = Some cells
      /\ emit_row keys (fieldnames_of keys) (PDict d) = Ok cells
      /\ ((forall obj, obj ∈ objects -> K ∉ keys_of obj) ->
          cells !! j = Some (csv_field (default (PStr "") (lookup_key K d))))
      /\ (forall other,
            other ∈ objects -> K ∈ keys_of other -> K ∉ map fst a ->
            cells !! j = Some (Field "")).
Proof.
  intros objects i d a K j Hall Hi Ha HK keys rows.
  exists (cells_of keys d a). split; [|split; [apply emit_row_dict, Ha|split]].
  - subst rows. change (map ?f ?l) with (f <$> l).
    rewrite list_lookup_fmap, Hi. simpl. rewrite Ha. reflexivity.
  - intros Hnone. rewrite (fixed_cell _ _ _ _ _ HK).
    rewrite bool_decide_false; [reflexivity|].
    intros Hin. apply attr_columns_elem_of in Hin as (obj & Hobj & Hk).
    exact (Hnone obj Hobj Hk).
  - intros other Hother Hk Hmiss. rewrite (fixed_cell _ _ _ _ _ HK).
    rewrite bool_decide_true by (apply attr_columns_elem_of; eauto).
    rewrite (lookup_key_None _ _ Hmiss). reflexivity.
Qed.

Definition sample_url_objects : list pyval :=
  [ PDict [("url", PStr "/a"); ("attributes", PDict [("url", PStr "https://shop/a")])];
    PDict [("url", PStr "/b"); ("attributes", PDict [("title", PStr "B")])] ].

Lemma fixed_cells_kept_or_blanked_witness :
  exists cells,
    map (cells_for (attr_columns sample_url_objects)) sample_url_objects !! 1%nat
      = Some cells
    /\ cells !! 0%nat = Some (Field "").
Proof.
  destruct (fixed_cells_kept_or_blanked sample_url_objects 1%nat
              [("url", PStr "/b"); ("attributes", PDict [("title", PStr "B")])]
              [("title", PStr "B")] "url" 0%nat eq_refl eq_refl eq_refl
              ltac:(unfold fixed_columns; set_solver))
    as (cells & Hrow & _ & _ & Hblank).
  exists cells. split; [exact Hrow|].
  apply (Hblank (PDict [("url", PStr "/a");
                        ("attributes", PDict [("url", PStr "https://shop/a")])])).
  - unfold sample_url_objects. set_solver.
  - simpl. set_solver.
  - simpl. intros H. apply list_elem_of_singleton in H. discriminate.
Defined.

Lemma csv_field_shown (v : pyval) : exists s, csv_field (shown v) = Field s.
Proof. unfold shown. destruct v; simpl; eauto. Qed.

(** X10. Lists and dictionaries reach the file as JSON only: every cell of
    an attribute column and of the nested column is text.  A value written
    through Python's [repr] instead can only stand under url, type or exact,
    and only when the object's own field of that name is a list or a
    dictionary and no object has an attribute of that name. *)
Theorem compound_values_are_json_except_fixed :
  forall keys d a j c,
    attrs_of d = PDict a ->
    cells_of keys d a !! j = Some c ->
    emit_row keys (fieldnames_of keys) (PDict d) = Ok (cells_of keys d a)
    /\ ((exists s, c = Field s)
        \/ (exists K v, (K, j) ∈ fixed_columns /\ (K ∉ keys)
                        /\ lookup_key K d = Some v /\ is_compound v = true
                        /\ c = FieldRepr v)).
Proof.
  intros keys d a j c Ha Hc. split; [apply emit_row_dict, Ha|].
  destruct (fieldnames_of keys !! j) as [K|] eqn:Hj.
  2:{ apply lookup_lt_Some in Hc. apply lookup_ge_None in Hj.
      unfold cells_of in Hc. rewrite length_map in Hc. lia. }
  rewrite (cells_of_lookup _ _ _ _ _ Hj) in Hc. injection Hc as <-.
  unfold row_value.
  destruct (bool_decide (K = "nested")) eqn:Hn; [left; simpl; eauto|].
  apply bool_decide_eq_false in Hn.
  destruct (bool_decide (K ∈ keys)) eqn:Hin; [left; apply csv_field_shown|].
  apply bool_decide_eq_false in Hin.
  assert (Hfixed : forall K' j', (K', j') ∈ fixed_columns -> K = K' -> j = j' ->
            (exists s, csv_field (default (PStr "") (lookup_key K d)) = Field s)
            \/ (exists K0 v, (K0, j) ∈ fixed_columns /\ (K0 ∉ keys)
                  /\ lookup_key K0 d = Some v /\ is_compound v = true
                  /\ csv_field (default (PStr "") (lookup_key K d)) = FieldRepr v)).
  { intros K' j' HK' -> ->. destruct (lookup_key K' d) as [v|] eqn:Hv; [|left; simpl; eauto].
    destruct v; simpl; eauto; right; eexists K', _; repeat split; eauto. }
  assert (Hpos : (j < 3)%nat \/ (3 <= j)%nat) by lia.
  destruct Hpos as [Hlt|Hge].
  - destruct j as [|[|[|j]]]; [| | |lia]; simpl in Hj; injection Hj as <-; simpl.
    + apply (Hfixed "url" 0%nat); unfold fixed_columns; set_solver.
    + apply (Hfixed "type" 1%nat); unfold fixed_columns; set_solver.
    + apply (Hfixed "exact" 2%nat); unfold fixed_columns; set_solver.
  - exfalso. unfold fieldnames_of in Hj.
    change (["url"; "type"; "exact"] ++ ?l) with ("url" :: "type" :: "exact" :: l) in Hj.
    destruct j as [|[|[|j]]]; try lia. simpl in Hj.
    apply lookup_app_Some in Hj as [Hj|[_ Hj]].
    + apply Hin. eapply list_elem_of_lookup_2, Hj.
    + destruct (j - length keys)%nat; [|discriminate]. simpl in Hj.
      injection Hj as <-. apply Hn. reflexivity.
Qed.

Lemma compound_values_are_json_except_fixed_witness :
  (exists s, FieldRepr (PList [PStr "/a"]) = Field s)
  \/ (exists K v, (K, 0%nat) ∈ fixed_columns /\ (K ∉ ["title"])
                  /\ lookup_key K [("url", PList [PStr "/a"])] = Some v
                  /\ is_compound v = true
                  /\ FieldRepr (PList [PStr "/a"]) = FieldRepr v).
Proof.
  exact (proj2 (compound_values_are_json_except_fixed ["title"]
                  [("url", PList [PStr "/a"])] [] 0%nat (FieldRepr (PList [PStr "/a"]))
                  eq_refl eq_refl)).
Defined.

(** ** The keys of a row *)

Lemma fill_attributes_dom attrs (keys : list string) :
  forall row row',
    fill_attributes attrs keys row = Ok row' ->
    dom row' = dom row ∪ list_to_set keys.
Proof.
  induction keys as [|k keys IH]; intros row row'; simpl.
  - intros [= <-]. set_solver.
  - unfold attr_get. destruct attrs as [| | | | | |a]; simpl; try discriminate.
    intros H. rewrite (IH _ _ H), dom_insert_L. set_solver.
Qed.

Lemma blank_row_dom (fieldnames : list string) :
  dom (blank_row fieldnames) = list_to_set fieldnames.
Proof.
  apply set_eq. intros k. rewrite elem_of_dom, blank_row_lookup, elem_of_list_to_set.
  destruct (bool_decide (k ∈ fieldnames)) eqn:Hk.
  - apply bool_decide_eq_true in Hk. split; [auto|eauto].
  - apply bool_decide_eq_false in Hk. split; [intros [x Hx]; discriminate|tauto].
Qed.

(** X11. The field check of [DictWriter] never fires on a row of the
    flattener.  Whatever the attribute keys and whatever the object,
    whenever the row loop has built the row of an object, the keys of that
    row are exactly the names in the header: no key is outside it, which
    is what [DictWriter] refuses with ValueError, and no column is without
    a value of its own, so the filler for missing fields is never used.
    This is about the row dictionary only, not about writing its text to
    the file. *)
Theorem row_keys_are_the_header :
  forall keys obj row,
    build_row keys (fieldnames_of keys) obj = Ok row ->
    dom row = list_to_set (fieldnames_of keys)
    /\ bool_decide (dom row ⊆ list_to_set (fieldnames_of keys)) = true
    /\ forall k, k ∈ fieldnames_of keys -> is_Some (row !! k).
Proof.
  intros keys obj row Hrow.
  assert (Hdom : dom row = list_to_set (fieldnames_of keys)).
  { unfold build_row in Hrow. destruct obj as [| | | | | |d]; try discriminate.
    simpl in Hrow. set (row0 := <["exact" := _]> _) in Hrow.
    destruct (fill_attributes _ keys row0) as [row1| |] eqn:Hfill; try discriminate.
    simpl in Hrow. injection Hrow as <-.
    rewrite dom_insert_L, (fill_attributes_dom _ _ _ _ Hfill). subst row0.
    rewrite !dom_insert_L, blank_row_dom. unfold fieldnames_of. set_solver. }
  split; [exact Hdom|]. split.
  - apply bool_decide_eq_true. rewrite Hdom. reflexivity.
  - intros k Hk. apply elem_of_dom. rewrite Hdom. apply elem_of_list_to_set, Hk.
Qed.

Lemma row_keys_are_the_header_witness :
  exists row,
    build_row ["title"] (fieldnames_of ["title"]) (PDict sample_nested_object) = Ok row
    /\ dom row = list_to_set (fieldnames_of ["title"]).
Proof.
  eexists. split; [reflexivity|].
  exact (proj1 (row_keys_are_the_header ["title"] (PDict sample_nested_object) _ eq_refl)).
Defined.

(** ** The JSON text of a cell *)

(** Not a C0 control character: no line break, no tab, nothing below the
    blank. *)
Definition printable (c : ascii) : bool := negb (N.ltb (code c) 32).

Definition is_number_char (c : ascii) : bool :=
  (is_digit c || Ascii.eqb c "-" || Ascii.eqb c "+" || Ascii.eqb c "."
   || Ascii.eqb c "e" || Ascii.eqb c "E")%bool.

Lemma string_forall_impl (p q : ascii -> bool) (s : string) :
  (forall c, p c = true -> q c = true) ->
  string_forall p s = true -> string_forall q s = true.
Proof.
  intros Hpq. induction s as [|c s IH]; [reflexivity|]. simpl.
  intros [Hc Hs]%andb_prop. rewrite (Hpq c Hc), (IH Hs). reflexivity.
Qed.

Lemma number_char_printable (c : ascii) : is_number_char c = true -> printable c = true.
Proof. destruct c as [[] [] [] [] [] [] [] []]; vm_compute; congruence. Qed.

Lemma digit_number_char (c : ascii) : is_digit c = true -> is_number_char c = true.
Proof. unfold is_number_char. intros ->. reflexivity. Qed.

Lemma span_until_fst stop (s : string) :
  string_forall (fun c => negb (stop c)) (fst (span_until stop s)) = true.
Proof.
  induction s as [|c s IH]; [reflexivity|]. simpl.
  destruct (stop c) eqn:Hc; [reflexivity|].
  destruct (span_until stop s) as [a b]. simpl in *. rewrite Hc, IH. reflexivity.
Qed.

Lemma span_digits_chars (s : string) :
  string_forall is_number_char (fst (span_digits s)) = true.
Proof.
  apply (string_forall_impl (fun c => negb (negb (is_digit c)))).
  - intros c Hc. apply digit_number_char. destruct (is_digit c); [reflexivity|discriminate].
  - apply span_until_fst.
Qed.

Lemma take_sign_chars (s : string) :
  string_forall is_number_char (fst (take_sign s)) = true.
Proof.
  destruct s as [|c s]; [reflexivity|]. simpl.
  destruct (Ascii.eqb c "-"); reflexivity.
Qed.

Lemma int_part_chars (s i r : string) :
  int_part s = Some (i, r) -> string_forall is_number_char i = true.
Proof.
  destruct s as [|c s]; [discriminate|]. simpl.
  destruct (Ascii.eqb_spec c "0") as [->|_]; [intros [= <- <-]; reflexivity|].
  destruct (is_digit c) eqn:Hc; [|discriminate].
  pose proof (span_digits_chars s) as Hs.
  destruct (span_digits s) as [ds r']. intros [= <- <-]. simpl in *.
  rewrite (digit_number_char c Hc), Hs. reflexivity.
Qed.

Lemma frac_part_chars (s : string) :
  string_forall is_number_char (fst (frac_part s)) = true.
Proof.
  destruct s as [|c s]; [reflexivity|]. simpl.
  destruct (Ascii.eqb_spec c ".") as [->|_]; [|reflexivity].
  pose proof (span_digits_chars s) as Hs.
  destruct (span_digits s) as [[|d ds] r']; [reflexivity|]. exact Hs.
Qed.

Lemma exp_part_chars (s : string) :
  string_forall is_number_char (fst (exp_part s)) = true.
Proof.
  destruct s as [|c s]; [reflexivity|]. simpl.
  destruct (Ascii.eqb c "e" || Ascii.eqb c "E")%bool eqn:Hc; [|reflexivity].
  assert (Hsg : string_forall is_number_char (fst (exp_sign s)) = true).
  { destruct s as [|x s]; [reflexivity|]. simpl.
    destruct (Ascii.eqb x "+" || Ascii.eqb x "-")%bool eqn:Hx; [|reflexivity].
    simpl. unfold is_number_char.
    apply orb_prop in Hx as [->| ->]; rewrite ?orb_true_r; reflexivity. }
  destruct (exp_sign s) as [sg r1]. simpl in Hsg.
  pose proof (span_digits_chars r1) as Hd.
  destruct (span_digits r1) as [[|d ds] r2]; [reflexivity|].
  cbn [fst string_forall] in *. rewrite string_forall_app, Hsg.
  cbn [string_forall]. rewrite Hd.
  unfold is_number_char. apply orb_prop in Hc as [->| ->];
    rewrite ?orb_true_r; reflexivity.
Qed.

Lemma match_number_chars (t i f e r : string) :
  match_number t = Some (i, f, e, r) ->
  string_forall is_number_char (i +:+ f +:+ e) = true.
Proof.
  unfold match_number. pose proof (take_sign_chars t) as Hsign.
  destruct (take_sign t) as [sign s1]. simpl in Hsign.
  destruct (int_part s1) as [[i0 s2]|] eqn:Hi; [|discriminate].
  apply int_part_chars in Hi.
  pose proof (frac_part_chars s2) as Hf. destruct (frac_part s2) as [f0 s3].
  pose proof (exp_part_chars s3) as He. destruct (exp_part s3) as [e0 s4].
  simpl in Hf, He. intros [= <- <- <- <-].
  rewrite !string_forall_app, Hsign, Hi, Hf, He. reflexivity.
Qed.

Lemma int_repr_printable (n : Z) : string_forall printable (int_repr n) = true.
Proof.
  apply (string_forall_impl _ _ _ number_char_printable).
  pose proof (match_number_chars _ _ _ _ _ (match_number_int n)) as H.
  rewrite !app_empty_r in H. exact H.
Qed.

Lemma float_literal_printable (t : string) :
  is_float_literal t = true -> string_forall printable t = true.
Proof.
  unfold is_float_literal. intros Ht.
  destruct (match_number t) as [[[[i f] e] r]|] eqn:Hm; [|discriminate].
  destruct r; [|discriminate].
  apply (string_forall_impl _ _ _ number_char_printable).
  pose proof (match_number_text _ _ _ _ _ Hm) as Htext. rewrite app_empty_r in Htext.
  rewrite Htext. apply (match_number_chars _ _ _ _ _ Hm).
Qed.

Lemma escape_char_printable (c : ascii) :
  string_forall printable (escape_char c) = true.
Proof. destruct c as [[] [] [] [] [] [] [] []]; vm_compute; reflexivity. Qed.

Lemma escape_printable (s : string) : string_forall printable (escape s) = true.
Proof.
  induction s as [|c s IH]; [reflexivity|]. simpl.
  rewrite string_forall_app, escape_char_printable, IH. reflexivity.
Qed.

Lemma encode_basestring_printable (s : string) :
  string_forall printable (encode_basestring s) = true.
Proof.
  unfold encode_basestring. cbn [string_forall].
  rewrite string_forall_app, escape_printable. reflexivity.
Qed.

Lemma string_forall_join p (sep : string) (l : list string) :
  string_forall p sep = true ->
  Forall (fun x => string_forall p x = true) l ->
  string_forall p (join sep l) = true.
Proof.
  intros Hsep. induction 1 as [|x l Hx Hl IH]; [reflexivity|].
  rewrite join_cons, string_forall_app, Hx. destruct l; [reflexivity|].
  rewrite string_forall_app, Hsep, IH. reflexivity.
Qed.

Lemma json_dumps_printable (v : pyval) :
  well_formed v = true -> string_forall printable (json_dumps v) = true.
Proof.
  induction v as [| b | n | fl | s | items IH | entries IH] using pyval_deep_ind;
    intros Hwf.
  - reflexivity.
  - destruct b; reflexivity.
  - apply int_repr_printable.
  - destruct fl as [|[]|t]; try reflexivity. apply float_literal_printable, Hwf.
  - apply encode_basestring_printable.
  - destruct items as [|x xs]; [reflexivity|].
    change (json_dumps (PList (x :: xs)))
      with ("[" +:+ join ", " (map json_dumps (x :: xs)) +:+ "]").
    rewrite !string_forall_app. rewrite string_forall_join; [reflexivity|reflexivity|].
    change (forallb well_formed (x :: xs) = true) in Hwf.
    rewrite List.forallb_forall in Hwf. apply Forall_map.
    rewrite Forall_forall in *.
    intros y Hy. apply IH; [exact Hy|]. apply Hwf, list_elem_of_In, Hy.
  - destruct entries as [|kv es]; [reflexivity|].
    change (json_dumps (PDict (kv :: es)))
      with ("{" +:+ join ", " (map (fun kv => encode_basestring (fst kv) +:+ ": "
                                         +:+ json_dumps (snd kv)) (kv :: es)) +:+ "}").
    rewrite !string_forall_app. rewrite string_forall_join; [reflexivity|reflexivity|].
    change ((bool_decide (NoDup (map fst (kv :: es)))
             && forallb (fun kv => well_formed (snd kv)) (kv :: es))%bool = true) in Hwf.
    apply andb_prop in Hwf as [_ Hwf].
    rewrite List.forallb_forall in Hwf. apply Forall_map.
    rewrite Forall_forall in *.
    intros y Hy. rewrite !string_forall_app, encode_basestring_printable.
    change (string_forall printable ": ") with true. cbn [andb].
    apply IH; [exact Hy|]. apply Hwf, list_elem_of_In, Hy.
Qed.

(** X12. The JSON text written for a value holds no character below the
    blank: no line feed, no carriage return, no tab (the encoder escapes
    them inside strings and puts none between the items).  So the nested cell of a row,
    and the cell of an attribute that is a list or a dictionary, is a single
    line of text whatever strings the data holds. *)
Theorem json_cells_are_one_line :
  forall keys d a v,
    attrs_of d = PDict a ->
    well_formed v = true ->
    well_formed (default (PList []) (lookup_key "nested" d)) = true ->
    string_forall printable (json_dumps v) = true
    /\ contains "010" (json_dumps v) = false
    /\ exists cells text,
         emit_row keys (fieldnames_of keys) (PDict d) = Ok cells
         /\ cells !! (3 + length keys)%nat = Some (Field text)
         /\ string_forall printable text = true.
Proof.
  intros keys d a v Ha Hv Hn. pose proof (json_dumps_printable v Hv) as Hp.
  split; [exact Hp|]. split.
  - unfold contains. apply negb_false_iff.
    apply (string_forall_impl printable); [|exact Hp].
    intros c Hc. destruct (Ascii.eqb_spec c "010") as [->|]; [discriminate|reflexivity].
  - exists (cells_of keys d a), (json_dumps (default (PList []) (lookup_key "nested" d))).
    split; [apply emit_row_dict, Ha|]. split; [|apply json_dumps_printable, Hn].
    rewrite (cells_of_lookup _ _ _ _ _ (nested_column_position keys)). unfold row_value.
    rewrite bool_decide_true by reflexivity. reflexivity.
Qed.

Definition sample_multiline : pyval :=
  PList [PStr (String "a" (String "010" (String "b" (String "013" (String "009" "")))))].

Lemma json_cells_are_one_line_witness :
  contains "010" (json_dumps sample_multiline) = false.
Proof.
  exact (proj1 (proj2 (json_cells_are_one_line [] [("nested", sample_multiline)] []
                         sample_multiline eq_refl eq_refl eq_refl))).
Defined.

(** ** The shape of a digest *)

Definition is_byte (b : Z) : Prop := 0 <= b < 256.

Lemma be_bytes_bytes (n : nat) (x : Z) : Forall is_byte (Sha256.be_bytes n x).
Proof.
  induction n as [|n IH]; simpl; constructor; [|exact IH].
  unfold is_byte. apply Z.mod_pos_bound. lia.
Qed.

Lemma be_bytes_length (n : nat) (x : Z) : length (Sha256.be_bytes n x) = n.
Proof. induction n as [|n IH]; simpl; [reflexivity|]. rewrite IH. reflexivity. Qed.

Lemma compress_length (h block : list Z) :
  length h = 8%nat -> length (Sha256.compress h block) = 8%nat.
Proof.
  intros Hh. unfold Sha256.compress.
  do 8 (destruct h as [|? h]; [discriminate|]). destruct h; [|discriminate].
  reflexivity.
Qed.

Lemma fold_compress_length (blocks : list (list Z)) :
  forall h, length h = 8%nat -> length (fold_left Sha256.compress blocks h) = 8%nat.
Proof.
  induction blocks as [|b blocks IH]; intros h Hh; simpl; [exact Hh|].
  apply IH, compress_length, Hh.
Qed.

(** A SHA-256 digest is thirty-two bytes, whatever the message. *)
Lemma digest_shape (msg : bytes) :
  length (Sha256.digest msg) = 32%nat /\ Forall is_byte (Sha256.digest msg).
Proof.
  unfold Sha256.digest. set (h := fold_left _ _ _).
  assert (Hh : length h = 8%nat) by (apply fold_compress_length; reflexivity).
  clearbody h. split.
  - do 8 (destruct h as [|? h]; [discriminate|]). destruct h; [|discriminate].
    reflexivity.
  - apply Forall_concat, Forall_map, Forall_forall. intros x _. apply be_bytes_bytes.
Qed.

Lemma hmac_shape (key msg : bytes) :
  length (hmac_sha256 key msg) = 32%nat /\ Forall is_byte (hmac_sha256 key msg).
Proof. unfold hmac_sha256. apply digest_shape. Qed.

(** A letter, a digit, [+] or [/]: the sixty-four characters of Base64. *)
Definition is_b64_char (c : ascii) : bool :=
  (is_alpha c || is_digit c || Ascii.eqb c "+" || Ascii.eqb c "/")%bool.

Lemma get_in_range (n : nat) (s : string) :
  (n < String.length s)%nat -> exists c, String.get n s = Some c.
Proof.
  revert n. induction s as [|x s IH]; intros n Hn; [simpl in Hn; lia|].
  destruct n as [|n]; [exists x; reflexivity|]. simpl. apply IH. simpl in Hn. lia.
Qed.

Lemma b64_char_in_alphabet (i : Z) : 0 <= i < 64 -> is_b64_char (b64_char i) = true.
Proof.
  intros Hi. unfold b64_char.
  destruct (get_in_range (Z.to_nat i) b64_alphabet) as [c Hc].
  { change (String.length b64_alphabet) with 64%nat. lia. }
  rewrite Hc. eapply (string_forall_get is_b64_char); [|exact Hc].
  vm_compute. reflexivity.
Qed.

Lemma b64_index_top (n : Z) : 0 <= n < 16777216 -> 0 <= Z.shiftr n 18 < 64.
Proof.
  intros Hn. rewrite Z.shiftr_div_pow2 by lia. change (2 ^ 18) with 262144.
  split; [apply Z.div_pos; lia|apply Z.div_lt_upper_bound; lia].
Qed.

Lemma b64_index_mod (n : Z) : 0 <= n mod 64 < 64.
Proof. apply Z.mod_pos_bound. lia. Qed.

Lemma b64_group_value (x y z : Z) :
  is_byte x -> is_byte y -> is_byte z ->
  0 <= Z.shiftl x 16 + Z.shiftl y 8 + z < 16777216.
Proof.
  unfold is_byte. intros Hx Hy Hz. rewrite !Z.shiftl_mul_pow2 by lia.
  change (2 ^ 16) with 65536. change (2 ^ 8) with 256. lia.
Qed.

(** The padding [b64encode] adds to [n] bytes. *)
Definition b64_padding (n : nat) : nat :=
  match (n mod 3)%nat with
  | 1%nat => 2%nat
  | 2%nat => 1%nat
  | _ => 0%nat
  end.

Lemma b64_groups_shape (fuel : nat) :
  forall b,
    (length b <= fuel)%nat ->
    Forall is_byte b ->
    exists body,
      b64_groups fuel b = body ++ repeat "="%char (b64_padding (length b))
      /\ Forall (fun c => is_b64_char c = true) body
      /\ (length body + b64_padding (length b) = 4 * ((length b + 2) / 3))%nat.
Proof.
  induction fuel as [|fuel IH]; intros b Hlen Hb.
  - destruct b; [|simpl in Hlen; lia]. exists []. repeat split. constructor.
  - destruct b as [|x [|y [|z rest]]].
    + exists []. repeat split. constructor.
    + apply Forall_cons in Hb as [Hx _].
      pose proof (b64_group_value x 0 0 Hx ltac:(unfold is_byte; lia)
                    ltac:(unfold is_byte; lia)) as Hn.
      rewrite Z.shiftl_0_l, !Z.add_0_r in Hn.
      eexists [_; _]. split; [reflexivity|]. split; [|reflexivity].
      repeat constructor; apply b64_char_in_alphabet;
        [apply b64_index_top, Hn|apply b64_index_mod].
    + apply Forall_cons in Hb as [Hx Hb]. apply Forall_cons in Hb as [Hy _].
      pose proof (b64_group_value x y 0 Hx Hy ltac:(unfold is_byte; lia)) as Hn.
      rewrite Z.add_0_r in Hn.
      eexists [_; _; _]. split; [reflexivity|]. split; [|reflexivity].
      repeat constructor; apply b64_char_in_alphabet;
        [apply b64_index_top, Hn|apply b64_index_mod..].
    + apply Forall_cons in Hb as [Hx Hb]. apply Forall_cons in Hb as [Hy Hb].
      apply Forall_cons in Hb as [Hz Hb].
      pose proof (b64_group_value x y z Hx Hy Hz) as Hn.
      destruct (IH rest ltac:(simpl in Hlen; lia) Hb) as (body & Hbody & Hall & Hcount).
      exists (b64_char (Z.shiftr (Z.shiftl x 16 + Z.shiftl y 8 + z) 18)
              :: b64_char (Z.shiftr (Z.shiftl x 16 + Z.shiftl y 8 + z) 12 mod 64)
              :: b64_char (Z.shiftr (Z.shiftl x 16 + Z.shiftl y 8 + z) 6 mod 64)
              :: b64_char ((Z.shiftl x 16 + Z.shiftl y 8 + z) mod 64) :: body).
      assert (Hpad : b64_padding (length (x :: y :: z :: rest)) = b64_padding (length rest)).
      { unfold b64_padding. simpl length.
        replace (S (S (S (length rest)))) with (length rest + 1 * 3)%nat by lia.
        rewrite Nat.Div0.mod_add. reflexivity. }
      rewrite Hpad. split; [|split].
      * change (b64_groups (S fuel) (x :: y :: z :: rest)) with
          (b64_char (Z.shiftr (Z.shiftl x 16 + Z.shiftl y 8 + z) 18)
           :: b64_char (Z.shiftr (Z.shiftl x 16 + Z.shiftl y 8 + z) 12 mod 64)
           :: b64_char (Z.shiftr (Z.shiftl x 16 + Z.shiftl y 8 + z) 6 mod 64)
           :: b64_char ((Z.shiftl x 16 + Z.shiftl y 8 + z) mod 64)
           :: b64_groups fuel rest).
        rewrite Hbody. reflexivity.
      * repeat (constructor; [apply b64_char_in_alphabet;
                  first [apply b64_index_top, Hn|apply b64_index_mod]|]).
        exact Hall.
      * simpl length.
        replace (S (S (S (length rest))) + 2)%nat with (length rest + 2 + 1 * 3)%nat by lia.
        rewrite Nat.div_add by lia. lia.
Qed.

Lemma length_string_of_list (l : list ascii) :
  String.length (string_of_list_ascii l) = length l.
Proof. induction l as [|c l IH]; simpl; [reflexivity|]. rewrite IH. reflexivity. Qed.

Lemma string_of_list_app (l k : list ascii) :
  string_of_list_ascii (l ++ k) = string_of_list_ascii l +:+ string_of_list_ascii k.
Proof. induction l as [|c l IH]; simpl; [reflexivity|]. rewrite IH. reflexivity. Qed.

(** X13. Whatever the key, the method, the endpoint and the date, the
    digest is forty-four characters: forty-three letters, digits, [+] or
    [/] and one [=] at the end (thirty-two bytes of HMAC-SHA256 in Base64).
    It holds no blank, no colon and no line break, so the Authorization
    header is one line and the digest can be told from the key before
    it. *)
Theorem digest_is_44_base64_characters :
  forall private_key method endpoint date_str content_type,
    let digest := compute_digest private_key method endpoint date_str content_type in
    String.length digest = 44%nat
    /\ exists body,
         digest = body +:+ "="
         /\ String.length body = 43%nat
         /\ string_forall is_b64_char body = true.
Proof.
  intros private_key method endpoint date_str content_type digest. subst digest.
  unfold compute_digest. rewrite strip_b64. unfold b64encode. rewrite decode_encode.
  set (sig := hmac_sha256 _ _).
  destruct (hmac_shape (encode_utf8 private_key)
              (encode_utf8 (method +:+ LF +:+ content_type +:+ LF +:+ date_str
                            +:+ LF +:+ endpoint))) as [Hlen Hbytes].
  fold sig in Hlen, Hbytes.
  destruct (b64_groups_shape (length sig) sig (Nat.le_refl _) Hbytes)
    as (body & Hbody & Hall & Hcount).
  rewrite Hbody, Hlen in *. change (b64_padding 32) with 1%nat in *.
  change ((32 + 2) / 3)%nat with 11%nat in Hcount.
  rewrite string_of_list_app, length_app_str, length_string_of_list.
  split; [simpl; lia|].
  exists (string_of_list_ascii body). split; [reflexivity|].
  rewrite length_string_of_list. split; [lia|].
  apply string_forall_of_list, Hall.
Qed.

(** ** The URL of the first page *)

(** The parameters [build_first_page_url] collects, in the order it adds
    them. *)
Definition first_page_params (cfg : config) : list (string * string) :=
  (if PAGE_SIZE cfg =? 0 then [] else [("size", int_repr (PAGE_SIZE cfg))])
  ++ (match HIT_FIELDS cfg with
      | [] => []
      | fs => [("hit_fields", join "," fs)]
      end)
  ++ (match REQUESTED_TYPES cfg with
      | [] => []
      | ts => [("requested_types", join "," ts)]
      end).

Lemma build_first_page_url_params (cfg : config) :
  build_first_page_url cfg =
  BASE_URL cfg +:+ "/v1/content_export"
  +:+ match first_page_params cfg with
      | [] => ""
      | params => "?" +:+ urlencode params
      end.
Proof.
  unfold build_first_page_url. fold (first_page_params cfg).
  destruct (first_page_params cfg); [rewrite app_empty_r|]; reflexivity.
Qed.

(** What [quote_plus] lets through or writes. *)
Definition is_quoted_char (c : ascii) : bool :=
  (is_always_safe c || Ascii.eqb c "+" || Ascii.eqb c "%")%bool.

Definition is_query_char (c : ascii) : bool :=
  (is_quoted_char c || Ascii.eqb c "=" || Ascii.eqb c "&")%bool.

Lemma quote_plus_chars (s : string) : string_forall is_quoted_char (quote_plus s) = true.
Proof.
  induction s as [|c s IH]; [reflexivity|].
  destruct c as [[] [] [] [] [] [] [] []]; simpl; rewrite IH; reflexivity.
Qed.

Lemma urlencode_chars (params : list (string * string)) :
  string_forall is_query_char (urlencode params) = true.
Proof.
  unfold urlencode. apply string_forall_join; [reflexivity|].
  apply Forall_map, Forall_forall. intros [k v] _. simpl.
  assert (Hq : forall s, string_forall is_query_char (quote_plus s) = true).
  { intros s. apply (string_forall_impl is_quoted_char); [|apply quote_plus_chars].
    intros c Hc. unfold is_query_char. rewrite Hc. reflexivity. }
  rewrite !string_forall_app, !Hq. reflexivity.
Qed.

(** A query character is none of the characters [urlparse] cuts at or
    drops. *)
Lemma query_char_plain (c : ascii) :
  is_query_char c = true ->
  Ascii.eqb c "#" = false /\ Ascii.eqb c "?" = false
  /\ is_unsafe_url_byte c = false /\ Ascii.eqb c " " = false.
Proof. destruct c as [[] [] [] [] [] [] [] []]; vm_compute; intuition congruence. Qed.

Lemma string_filter_all p (s : string) :
  string_forall p s = true -> string_filter p s = s.
Proof.
  induction s as [|c s IH]; [reflexivity|]. simpl.
  intros [Hc Hs]%andb_prop. rewrite Hc, (IH Hs). reflexivity.
Qed.

Lemma string_forall_lstrip p q (s : string) :
  string_forall p s = true -> string_forall p (lstrip_with q s) = true.
Proof.
  induction s as [|c s IH]; [reflexivity|]. intros H. simpl.
  destruct (q c); [|exact H]. simpl in H. apply andb_prop in H as [_ H]. auto.
Qed.

Lemma string_forall_filter p q (s : string) :
  string_forall p s = true -> string_forall p (string_filter q s) = true.
Proof.
  induction s as [|c s IH]; [reflexivity|]. simpl. intros [Hc Hs]%andb_prop.
  destruct (q c); [simpl; rewrite Hc|]; auto.
Qed.

Lemma string_forall_split_first p (c : ascii) (s a b : string) :
  split_first c s = Some (a, b) ->
  string_forall p s = true -> string_forall p b = true.
Proof.
  revert a b. induction s as [|x s IH]; intros a b; [discriminate|]. simpl.
  intros H [Hx Hs]%andb_prop. destruct (Ascii.eqb x c); [injection H as <- <-; exact Hs|].
  destruct (split_first c s) as [[a' b']|]; [|discriminate].
  injection H as <- <-. apply (IH a' b' eq_refl Hs).
Qed.

Lemma string_forall_span_until p stop (s : string) :
  string_forall p s = true -> string_forall p (snd (span_until stop s)) = true.
Proof.
  induction s as [|x s IH]; [reflexivity|]. intros H. simpl.
  destruct (stop x); [exact H|]. simpl in H. apply andb_prop in H as [_ H].
  specialize (IH H). destruct (span_until stop s). exact IH.
Qed.

Lemma string_forall_split_scheme p (s : string) :
  string_forall p s = true -> string_forall p (snd (split_scheme s)) = true.
Proof.
  intros H. unfold split_scheme.
  destruct (split_first ":" s) as [[[|c pre] post]|] eqn:Hs; [exact H| |exact H].
  destruct (_ && _)%bool; [|exact H]. apply (string_forall_split_first _ _ _ _ _ Hs H).
Qed.

Lemma string_forall_split_netloc p (s : string) :
  string_forall p s = true -> string_forall p (snd (split_netloc s)) = true.
Proof.
  intros H. unfold split_netloc. destruct s as [|a [|b r]]; [exact H..|].
  destruct (_ && _)%bool; [|exact H]. apply string_forall_span_until.
  simpl in H. apply andb_prop in H as [_ H]. apply andb_prop in H as [_ H]. exact H.
Qed.

Lemma split_first_absent (c : ascii) (s : string) :
  string_forall (fun x => negb (Ascii.eqb x c)) s = true -> split_first c s = None.
Proof.
  induction s as [|x s IH]; [reflexivity|]. simpl. intros [Hx Hs]%andb_prop.
  apply negb_true_iff in Hx. rewrite Hx, (IH Hs). reflexivity.
Qed.

Lemma split_first_at (c : ascii) (s t : string) :
  string_forall (fun x => negb (Ascii.eqb x c)) s = true ->
  split_first c (s +:+ String c t) = Some (s, t).
Proof.
  induction s as [|x s IH]; intros H.
  - rewrite app_empty_l. simpl. rewrite Ascii.eqb_refl. reflexivity.
  - rewrite app_cons. simpl in *. apply andb_prop in H as [Hx Hs].
    apply negb_true_iff in Hx. rewrite Hx, (IH Hs). reflexivity.
Qed.

(** A character other than [?] and [#]. *)
Definition is_not_cut (c : ascii) : bool :=
  (negb (Ascii.eqb c "?") && negb (Ascii.eqb c "#"))%bool.

(** [urlparse] gives back a query written after a text without [?] and
    [#]. *)
Lemma urlparse_query (base q : string) :
  string_forall is_not_cut base = true ->
  string_forall is_query_char q = true ->
  url_query (urlparse (base +:+ "?" +:+ q)) = q
  /\ url_fragment (urlparse (base +:+ "?" +:+ q)) = "".
Proof.
  intros Hb Hq.
  enough (exists sc nl pa pr, urlparse (base +:+ "?" +:+ q) = ParseResult sc nl pa pr q "")
    as (sc & nl & pa & pr & ->) by (split; reflexivity).
  unfold urlparse. change ("?" +:+ q) with (String "?" q).
  rewrite cleaned_url_app_query.
  rewrite (string_filter_all _ q).
  2:{ apply (string_forall_impl is_query_char); [|exact Hq].
      intros c Hc. destruct (query_char_plain c Hc) as (_ & _ & -> & _). reflexivity. }
  set (u := string_filter _ (lstrip_with _ base)).
  assert (Hu : string_forall is_not_cut u = true)
    by apply string_forall_filter, string_forall_lstrip, Hb.
  rewrite split_scheme_app_query.
  pose proof (string_forall_split_scheme _ _ Hu) as H1.
  destruct (split_scheme u) as [scheme u1]. cbn [fst snd] in *.
  rewrite split_netloc_app_query.
  pose proof (string_forall_split_netloc _ _ H1) as H2.
  destruct (split_netloc u1) as [netloc u2]. cbn [fst snd] in *.
  unfold split_or_all at 1. rewrite split_first_absent.
  2:{ rewrite string_forall_app. cbn [string_forall].
      rewrite (string_forall_impl is_not_cut _ u2); [| |exact H2].
      - change (negb (Ascii.eqb "?" "#")) with true. cbn [andb].
        apply (string_forall_impl is_query_char); [|exact Hq].
        intros c Hc. destruct (query_char_plain c Hc) as (-> & _). reflexivity.
      - intros c Hc. unfold is_not_cut in Hc. apply andb_prop in Hc as [_ Hc]. exact Hc. }
  unfold split_or_all. rewrite split_first_at.
  2:{ apply (string_forall_impl is_not_cut); [|exact H2].
      intros c Hc. unfold is_not_cut in Hc. apply andb_prop in Hc as [Hc _]. exact Hc. }
  destruct (_ && _)%bool; [destruct (splitparams u2)|]; eauto.
Qed.

(** X14. The URL of the first page is the base URL, the export endpoint
    and, when a page size, hit fields or requested types are set, a
    question mark and their encoding.  The encoding holds nothing but
    letters, digits, [_ . - ~ + %], [=] and [&], whatever the field and
    type names hold; so the path that is signed for the first request is
    the path of the base URL followed by the endpoint, whatever the
    parameters, and for a base URL without [?] and [#] the server reads
    back, as the query, exactly the encoded parameters, and no fragment. *)
Theorem first_page_url_shape :
  forall cfg,
    let params := first_page_params cfg in
    let url := build_first_page_url cfg in
    string_forall is_query_char (urlencode params) = true
    /\ url = BASE_URL cfg +:+ "/v1/content_export"
             +:+ match params with [] => "" | _ => "?" +:+ urlencode params end
    /\ url_path (urlparse url) =
         url_path (urlparse (BASE_URL cfg +:+ "/v1/content_export"))
    /\ (string_forall is_not_cut (BASE_URL cfg) = true ->
        params <> [] ->
        url_query (urlparse url) = urlencode params
        /\ url_fragment (urlparse url) = "").
Proof.
  intros cfg params url. subst params url.
  split; [apply urlencode_chars|]. rewrite build_first_page_url_params.
  split; [destruct (first_page_params cfg); reflexivity|]. split.
  - destruct (first_page_params cfg); [rewrite app_empty_r; reflexivity|].
    rewrite <- app_assoc_str. apply url_path_ignores_query.
  - intros Hbase Hparams.
    destruct (first_page_params cfg) as [|kv ps] eqn:Hp; [congruence|].
    rewrite <- app_assoc_str. apply urlparse_query; [|apply urlencode_chars].
    rewrite string_forall_app, Hbase. reflexivity.
Qed.

Lemma first_page_url_shape_witness :
  url_query (urlparse (build_first_page_url sample_config)) =
    "size=500&hit_fields=title%2Cweb_url&requested_types=serie"
  /\ url_fragment (urlparse (build_first_page_url sample_config)) = "".
Proof.
  exact (proj2 (proj2 (proj2 (first_page_url_shape sample_config)))
           eq_refl ltac:(discriminate)).
Defined.

(** ** What the decoder builds *)

Lemma digit_not_mark (c : ascii) :
  is_digit c = true ->
  Ascii.eqb c "+" = false /\ Ascii.eqb c "-" = false /\ Ascii.eqb c "." = false
  /\ (Ascii.eqb c "e" || Ascii.eqb c "E")%bool = false.
Proof. destruct c as [[] [] [] [] [] [] [] []]; vm_compute; intuition congruence. Qed.

(** The text is empty or starts with something that is not a digit. *)
Definition stops_digits (rest : string) : bool :=
  match rest with
  | EmptyString => true
  | String c _ => negb (is_digit c)
  end.

Lemma span_digits_stop (ds rest : string) :
  string_forall is_digit ds = true ->
  stops_digits rest = true ->
  span_digits (ds +:+ rest) = (ds, rest).
Proof.
  unfold span_digits. intros Hds Hrest. induction ds as [|d ds IH].
  - rewrite app_empty_l. destruct rest as [|c r]; [reflexivity|]. simpl in *.
    rewrite Hrest. reflexivity.
  - rewrite app_cons. simpl in *. apply andb_prop in Hds as [Hd Hds].
    rewrite Hd, (IH Hds). reflexivity.
Qed.

Lemma span_digits_digits (s : string) :
  string_forall is_digit (fst (span_digits s)) = true.
Proof.
  apply (string_forall_impl (fun c => negb (negb (is_digit c)))).
  - intros c Hc. destruct (is_digit c); [reflexivity|discriminate].
  - apply span_until_fst.
Qed.

(** The groups of a number, as the stages cut them. *)
Definition is_int_group (i : string) : Prop :=
  exists c ds, i = String c ds /\ is_digit c = true /\ string_forall is_digit ds = true
               /\ (Ascii.eqb c "0" = true -> ds = "").

Definition is_frac_group (f : string) : Prop :=
  f = "" \/ exists d ds, f = String "." (String d ds)
                         /\ string_forall is_digit (String d ds) = true.

Definition is_exp_group (e : string) : Prop :=
  e = "" \/ exists c sg d ds,
              e = String c (sg +:+ String d ds)
              /\ (Ascii.eqb c "e" || Ascii.eqb c "E")%bool = true
              /\ (sg = "" \/ sg = "+" \/ sg = "-")
              /\ string_forall is_digit (String d ds) = true.

Lemma int_part_group (s i r : string) : int_part s = Some (i, r) -> is_int_group i.
Proof.
  destruct s as [|c s]; [discriminate|]. simpl.
  destruct (Ascii.eqb_spec c "0") as [->|Hc0].
  - intros [= <- <-]. exists "0"%char, "". auto.
  - destruct (is_digit c) eqn:Hc; [|discriminate].
    pose proof (span_digits_digits s) as Hs.
    destruct (span_digits s) as [ds r']. intros [= <- <-].
    exists c, ds. repeat split; auto.
    intros H0%Ascii.eqb_eq. contradiction.
Qed.

Lemma frac_part_group (s : string) : is_frac_group (fst (frac_part s)).
Proof.
  destruct s as [|c s]; [left; reflexivity|]. simpl.
  destruct (Ascii.eqb_spec c ".") as [->|_]; [|left; reflexivity].
  pose proof (span_digits_digits s) as Hs.
  destruct (span_digits s) as [[|d ds] r']; [left; reflexivity|].
  right. exists d, ds. auto.
Qed.

Lemma exp_part_group (s : string) : is_exp_group (fst (exp_part s)).
Proof.
  destruct s as [|c s]; [left; reflexivity|]. simpl.
  destruct (Ascii.eqb c "e" || Ascii.eqb c "E")%bool eqn:Hc; [|left; reflexivity].
  assert (Hsg : fst (exp_sign s) = "" \/ fst (exp_sign s) = "+" \/ fst (exp_sign s) = "-").
  { destruct s as [|x s]; [left; reflexivity|]. simpl.
    destruct (Ascii.eqb_spec x "+") as [->|_]; [right; left; reflexivity|].
    destruct (Ascii.eqb_spec x "-") as [->|_]; [right; right; reflexivity|].
    left. reflexivity. }
  destruct (exp_sign s) as [sg r1]. simpl in Hsg.
  pose proof (span_digits_digits r1) as Hd.
  destruct (span_digits r1) as [[|d ds] r2]; [left; reflexivity|].
  right. exists c, sg, d, ds. auto.
Qed.

Lemma exp_group_again (e : string) : is_exp_group e -> exp_part e = (e, "").
Proof.
  intros [->|(c & sg & d & ds & -> & Hc & Hsg & Hds)]; [reflexivity|].
  unfold exp_part. rewrite Hc.
  assert (Hd : is_digit d = true) by (simpl in Hds; apply andb_prop in Hds; tauto).
  destruct (digit_not_mark d Hd) as (Hplus & Hminus & _).
  assert (Hs : exp_sign (sg +:+ String d ds) = (sg, String d ds)).
  { destruct Hsg as [->|[->| ->]]; [|reflexivity..].
    rewrite app_empty_l. unfold exp_sign. rewrite Hplus, Hminus. reflexivity. }
  rewrite Hs, (span_digits_all _ Hds). reflexivity.
Qed.

Lemma exp_group_stops (e : string) :
  is_exp_group e ->
  stops_digits e = true
  /\ match e with String c _ => Ascii.eqb c "." = false | EmptyString => True end.
Proof.
  intros [->|(c & sg & d & ds & -> & Hc & _)]; [split; [reflexivity|exact I]|].
  simpl. destruct c as [[] [] [] [] [] [] [] []]; try discriminate Hc; split; reflexivity.
Qed.

Lemma frac_group_again (f e : string) :
  is_frac_group f -> is_exp_group e -> frac_part (f +:+ e) = (f, e).
Proof.
  intros Hf He. destruct (exp_group_stops e He) as [Hstop Hdot].
  destruct Hf as [->|(d & ds & -> & Hds)].
  - rewrite app_empty_l. destruct e as [|c e]; [reflexivity|]. simpl.
    rewrite Hdot. reflexivity.
  - rewrite app_cons. unfold frac_part. rewrite Ascii.eqb_refl.
    rewrite (span_digits_stop _ _ Hds Hstop). reflexivity.
Qed.

Lemma frac_exp_stops (f e : string) :
  is_frac_group f -> is_exp_group e -> stops_digits (f +:+ e) = true.
Proof.
  intros [->|(d & ds & -> & _)] He; [|reflexivity].
  rewrite app_empty_l. apply (exp_group_stops e He).
Qed.

Lemma int_group_again (i rest : string) :
  is_int_group i -> stops_digits rest = true -> int_part (i +:+ rest) = Some (i, rest).
Proof.
  intros (c & ds & -> & Hc & Hds & H0) Hrest. rewrite app_cons. unfold int_part.
  destruct (Ascii.eqb c "0") eqn:E.
  - rewrite (H0 eq_refl). reflexivity.
  - rewrite Hc, (span_digits_stop _ _ Hds Hrest). reflexivity.
Qed.

(** The text a number was read from is read again as the same number. *)
Lemma match_number_again (s i f e r : string) :
  match_number s = Some (i, f, e, r) ->
  match_number (i +:+ f +:+ e) = Some (i, f, e, "").
Proof.
  unfold match_number at 1.
  destruct s as [|c s]; [discriminate|]. unfold take_sign.
  destruct (Ascii.eqb_spec c "-") as [->|Hc].
  - destruct (int_part s) as [[i0 s2]|] eqn:Hi; [|discriminate].
    pose proof (int_part_group _ _ _ Hi) as Hgi.
    pose proof (frac_part_group s2) as Hgf. destruct (frac_part s2) as [f0 s3].
    pose proof (exp_part_group s3) as Hge. destruct (exp_part s3) as [e0 s4].
    simpl in Hgf, Hge. intros [= <- <- <- <-].
    unfold match_number. rewrite !app_cons, app_empty_l. simpl take_sign. cbv iota.
    rewrite (int_group_again _ _ Hgi (frac_exp_stops _ _ Hgf Hge)).
    rewrite (frac_group_again _ _ Hgf Hge), (exp_group_again _ Hge). reflexivity.
  - destruct (int_part (String c s)) as [[i0 s2]|] eqn:Hi; [|discriminate].
    pose proof (int_part_group _ _ _ Hi) as Hgi.
    pose proof (frac_part_group s2) as Hgf. destruct (frac_part s2) as [f0 s3].
    pose proof (exp_part_group s3) as Hge. destruct (exp_part s3) as [e0 s4].
    simpl in Hgf, Hge. intros [= <- <- <- <-]. rewrite app_empty_l.
    unfold match_number.
    assert (Hsign : take_sign (i0 +:+ f0 +:+ e0) = ("", i0 +:+ f0 +:+ e0)).
    { destruct Hgi as (d & ds & -> & Hd & _). rewrite app_cons. unfold take_sign.
      destruct (digit_not_mark d Hd) as (_ & -> & _). reflexivity. }
    rewrite Hsign.
    rewrite (int_group_again _ _ Hgi (frac_exp_stops _ _ Hgf Hge)).
    rewrite (frac_group_again _ _ Hgf Hge), (exp_group_again _ Hge). reflexivity.
Qed.

Lemma scan_number_well_formed (s : string) (v : pyval) (rest : string) :
  scan_number s = Some (v, rest) -> well_formed v = true.
Proof.
  unfold scan_number.
  destruct (match_number s) as [[[[i f] e] r]|] eqn:Hm; [|discriminate].
  pose proof (match_number_again _ _ _ _ _ Hm) as Hagain.
  destruct f as [|cf f].
  - destruct e as [|ce e].
    + destruct (int_of_text i); [|discriminate]. intros [= <- _]. reflexivity.
    + intros [= <- _]. simpl. unfold is_float_literal. rewrite Hagain. reflexivity.
  - intros [= <- _]. simpl. unfold is_float_literal. rewrite Hagain. reflexivity.
Qed.

Lemma dict_set_keys (k : string) (v : pyval) (d : list (string * pyval)) :
  forall x, x ∈ map fst (dict_set k v d) <-> x = k \/ x ∈ map fst d.
Proof.
  induction d as [|[k' v'] d IH]; intros x; simpl.
  - set_solver.
  - destruct (String.eqb_spec k' k) as [->|Hne]; simpl; [set_solver|].
    rewrite !elem_of_cons, IH. tauto.
Qed.

Lemma dict_set_NoDup (k : string) (v : pyval) (d : list (string * pyval)) :
  NoDup (map fst d) -> NoDup (map fst (dict_set k v d)).
Proof.
  induction d as [|[k' v'] d IH]; simpl; intros Hnd.
  - apply NoDup_singleton.
  - apply NoDup_cons in Hnd as [Hk' Hnd].
    destruct (String.eqb_spec k' k) as [->|Hne]; simpl.
    + apply NoDup_cons. auto.
    + apply NoDup_cons. split; [|apply IH, Hnd].
      rewrite dict_set_keys. intros [->|H]; [congruence|contradiction].
Qed.

Lemma dict_set_values (P : pyval -> Prop) (k : string) (v : pyval)
    (d : list (string * pyval)) :
  P v -> Forall (fun kv => P (snd kv)) d ->
  Forall (fun kv => P (snd kv)) (dict_set k v d).
Proof.
  intros Hv. induction 1 as [|[k' v'] d Hx Hd IH]; simpl.
  - repeat constructor. exact Hv.
  - destruct (String.eqb k' k); constructor; auto.
Qed.

Lemma dict_of_pairs_well_formed (pairs : list (string * pyval)) :
  Forall (fun kv => well_formed (snd kv) = true) pairs ->
  well_formed (PDict (dict_of_pairs pairs)) = true.
Proof.
  intros Hall. unfold dict_of_pairs.
  assert (Hgen : forall d,
            NoDup (map fst d) ->
            Forall (fun kv => well_formed (snd kv) = true) d ->
            let d' := fold_left (fun d kv => dict_set (fst kv) (snd kv) d) pairs d in
            NoDup (map fst d') /\ Forall (fun kv => well_formed (snd kv) = true) d').
  { induction Hall as [|[k v] pairs Hv Hps IH]; intros d Hnd Hd; simpl; [auto|].
    apply IH; [apply dict_set_NoDup, Hnd|].
    apply (dict_set_values (fun x => well_formed x = true)); assumption. }
  destruct (Hgen [] (NoDup_nil_2) (@List.Forall_nil _ _)) as [Hnd Hvals].
  simpl. rewrite bool_decide_true by exact Hnd. simpl.
  apply List.forallb_forall. intros kv Hkv.
  rewrite Forall_forall in Hvals. apply Hvals, list_elem_of_In, Hkv.
Qed.

Lemma array_items_well_formed scan :
  (forall s v r, scan s = Some (v, r) -> well_formed v = true) ->
  forall fuel s vs r,
    array_items scan fuel s = Some (vs, r) -> forallb well_formed vs = true.
Proof.
  intros Hscan. induction fuel as [|fuel IH]; intros s vs r; [discriminate|]. simpl.
  destruct (scan s) as [[v s1]|] eqn:Hv; [|discriminate].
  apply Hscan in Hv.
  destruct (skip_ws s1) as [|c r1]; [discriminate|].
  destruct (Ascii.eqb_spec c "]") as [->|Hc].
  - intros [= <- <-]. simpl. rewrite Hv. reflexivity.
  - destruct (Ascii.eqb_spec c ",") as [->|Hc2].
    + destruct (array_items scan fuel (skip_ws r1)) as [[vs' r']|] eqn:Hrest;
        [|discriminate].
      intros [= <- <-]. simpl. rewrite Hv. apply (IH _ _ _ Hrest).
    + destruct c as [[] [] [] [] [] [] [] []]; try discriminate; congruence.
Qed.

Lemma object_items_well_formed scan :
  (forall s v r, scan s = Some (v, r) -> well_formed v = true) ->
  forall fuel s kvs r,
    object_items scan fuel s = Some (kvs, r) ->
    Forall (fun kv => well_formed (snd kv) = true) kvs.
Proof.
  intros Hscan. induction fuel as [|fuel IH]; intros s kvs r; [discriminate|]. simpl.
  destruct (scanstring s) as [[key s1]|]; [|discriminate].
  destruct (skip_ws s1) as [|c s2]; [discriminate|].
  destruct (Ascii.eqb_spec c ":") as [->|Hc].
  2:{ destruct c as [[] [] [] [] [] [] [] []]; try discriminate; congruence. }
  destruct (scan (skip_ws s2)) as [[v s3]|] eqn:Hv; [|discriminate].
  apply Hscan in Hv.
  destruct (skip_ws s3) as [|c r1]; [discriminate|].
  destruct (Ascii.eqb_spec c "}") as [->|Hc1].
  - intros [= <- <-]. repeat constructor. exact Hv.
  - destruct (Ascii.eqb_spec c ",") as [->|Hc2].
    + destruct (skip_ws r1) as [|q r']; [discriminate|].
      destruct (Ascii.eqb q DQUOTE); [|discriminate].
      destruct (object_items scan fuel r') as [[kvs' r'']|] eqn:Hrest; [|discriminate].
      intros [= <- <-]. constructor; [exact Hv|apply (IH _ _ _ Hrest)].
    + destruct c as [[] [] [] [] [] [] [] []]; try discriminate; congruence.
Qed.

Lemma scan_once_well_formed (fuel : nat) :
  forall s v r, scan_once fuel s = Some (v, r) -> well_formed v = true.
Proof.
  induction fuel as [|fuel IH]; intros s v r; [discriminate|].
  destruct s as [|c s]; [discriminate|]. cbn [scan_once].
  destruct (Ascii.eqb c DQUOTE).
  { destruct (scanstring s) as [[t rest]|]; [|discriminate].
    intros [= <- _]. reflexivity. }
  destruct (Ascii.eqb c "{").
  { destruct (skip_ws s) as [|q r']; [discriminate|].
    destruct (Ascii.eqb q "}"); [intros [= <- _]; reflexivity|].
    destruct (Ascii.eqb q DQUOTE); [|discriminate].
    destruct (object_items (scan_once fuel) fuel r') as [[pairs rest]|] eqn:Ho;
      [|discriminate].
    intros [= <- _]. apply dict_of_pairs_well_formed.
    apply (object_items_well_formed _ IH _ _ _ _ Ho). }
  destruct (Ascii.eqb c "[").
  { destruct (skip_ws s) as [|q r']; [discriminate|].
    destruct (Ascii.eqb q "]"); [intros [= <- _]; reflexivity|].
    destruct (array_items (scan_once fuel) fuel (String q r')) as [[items rest]|] eqn:Ha;
      [|discriminate].
    intros [= <- _]. apply (array_items_well_formed _ IH _ _ _ _ Ha). }
  destruct (after_word "null" (String c s)); [intros [= <- _]; reflexivity|].
  destruct (after_word "true" (String c s)); [intros [= <- _]; reflexivity|].
  destruct (after_word "false" (String c s)); [intros [= <- _]; reflexivity|].
  destruct (scan_number (String c s)) as [[v0 r0]|] eqn:Hn.
  { intros [= <- _]. apply (scan_number_well_formed _ _ _ Hn). }
  destruct (after_word "NaN" (String c s)); [intros [= <- _]; reflexivity|].
  destruct (after_word "Infinity" (String c s)); [intros [= <- _]; reflexivity|].
  destruct (after_word "-Infinity" (String c s)); [intros [= <- _]; reflexivity|].
  discriminate.
Qed.

Lemma json_loads_well_formed (s : string) (v : pyval) :
  json_loads s = Some v -> well_formed v = true.
Proof.
  unfold json_loads.
  destruct (scan_once _ _) as [[v0 rest]|] eqn:Hs; [|discriminate].
  destruct (skip_ws rest); [|discriminate]. intros [= <-].
  apply (scan_once_well_formed _ _ _ _ Hs).
Qed.

Lemma well_formed_lookup (d : list (string * pyval)) (k : string) (x : pyval) :
  well_formed (PDict d) = true -> lookup_key k d = Some x -> well_formed x = true.
Proof.
  simpl. intros [_ Hd]%andb_prop. rewrite List.forallb_forall in Hd.
  induction d as [|[k' v] d IH]; [discriminate|]. simpl.
  destruct (String.eqb k' k).
  - intros [= <-]. apply (Hd (k', v)). left. reflexivity.
  - apply IH. intros kv Hkv. apply Hd. right. exact Hkv.
Qed.

Lemma well_formed_item (items : list pyval) (x : pyval) :
  well_formed (PList items) = true -> x ∈ items -> well_formed x = true.
Proof.
  simpl. rewrite List.forallb_forall. intros H Hx. apply H, list_elem_of_In, Hx.
Qed.

(** The values on which the decoder written out above is the library's:
    no number read from a literal with a fraction or an exponent (for such
    a literal the library builds the double, whose text can differ from
    the literal, while [scan_number] keeps the literal), and every integer
    within the interpreter's default limit of 4300 digits. *)
Fixpoint decodes_exactly (v : pyval) : bool :=
  match v with
  | PInt n => Z.abs n <? 10 ^ 4300
  | PFloat (FFin _) => false
  | PList items => forallb decodes_exactly items
  | PDict entries => forallb (fun kv => decodes_exactly (snd kv)) entries
  | _ => true
  end.

(** X15. For JSON whose numbers are integers: every value the decoder
    returns is written by the encoder as a text that decodes to the same
    value again (a key that came twice is kept once, an integer written
    with a sign or as [-0] comes back as the same integer).  So for a page
    decoded from such a body, the nested cell of each of its objects
    decodes back to exactly the nested value that arrived, the empty array
    when there was none.  Numbers with a fraction or an exponent are left
    out: the decoder modelled here keeps their text and does not build the
    double. *)
Theorem decoded_integer_json_round_trips :
  forall body page,
    json_loads body = Some page ->
    decodes_exactly page = true ->
    well_formed page = true
    /\ json_loads (json_dumps page) = Some page
    /\ forall pd objs d a keys,
         page = PDict pd ->
         lookup_key "objects" pd = Some (PList objs) ->
         PDict d ∈ objs ->
         attrs_of d = PDict a ->
         exists cells text,
           emit_row keys (fieldnames_of keys) (PDict d) = Ok cells
           /\ cells !! (3 + length keys)%nat = Some (Field text)
           /\ json_loads text = Some (default (PList []) (lookup_key "nested" d)).
Proof.
  intros body page Hload _. pose proof (json_loads_well_formed _ _ Hload) as Hwf.
  split; [exact Hwf|]. split; [apply json_loads_dumps, Hwf|].
  intros pd objs d a keys -> Hobjs Hd Ha.
  pose proof (well_formed_item _ _ (well_formed_lookup _ _ _ Hwf Hobjs) Hd) as Hwd.
  exists (cells_of keys d a), (json_dumps (default (PList []) (lookup_key "nested" d))).
  split; [apply emit_row_dict, Ha|]. split.
  - rewrite (cells_of_lookup _ _ _ _ _ (nested_column_position keys)). unfold row_value.
    rewrite bool_decide_true by reflexivity. reflexivity.
  - apply json_loads_dumps.
    destruct (lookup_key "nested" d) as [n|] eqn:Hn; [|reflexivity].
    apply (well_formed_lookup _ _ _ Hwd Hn).
Qed.

(** A body with a key that comes twice, an integer written as [-0] and
    blanks between the items. *)
Definition sample_body : string :=
  "{" +:+ String DQUOTE "objects" +:+ String DQUOTE ": [ {"
  +:+ String DQUOTE "nested" +:+ String DQUOTE ": [-0, null], "
  +:+ String DQUOTE "nested" +:+ String DQUOTE ": [ 12 ,{"
  +:+ String DQUOTE "k" +:+ String DQUOTE ":true} ]} ]}".

Definition sample_body_page : pyval :=
  PDict [("objects",
          PList [PDict [("nested", PList [PInt 12; PDict [("k", PBool true)]])]])].

Lemma decoded_integer_json_round_trips_witness :
  json_loads sample_body = Some sample_body_page
  /\ json_loads (json_dumps sample_body_page) = Some sample_body_page.
Proof.
  assert (Hload : json_loads sample_body = Some sample_body_page)
    by (vm_compute; reflexivity).
  split; [exact Hload|].
  exact (proj1 (proj2 (decoded_integer_json_round_trips sample_body sample_body_page
                         Hload ltac:(vm_compute; reflexivity)))).
Defined.

(** ** Attribute bags of another type *)



(** ** The links the paginator follows *)

Lemma request_json_sent cfg url w :
  exists new,
    sent (snd (request_json cfg url w)) = sent w ++ new
    /\ (forall i req, new !! i = Some req -> i = 0%nat /\ url = PStr (req_url req))
    /\ (forall data,
          fst (request_json cfg url w) = Ok data ->
          exists req resp,
            new = [req]
            /\ net w = resp :: net (snd (request_json cfg url w))
            /\ status_ok (status_code resp) = true
            /\ json_body resp = Some data).
Proof.
  pose proof (request_json_cases cfg url w) as H.
  destruct url as [| | | |u| |];
    try (simpl in H; rewrite H; exists []; simpl; rewrite app_nil_r;
         split; [reflexivity|]; split; [intros i req Hi|intros data Hd]; discriminate).
  revert H. destruct (PRIVATE_KEY cfg) as [k|] eqn:Hk; intros H.
  - destruct H as [Hw Ho]. rewrite Hw, Ho.
    exists [Request u (signed_headers cfg k u (clock w (ticks w)))].
    split; [reflexivity|]. split.
    + intros [|i] req Hi; [|discriminate]. injection Hi as <-. auto.
    + intros data Hd. destruct (net w) as [|resp rest] eqn:Hnet; [discriminate|].
      destruct (status_ok (status_code resp)) eqn:Hst; [|discriminate].
      destruct (json_body resp) as [v|] eqn:Hb; [|discriminate].
      injection Hd as ->. eexists _, resp. simpl. rewrite Hnet. auto.
  - rewrite H. exists []. simpl. rewrite app_nil_r.
    split; [reflexivity|]. split; [intros i req Hi|intros data Hd]; discriminate.
Qed.

(** The reply at place [i] carried, as its next link, the URL of [req]. *)
Definition link_given (replies : list response) (i : nat) (req : request) : Prop :=
  exists resp data items,
    replies !! i = Some resp
    /\ status_ok (status_code resp) = true
    /\ json_body resp = Some data
    /\ read_page data = Ok (items, PStr (req_url req))
    /\ req_url req <> "".

Lemma fetch_pages_links cfg fuel :
  forall url acc w,
    exists new,
      sent (snd (fetch_pages cfg fuel url acc w)) = sent w ++ new
      /\ (forall req, new !! 0%nat = Some req -> url = PStr (req_url req))
      /\ (forall i req, new !! S i = Some req -> link_given (net w) i req).
Proof.
  induction fuel as [|fuel IH]; intros url acc w.
  - exists []. simpl. destruct (truthy url); simpl; rewrite app_nil_r;
      (split; [reflexivity|]); split; intros; discriminate.
  - rewrite fetch_pages_unfold. destruct (truthy url).
    2:{ exists []. simpl. rewrite app_nil_r. split; [reflexivity|].
        split; intros; discriminate. }
    destruct (request_json_sent cfg url w) as (n1 & Hs1 & Hfirst & Hok).
    assert (Hstop : exists new,
              sent (snd (request_json cfg url w)) = sent w ++ new
              /\ (forall req, new !! 0%nat = Some req -> url = PStr (req_url req))
              /\ (forall i req, new !! S i = Some req -> link_given (net w) i req)).
    { exists n1. split; [exact Hs1|]. split.
      - intros req Hat. apply (Hfirst _ _ Hat).
      - intros i req Hat. destruct (Hfirst _ _ Hat) as [Hi _]. discriminate. }
    destruct (request_json cfg url w) as [[data|e|] w1] eqn:Hreq; simpl in *;
      [|exact Hstop..].
    destruct (read_page data) as [[items nl]|e|] eqn:Hrp; [|exact Hstop..].
    destruct (truthy nl) eqn:Hnl; [|exact Hstop].
    destruct (Hok data eq_refl) as (req0 & resp & -> & Hnet & Hst & Hbody).
    destruct (IH nl (acc ++ items) w1) as (n2 & Hs2 & Hfirst2 & Hlinks2).
    exists (req0 :: n2). split; [|split].
    + rewrite Hs2, Hs1, <- app_assoc. reflexivity.
    + intros req [= <-]. apply (Hfirst 0%nat req0 eq_refl).
    + intros [|i] req Hat; simpl in Hat.
      * specialize (Hfirst2 req Hat). subst nl.
        exists resp, data, items. rewrite Hnet. simpl.
        repeat split; auto. intros Hempty. simpl in Hnl. rewrite Hempty in Hnl.
        discriminate.
      * destruct (Hlinks2 i req Hat) as (resp' & data' & items' & Hplace & Hrest).
        exists resp', data', items'. rewrite Hnet. simpl. auto.
Qed.

(** X17. The paginator asks for no URL of its own making beyond the first:
    whatever the replies, the first request goes to the first-page URL and
    every later request goes to the [href] that the next link of the reply
    just before it carried, a reply that came with a passing status and a
    JSON body. *)
Theorem paginator_follows_only_given_links :
  forall cfg (w : world),
    exists new,
      sent (snd (iterate_all_objects cfg w)) = sent w ++ new
      /\ (forall req, new !! 0%nat = Some req -> req_url req = build_first_page_url cfg)
      /\ (forall i req,
            new !! S i = Some req ->
            exists resp data items,
              net w !! i = Some resp
              /\ status_ok (status_code resp) = true
              /\ json_body resp = Some data
              /\ read_page data = Ok (items, PStr (req_url req))
              /\ req_url req <> "").
Proof.
  intros cfg w. unfold iterate_all_objects.
  destruct (fetch_pages_links cfg (S (length (net w)))
              (PStr (build_first_page_url cfg)) [] w) as (new & Hs & Hfirst & Hlinks).
  exists new. split; [exact Hs|]. split; [|exact Hlinks].
  intros req Hreq. specialize (Hfirst req Hreq). congruence.
Qed.

(** ** A header without repeated names *)

(** X18. The header of the file names every column once exactly when no
    object has an attribute called url, type, exact or nested; those four
    names are the only ones that can come twice. *)
Theorem header_columns_distinct_iff :
  forall objects,
    let keys := attr_columns objects in
    (NoDup (fieldnames_of keys) <->
     forall K obj, K ∈ ["url"; "type"; "exact"; "nested"] -> obj ∈ objects ->
                   K ∉ keys_of obj)
    /\ forall K, K ∉ ["url"; "type"; "exact"; "nested"] ->
                 (length (filter (fun x => x = K) (fieldnames_of keys)) <= 1)%nat.
Proof.
  intros objects keys. pose proof (sorted_NoDup (list_to_set (concat (map keys_of objects))))
    as Hnd. fold (attr_columns objects) in Hnd. fold keys in Hnd.
  assert (Hfixed : NoDup ["url"; "type"; "exact"]).
  { repeat (apply NoDup_cons; split; [set_solver|]). apply NoDup_nil_2. }
  split; [split|].
  - intros Hall K obj HK Hobj Hin.
    assert (Hkeys : K ∈ keys) by (apply attr_columns_elem_of; eauto).
    pose proof (fixed_column_twice keys K Hnd Hkeys HK) as Htwice.
    assert (Hone : (length (filter (fun x => x = K) (fieldnames_of keys)) <= 1)%nat).
    { clear Htwice. induction Hall as [|x l Hx Hl IH]; [simpl; lia|].
      destruct (decide (x = K)) as [->|Hne].
      - rewrite filter_cons_True by reflexivity. rewrite (filter_eq_absent _ _ Hx).
        simpl. lia.
      - rewrite filter_cons_False by exact Hne. exact IH. }
    lia.
  - intros Hnone. unfold fieldnames_of.
    assert (Hout : forall K, K ∈ ["url"; "type"; "exact"; "nested"] -> K ∉ keys).
    { intros K HK Hin. apply attr_columns_elem_of in Hin as (obj & Hobj & Hk).
      exact (Hnone K obj HK Hobj Hk). }
    apply NoDup_app. split; [exact Hfixed|]. split.
    + intros x Hx Hin. apply elem_of_app in Hin as [Hin|Hin].
      * apply (Hout x); [set_solver|exact Hin].
      * set_solver.
    + apply NoDup_app. split; [exact Hnd|]. split; [|apply NoDup_singleton].
      intros x Hx Hin. apply list_elem_of_singleton in Hin as ->.
      apply (Hout "nested"); [set_solver|exact Hx].
  - intros K HK. unfold fieldnames_of. rewrite !filter_app, !length_app.
    rewrite (filter_eq_absent K ["url"; "type"; "exact"]) by set_solver.
    rewrite (filter_eq_absent K ["nested"]) by set_solver. simpl.
    destruct (decide (K ∈ keys)) as [Hin|Hout].
    + rewrite (filter_eq_once _ _ Hnd Hin). lia.
    + rewrite (filter_eq_absent _ _ Hout). simpl. lia.
Qed.
